(** * TaxBot: the tax computation engine of [tax_engine.py]

    A shallow embedding of the New-Tax-Regime engine (fiscal years
    2024-25 and 2025-26) and the properties its specification states.

    Modelling conventions.
    - The engine is embedded twice.  In the first embedding Python numbers
      (the [int] amounts typed into the forms and the [float] rates and
      products) are read as exact rationals [Q], compared with [==]
      ([Qeq]); [float('inf')], the upper bound of the last slab, is the
      bound [Inf].  It carries the properties that do not depend on
      rounding.
    - In the second embedding, [Binary64], a number is a Python [int] or a
      binary64 [float]; every float product and sum is rounded to nearest,
      ties to even, an [int] is converted before it meets a [float] and the
      conversion of an [int] beyond the float range raises [OverflowError].
      It carries the properties where rounding shows.
    - A Python value that may be [None] is an [option]; subscripting [None]
      raises [TypeError], as the interpreter does.
    - A call either returns a value or raises an exception, named by its
      class: the type [py].
    - The dictionary [income_details] is a finite map from keys to amounts;
      [d.get(k, 0)] is [get d k 0]. *)

From Stdlib Require Import QArith Qminmax Qabs Qround Qpower Lqa.
From stdpp Require Import gmap strings.

Local Open Scope Q_scope.

(** ** Python outcomes *)

Inductive py (A : Type) : Type :=
| Return (a : A)
| Raise (cls : string).
Arguments Return {A} a.
Arguments Raise {A} cls.

#[global] Instance py_ret : MRet py := @Return.
#[global] Instance py_bind : MBind py := fun A B k m =>
  match m with
  | Return a => k a
  | Raise cls => Raise cls
  end.

(** ** Numbers *)

(** [a <= b] and [a > b] as the tests of an [if]. *)
Definition leb (a b : Q) : bool := Qle_bool a b.
Definition gtb (a b : Q) : bool := negb (Qle_bool a b).

(** An upper bound of a slab: a number or [float('inf')]. *)
Inductive bound : Type :=
| Fin (q : Q)
| Inf.

(** [min(x, upper)]; against [float('inf')] every number is the smaller. *)
Definition min_bound (x : Q) (upper : bound) : Q :=
  match upper with
  | Fin u => Qmin x u
  | Inf => x
  end.

(** ** TaxYearConfig *)

(** A slab is the tuple [(lower, upper, rate)]. *)
Definition slab : Type := Q * bound * Q.

Record TaxYearConfig : Type := {
  slabs : list slab;
  standard_deduction : Q;
  rebate_limit : Q;
  rebate_max : Q;
  advance_tax_threshold : Q
}.

Definition get_tax_slabs (fy_ay : string) : option TaxYearConfig :=
  if String.eqb fy_ay "FY 2024-25 / AY 2025-26" then
    Some {| slabs := [ (0, Fin 300000, 0);
                       (300000, Fin 700000, 0.05);
                       (700000, Fin 1000000, 0.10);
                       (1000000, Fin 1200000, 0.15);
                       (1200000, Fin 1500000, 0.20);
                       (1500000, Inf, 0.30) ];
            standard_deduction := 75000;
            rebate_limit := 700000;
            rebate_max := 25000;
            advance_tax_threshold := 10000 |}
  else if String.eqb fy_ay "FY 2025-26 / AY 2026-27" then
    Some {| slabs := [ (0, Fin 400000, 0);
                       (400000, Fin 700000, 0.05);
                       (700000, Fin 1000000, 0.10);
                       (1000000, Fin 1200000, 0.15);
                       (1200000, Fin 1500000, 0.20);
                       (1500000, Inf, 0.30) ];
            standard_deduction := 75000;
            rebate_limit := 1200000;
            rebate_max := 60000;
            advance_tax_threshold := 10000 |}
  else None.

(** [config[key]]: the function falls off its end for an unknown year and
    so hands back [None], which is not subscriptable. *)
Definition getitem {A : Type} (config : option TaxYearConfig)
    (key : TaxYearConfig -> A) : py A :=
  match config with
  | Some c => Return (key c)
  | None => Raise "TypeError"
  end.

(** ** Progressive slab tax *)

(** One line of [tax_breakdown].  The entry keeps the slab the two labels
    are rendered from ([indian_formatter] turns it into text). *)
Record breakdown_entry : Type := {
  entry_slab : Q * bound;
  entry_rate : Q;
  taxable_amount : Q;
  tax : Q
}.

(** The [for] loop of [calculate_income_tax], carrying [tax] and
    [tax_breakdown]; [break] returns what has been accumulated. *)
Fixpoint slab_loop (taxable_income : Q) (slabs : list slab)
    (tax : Q) (tax_breakdown : list breakdown_entry)
    : Q * list breakdown_entry :=
  match slabs with
  | [] => (tax, tax_breakdown)
  | (lower, upper, rate) :: rest =>
      if leb taxable_income lower then (tax, tax_breakdown)
      else
        let taxable_in_slab := min_bound taxable_income upper - lower in
        let slab_tax := taxable_in_slab * rate in
        let tax := tax + slab_tax in
        let tax_breakdown :=
          if gtb slab_tax 0 then
            tax_breakdown ++ [ {| entry_slab := (lower, upper);
                                  entry_rate := rate;
                                  taxable_amount := taxable_in_slab;
                                  tax := slab_tax |} ]
          else tax_breakdown in
        slab_loop taxable_income rest tax tax_breakdown
  end.

(** The parameter [age_group] of the source has a default and is not read. *)
Definition calculate_income_tax (taxable_income : Q) (fy_ay : string)
    : py (Q * list breakdown_entry) :=
  let config := get_tax_slabs fy_ay in
  slabs ← getitem config slabs;
  mret (slab_loop taxable_income slabs 0 []).

(** ** Rebate under Section 87A *)

Definition calculate_rebate_87a (gross_tax taxable_income : Q)
    (fy_ay : string) : py Q :=
  let config := get_tax_slabs fy_ay in
  limit ← getitem config rebate_limit;
  if leb taxable_income limit then
    cap ← getitem config rebate_max;
    Return (Qmin gross_tax cap)
  else Return 0.

(** ** Surcharge and cess *)

Definition calculate_cess_and_surcharge (tax_after_rebate taxable_income : Q)
    : Q * Q :=
  let surcharge :=
    if gtb taxable_income 5000000 then
      if leb taxable_income 10000000 then tax_after_rebate * 0.10
      else if leb taxable_income 20000000 then tax_after_rebate * 0.15
      else if leb taxable_income 50000000 then tax_after_rebate * 0.25
      else tax_after_rebate * 0.37
    else 0 in
  let cess := (tax_after_rebate + surcharge) * 0.04 in
  (surcharge, cess).

(** ** Capital gains *)

Definition calculate_capital_gains_tax (stcg ltcg : Q) : Q * Q :=
  let stcg_tax := stcg * 0.15 in
  let ltcg_tax := Qmax 0 (ltcg - 100000) * 0.10 in
  (stcg_tax, ltcg_tax).

(** ** Total liability *)

(** [income_details.get(key, dflt)]. *)
Definition get (income_details : gmap string Q) (key : string) (dflt : Q) : Q :=
  default dflt (income_details !! key).

Module TaxResult.

Record t : Type := {
  taxable_income : Q;
  gross_tax : Q;
  rebate_87a : Q;
  tax_after_rebate : Q;
  surcharge : Q;
  cess : Q;
  stcg_tax : Q;
  ltcg_tax : Q;
  total_tax : Q;
  advance_tax_required : bool;
  tax_breakdown : list breakdown_entry
}.

End TaxResult.

Definition compute_total_tax_liability (income_details : gmap string Q)
    (fy_ay employment_type : string) : py TaxResult.t :=
  taxable_income ←
    (if String.eqb employment_type "Salaried" then
       let gross_salary := get income_details "basic_salary" 0
                           + get income_details "hra" 0
                           + get income_details "bonus" 0 in
       let config := get_tax_slabs fy_ay in
       deduction ← getitem config standard_deduction;
       Return (Qmax 0 (gross_salary - deduction))
     else if String.eqb employment_type "Rental" then
       let rental_income := get income_details "rent_received" 0
                            - get income_details "municipal_tax" 0
                            - get income_details "interest_paid" 0 in
       Return (Qmax 0 rental_income)
     else if existsb (String.eqb employment_type) ["Freelancer"; "Business"] then
       Return (get income_details "net_profit" 0)
     else if String.eqb employment_type "Investor" then
       let other_income := get income_details "dividends" 0
                           + get income_details "interest_income" 0 in
       Return other_income
     else Return 0);
  '(gross_tax, tax_breakdown) ← calculate_income_tax taxable_income fy_ay;
  rebate_87a ← calculate_rebate_87a gross_tax taxable_income fy_ay;
  let tax_after_rebate := gross_tax - rebate_87a in
  let '(surcharge, cess) :=
    calculate_cess_and_surcharge tax_after_rebate taxable_income in
  let '(stcg_tax, ltcg_tax) :=
    calculate_capital_gains_tax (get income_details "stcg" 0)
                                (get income_details "ltcg" 0) in
  let total_tax := tax_after_rebate + surcharge + cess + stcg_tax + ltcg_tax in
  threshold ← getitem (get_tax_slabs fy_ay) advance_tax_threshold;
  let advance_tax_required := gtb total_tax threshold in
  Return {| TaxResult.taxable_income := taxable_income;
            TaxResult.gross_tax := gross_tax;
            TaxResult.rebate_87a := rebate_87a;
            TaxResult.tax_after_rebate := tax_after_rebate;
            TaxResult.surcharge := surcharge;
            TaxResult.cess := cess;
            TaxResult.stcg_tax := stcg_tax;
            TaxResult.ltcg_tax := ltcg_tax;
            TaxResult.total_tax := total_tax;
            TaxResult.advance_tax_required := advance_tax_required;
            TaxResult.tax_breakdown := tax_breakdown |}.

(** ** The reference formula of the slab tax *)

(** What one slab adds at income [T]:
    [max(0, min(T, upper) - lower) * rate]. *)
Definition contribution (T : Q) (s : slab) : Q :=
  let '(lower, upper, rate) := s in
  Qmax 0 (min_bound T upper - lower) * rate.

(** The sum of the contributions of all slabs, none skipped. *)
Definition reference_tax (T : Q) (slabs : list slab) : Q :=
  fold_right (fun s acc => contribution T s + acc) 0 slabs.

(** The whole width of a slab taxed at its rate. *)
Definition full_contribution (s : slab) : Q :=
  let '(lower, upper, rate) := s in
  match upper with
  | Fin u => (u - lower) * rate
  | Inf => 0
  end.

Definition full_tax (slabs : list slab) : Q :=
  fold_right (fun s acc => full_contribution s + acc) 0 slabs.

(** The invariant of a slab table: it starts at [start], every slab begins
    where the one before it ends, is not empty, and has a rate at least the
    rate before it; the last slab, and only the last, is unbounded. *)
Fixpoint progressive (start prev_rate : Q) (slabs : list slab) : Prop :=
  match slabs with
  | [] => False
  | (lower, upper, rate) :: rest =>
      lower == start /\ prev_rate <= rate /\
      match upper with
      | Fin u => lower < u /\ progressive u rate rest
      | Inf => rest = []
      end
  end.

(** Every amount stored in the profile is non-negative. *)
Definition nonneg_fields (income_details : gmap string Q) : Prop :=
  forall key v, income_details !! key = Some v -> 0 <= v.

(** Scenario A: the dictionary the form hands over for a salaried taxpayer
    with a basic salary of 6 lakh and nothing else. *)
Definition scenario_A : gmap string Q :=
  list_to_map
    [ ("basic_salary", 600000); ("hra", 0); ("pf", 0); ("bonus", 0);
      ("rent_paid", 0); ("employer_nps", 0); ("rent_received", 0);
      ("municipal_tax", 0); ("interest_paid", 0); ("net_profit", 0);
      ("expenses", 0); ("stcg", 0); ("ltcg", 0); ("dividends", 0);
      ("interest_income", 0); ("tds_paid", 0); ("advance_tax_paid", 0) ]%string.


(** The taxable income that [compute_total_tax_liability] derives, when the
    year's standard deduction is [deduction]. *)
Definition derived_income (income_details : gmap string Q) (deduction : Q)
    (employment_type : string) : Q :=
  if String.eqb employment_type "Salaried" then
    Qmax 0 (get income_details "basic_salary" 0 + get income_details "hra" 0
            + get income_details "bonus" 0 - deduction)
  else if String.eqb employment_type "Rental" then
    Qmax 0 (get income_details "rent_received" 0
            - get income_details "municipal_tax" 0
            - get income_details "interest_paid" 0)
  else if existsb (String.eqb employment_type) ["Freelancer"; "Business"] then
    get income_details "net_profit" 0
  else if String.eqb employment_type "Investor" then
    get income_details "dividends" 0 + get income_details "interest_income" 0
  else 0.

(** [T] lies at or below the bound. *)
Definition below (T : Q) (upper : bound) : Prop :=
  match upper with
  | Fin u => T <= u
  | Inf => True
  end.

(** ** Charts of [visualization.py]

    The three chart builders compute the series of a plotly figure from the
    result and the profile; a figure is kept as the series handed to its
    traces (the colours, sizes and hover templates are constants of the
    source).  A message shown with [st.info] is logged beside the value
    returned. *)

Definition ui (A : Type) : Type := A * list string.

(** [go.Pie(labels=..., values=...)]. *)
Record PieFigure : Type := {
  labels : list string;
  values : list Q
}.

(** [go.Bar(x=..., y=...)] over labels of type [L]. *)
Record BarFigure (L : Type) : Type := {
  bar_x : list L;
  bar_y : list Q
}.
Arguments bar_x {L} _.
Arguments bar_y {L} _.


(** [if value > 0: components.append(label); values.append(value)]. *)
Definition add_component (value : Q) (label : string)
    (lists : list string * list Q) : list string * list Q :=
  let '(components, values) := lists in
  if gtb value 0 then (components ++ [label], values ++ [value])
  else (components, values).

Definition create_tax_breakdown_chart (tax_result : TaxResult.t)
    : ui (option PieFigure) :=
  let lists := ([], []) in
  let lists :=
    add_component (TaxResult.tax_after_rebate tax_result) "Income Tax" lists in
  let lists :=
    add_component (TaxResult.surcharge tax_result) "Surcharge" lists in
  let lists :=
    add_component (TaxResult.cess tax_result) "Health & Education Cess" lists in
  let lists :=
    add_component (TaxResult.stcg_tax tax_result) "STCG Tax" lists in
  let lists :=
    add_component (TaxResult.ltcg_tax tax_result) "LTCG Tax" lists in
  let '(components, values) := lists in
  match components with
  | [] => (None, ["No tax liability to display."%string])
  | _ :: _ => (Some {| labels := components; values := values |}, [])
  end.

(** [income_details[key]]: a missing key raises [KeyError]. *)
Definition subscript (income_details : gmap string Q) (key : string) : py Q :=
  match income_details !! key with
  | Some v => Return v
  | None => Raise "KeyError"
  end.

(** [if income_details.get(key, 0) > 0:
       income_sources.append(label); amounts.append(income_details[key])]. *)
Definition add_source (income_details : gmap string Q) (key label : string)
    (lists : list string * list Q) : py (list string * list Q) :=
  let '(income_sources, amounts) := lists in
  if gtb (get income_details key 0) 0 then
    amount ← subscript income_details key;
    mret (income_sources ++ [label], amounts ++ [amount])
  else mret (income_sources, amounts).

Definition create_income_composition_chart (income_details : gmap string Q)
    (employment_type : string) : py (ui (option (BarFigure string))) :=
  lists ←
    (if String.eqb employment_type "Salaried" then
       lists ← add_source income_details "basic_salary" "Basic Salary" ([], []);
       lists ← add_source income_details "hra" "HRA" lists;
       add_source income_details "bonus" "Bonus" lists
     else if String.eqb employment_type "Rental" then
       add_source income_details "rent_received" "Rent Received" ([], [])
     else if existsb (String.eqb employment_type) ["Freelancer"; "Business"] then
       add_source income_details "net_profit" "Net Profit" ([], [])
     else if String.eqb employment_type "Investor" then
       lists ← add_source income_details "dividends" "Dividends" ([], []);
       lists ← add_source income_details "interest_income" "Interest Income"
                 lists;
       lists ← add_source income_details "stcg" "STCG" lists;
       add_source income_details "ltcg" "LTCG" lists
     else mret ([], []));
  let '(income_sources, amounts) := lists in
  match income_sources with
  | [] => mret (None, ["No income data to display."%string])
  | _ :: _ =>
      mret (Some {| bar_x := income_sources; bar_y := amounts |}, [])
  end.


(** ** Totals used in the statements *)

(** The sum of a series. *)
Definition total (series : list Q) : Q := fold_right Qplus 0 series.

(** A pair of series of the same length whose values are positive. *)
Definition aligned (lists : list string * list Q) : Prop :=
  length lists.1 = length lists.2 /\ Forall (fun v => 0 < v) lists.2.

(** The height of all bars of a chart together; 0 when there is no chart. *)
Definition shown_total {L : Type} (chart : option (BarFigure L)) : Q :=
  match chart with
  | Some fig => total (bar_y fig)
  | None => 0
  end.

(** The keys of [income_details] that [compute_total_tax_liability] reads. *)
Definition read_keys : list string :=
  [ "basic_salary"; "hra"; "bonus"; "rent_received"; "municipal_tax";
    "interest_paid"; "net_profit"; "dividends"; "interest_income";
    "stcg"; "ltcg" ]%string.


(** ** Rounding to binary64

    A finite binary64 number is [m * 2^e] with [|m| < 2^53] and
    [e >= -1074].  [rnd x] is the nearest such number to the rational [x],
    ties going to the even [m]; the range is not cut here, [round] below
    does that. *)

Definition pow2 (e : Z) : Q := 2 ^ e.

(** The integer part of the binary logarithm of a positive rational. *)
Definition ilog2 (x : Q) : Z :=
  let k := (Z.log2 (Qnum x) - Z.log2 (Zpos (Qden x)))%Z in
  if Qle_bool (pow2 k) x then k else (k - 1)%Z.

(** The nearest integer, ties to even. *)
Definition round_half_even (x : Q) : Z :=
  let f := Qfloor x in
  match Qcompare (x - inject_Z f) (1 # 2) with
  | Lt => f
  | Gt => (f + 1)%Z
  | Eq => if Z.even f then f else (f + 1)%Z
  end.

(** The exponent of the last binary digit that binary64 keeps of [x]:
    53 digits, and never below the subnormal exponent. *)
Definition ulp_exp (x : Q) : Z := Z.max (ilog2 (Qabs x) - 52) (-1074).

Definition rnd (x : Q) : Q :=
  inject_Z (round_half_even (x / pow2 (ulp_exp x))) * pow2 (ulp_exp x).

(** Half a unit in the last place, relative to the number: [2^-53]. *)
Definition u64 : Q := 1 # (2 ^ 53).

(** A non-negative number that binary64 holds exactly. *)
Definition representable (x : Q) : Prop :=
  exists m e, (0 <= m < 2 ^ 53)%Z /\ (-1074 <= e)%Z
              /\ x == inject_Z m * pow2 e.

(** [a] is the exact value [x] up to [k] roundings: within [k * 2^-52] of
    it, relatively. *)
Definition near (k : Z) (a x : Q) : Prop :=
  (1 - inject_Z k * (2 * u64)) * x <= a
  /\ a <= (1 + inject_Z k * (2 * u64)) * x.

(** The value of the slab loop when every rate literal, every amount that
    is multiplied by one, every product and every sum is rounded to
    binary64. *)
Fixpoint rounded_tax (T : Q) (slabs : list slab) (tax : Q) : Q :=
  match slabs with
  | [] => tax
  | (lower, upper, rate) :: rest =>
      if leb T lower then tax
      else
        rounded_tax T rest
          (rnd (tax + rnd (rnd (min_bound T upper - lower) * rnd rate)))
  end.

(** What one slab adds to the running sum [acc] at income [T], rounded:
    [acc + max(0, min(T, upper) - lower) * rate] in binary64. *)
Definition rounded_add (T : Q) (acc : Q) (s : slab) : Q :=
  let '(lower, upper, rate) := s in
  rnd (acc + rnd (rnd (Qmax 0 (min_bound T upper - lower)) * rnd rate)).

(** The sum over all slabs of [max(0, min(T, upper) - lower) * rate], none
    skipped, evaluated from left to right in binary64. *)
Definition rounded_reference (T : Q) (slabs : list slab) : Q :=
  fold_left (rounded_add T) slabs 0.

(** The surcharge rate of the band that holds the taxable income [T]:
    nothing up to 50 lakh, then 10%, 15%, 25% and 37%. *)
Definition surcharge_rate (T : Q) : Q :=
  if gtb T 5000000 then
    if leb T 10000000 then 0.10
    else if leb T 20000000 then 0.15
    else if leb T 50000000 then 0.25
    else 0.37
  else 0.

(** A whole number of rupees. *)
Definition whole (x : Q) : Prop := exists z : Z, x == inject_Z z.

(** A slab that begins at a whole amount and is taxed at 0 or at a rate
    between [2^-10] and 1. *)
Definition plain_slab (s : slab) : Prop :=
  whole s.1.1 /\ (s.2 == 0 \/ pow2 (-10) <= s.2 /\ s.2 <= 1).

(** ** The engine on Python's numbers *)

Module Binary64.

(** A binary64 value.  The two zeros are one value: the engine neither
    divides nor reads a sign. *)
Inductive float : Type :=
| Finite (q : Q)
| PInf
| NInf
| NaN.

(** Round to nearest, overflowing to an infinity. *)
Definition round (x : Q) : float :=
  let r := rnd x in
  if Qle_bool (pow2 1024) r then PInf
  else if Qle_bool r (- pow2 1024) then NInf
  else Finite r.

Definition fneg (a : float) : float :=
  match a with
  | Finite x => Finite (- x)
  | PInf => NInf
  | NInf => PInf
  | NaN => NaN
  end.

Definition fadd (a b : float) : float :=
  match a, b with
  | NaN, _ | _, NaN => NaN
  | PInf, NInf | NInf, PInf => NaN
  | PInf, _ | _, PInf => PInf
  | NInf, _ | _, NInf => NInf
  | Finite x, Finite y => round (x + y)
  end.

Definition fsub (a b : float) : float := fadd a (fneg b).

(** An infinity times a finite number: by the sign, [nan] at zero. *)
Definition scale_inf (inf : float) (x : Q) : float :=
  match Qcompare x 0 with
  | Eq => NaN
  | Gt => inf
  | Lt => fneg inf
  end.

Definition fmul (a b : float) : float :=
  match a, b with
  | NaN, _ | _, NaN => NaN
  | Finite x, Finite y => round (x * y)
  | Finite x, inf | inf, Finite x => scale_inf inf x
  | PInf, PInf | NInf, NInf => PInf
  | PInf, NInf | NInf, PInf => NInf
  end.

(** A Python number. *)
Inductive num : Type :=
| Int (z : Z)
| Flt (f : float).

(** A float literal is the binary64 number nearest to its decimal. *)
Definition lit (decimal : Q) : num := Flt (round decimal).

(** [float(n)]: an [int] too large for binary64 raises. *)
Definition to_float (n : num) : py float :=
  match n with
  | Flt f => Return f
  | Int z =>
      match round (inject_Z z) with
      | Finite r => Return (Finite r)
      | _ => Raise "OverflowError"
      end
  end.

(** [int] with [int] is exact; otherwise both operands become floats. *)
Definition add (a b : num) : py num :=
  match a, b with
  | Int x, Int y => Return (Int (x + y))
  | _, _ => fa ← to_float a; fb ← to_float b; mret (Flt (fadd fa fb))
  end.

Definition sub (a b : num) : py num :=
  match a, b with
  | Int x, Int y => Return (Int (x - y))
  | _, _ => fa ← to_float a; fb ← to_float b; mret (Flt (fsub fa fb))
  end.

Definition mul (a b : num) : py num :=
  match a, b with
  | Int x, Int y => Return (Int (x * y))
  | _, _ => fa ← to_float a; fb ← to_float b; mret (Flt (fmul fa fb))
  end.

(** Comparison is exact, also between an [int] and a [float]; [nan]
    compares with nothing. *)
Definition exact (n : num) : float :=
  match n with
  | Int z => Finite (inject_Z z)
  | Flt f => f
  end.

Definition compare (a b : num) : option comparison :=
  match exact a, exact b with
  | NaN, _ | _, NaN => None
  | Finite x, Finite y => Some (Qcompare x y)
  | PInf, PInf | NInf, NInf => Some Eq
  | PInf, _ | _, NInf => Some Gt
  | NInf, _ | _, PInf => Some Lt
  end.

Definition lt (a b : num) : bool :=
  match compare a b with Some Lt => true | _ => false end.
Definition le (a b : num) : bool :=
  match compare a b with Some Lt | Some Eq => true | _ => false end.
Definition gt (a b : num) : bool :=
  match compare a b with Some Gt => true | _ => false end.

(** [min(a, b)] and [max(a, b)] keep the first argument unless the second
    is strictly better. *)
Definition min (a b : num) : num := if lt b a then b else a.
Definition max (a b : num) : num := if gt b a then b else a.

(** The rational a finite number stands for. *)
Definition val (n : num) : Q :=
  match exact n with
  | Finite q => q
  | _ => 0
  end.

Definition finite (n : num) : Prop :=
  match exact n with
  | Finite _ => True
  | _ => False
  end.

(** What the engine holds between two steps of a computation on amounts
    that are not negative: the [int] 0, or a float of binary64 between 0 and
    [2^j]. *)
Definition bounded (j : Z) (n : num) : Prop :=
  match n with
  | Int z => z = 0%Z
  | Flt (Finite q) => representable q /\ q <= pow2 j
  | Flt _ => False
  end.

(** What the form stores in a field: an [int] that is not negative, here
    below [2^1000]. *)
Definition rupees (n : num) : Prop :=
  exists z, n = Int z /\ (0 <= z < 2 ^ 1000)%Z.

Record TaxYearConfig : Type := {
  slabs : list (num * num * num);
  standard_deduction : num;
  rebate_limit : num;
  rebate_max : num;
  advance_tax_threshold : num
}.

Definition get_tax_slabs (fy_ay : string) : option TaxYearConfig :=
  if String.eqb fy_ay "FY 2024-25 / AY 2025-26" then
    Some {| slabs := [ (Int 0, Int 300000, Int 0);
                       (Int 300000, Int 700000, lit 0.05);
                       (Int 700000, Int 1000000, lit 0.10);
                       (Int 1000000, Int 1200000, lit 0.15);
                       (Int 1200000, Int 1500000, lit 0.20);
                       (Int 1500000, Flt PInf, lit 0.30) ];
            standard_deduction := Int 75000;
            rebate_limit := Int 700000;
            rebate_max := Int 25000;
            advance_tax_threshold := Int 10000 |}
  else if String.eqb fy_ay "FY 2025-26 / AY 2026-27" then
    Some {| slabs := [ (Int 0, Int 400000, Int 0);
                       (Int 400000, Int 700000, lit 0.05);
                       (Int 700000, Int 1000000, lit 0.10);
                       (Int 1000000, Int 1200000, lit 0.15);
                       (Int 1200000, Int 1500000, lit 0.20);
                       (Int 1500000, Flt PInf, lit 0.30) ];
            standard_deduction := Int 75000;
            rebate_limit := Int 1200000;
            rebate_max := Int 60000;
            advance_tax_threshold := Int 10000 |}
  else None.

Definition getitem {A : Type} (config : option TaxYearConfig)
    (key : TaxYearConfig -> A) : py A :=
  match config with
  | Some c => Return (key c)
  | None => Raise "TypeError"
  end.

Record breakdown_entry : Type := {
  entry_slab : num * num;
  entry_rate : num;
  taxable_amount : num;
  tax : num
}.

Fixpoint slab_loop (taxable_income : num) (slabs : list (num * num * num))
    (tax : num) (tax_breakdown : list breakdown_entry)
    : py (num * list breakdown_entry) :=
  match slabs with
  | [] => Return (tax, tax_breakdown)
  | (lower, upper, rate) :: rest =>
      if le taxable_income lower then Return (tax, tax_breakdown)
      else
        taxable_in_slab ← sub (min taxable_income upper) lower;
        slab_tax ← mul taxable_in_slab rate;
        tax ← add tax slab_tax;
        let tax_breakdown :=
          if gt slab_tax (Int 0) then
            tax_breakdown ++ [ {| entry_slab := (lower, upper);
                                  entry_rate := rate;
                                  taxable_amount := taxable_in_slab;
                                  tax := slab_tax |} ]
          else tax_breakdown in
        slab_loop taxable_income rest tax tax_breakdown
  end.

Definition calculate_income_tax (taxable_income : num) (fy_ay : string)
    : py (num * list breakdown_entry) :=
  let config := get_tax_slabs fy_ay in
  slabs ← getitem config slabs;
  slab_loop taxable_income slabs (Int 0) [].

Definition calculate_rebate_87a (gross_tax taxable_income : num)
    (fy_ay : string) : py num :=
  let config := get_tax_slabs fy_ay in
  limit ← getitem config rebate_limit;
  if le taxable_income limit then
    cap ← getitem config rebate_max;
    Return (min gross_tax cap)
  else Return (Int 0).

Definition calculate_cess_and_surcharge (tax_after_rebate taxable_income : num)
    : py (num * num) :=
  surcharge ←
    (if gt taxable_income (Int 5000000) then
       if le taxable_income (Int 10000000) then
         mul tax_after_rebate (lit 0.10)
       else if le taxable_income (Int 20000000) then
         mul tax_after_rebate (lit 0.15)
       else if le taxable_income (Int 50000000) then
         mul tax_after_rebate (lit 0.25)
       else mul tax_after_rebate (lit 0.37)
     else Return (Int 0));
  base ← add tax_after_rebate surcharge;
  cess ← mul base (lit 0.04);
  Return (surcharge, cess).

Definition calculate_capital_gains_tax (stcg ltcg : num) : py (num * num) :=
  stcg_tax ← mul stcg (lit 0.15);
  gain ← sub ltcg (Int 100000);
  ltcg_tax ← mul (max (Int 0) gain) (lit 0.10);
  Return (stcg_tax, ltcg_tax).

Definition get (income_details : gmap string num) (key : string) (dflt : num)
    : num :=
  default dflt (income_details !! key).

Record TaxResult : Type := {
  r_taxable_income : num;
  r_gross_tax : num;
  r_rebate_87a : num;
  r_tax_after_rebate : num;
  r_surcharge : num;
  r_cess : num;
  r_stcg_tax : num;
  r_ltcg_tax : num;
  r_total_tax : num;
  r_advance_tax_required : bool;
  r_tax_breakdown : list breakdown_entry
}.

Definition compute_total_tax_liability (income_details : gmap string num)
    (fy_ay employment_type : string) : py TaxResult :=
  taxable_income ←
    (if String.eqb employment_type "Salaried" then
       salary ← add (get income_details "basic_salary" (Int 0))
                    (get income_details "hra" (Int 0));
       gross_salary ← add salary (get income_details "bonus" (Int 0));
       let config := get_tax_slabs fy_ay in
       deduction ← getitem config standard_deduction;
       net ← sub gross_salary deduction;
       Return (max (Int 0) net)
     else if String.eqb employment_type "Rental" then
       rent ← sub (get income_details "rent_received" (Int 0))
                  (get income_details "municipal_tax" (Int 0));
       rental_income ← sub rent (get income_details "interest_paid" (Int 0));
       Return (max (Int 0) rental_income)
     else if existsb (String.eqb employment_type) ["Freelancer"; "Business"] then
       Return (get income_details "net_profit" (Int 0))
     else if String.eqb employment_type "Investor" then
       add (get income_details "dividends" (Int 0))
           (get income_details "interest_income" (Int 0))
     else Return (Int 0));
  '(gross_tax, tax_breakdown) ← calculate_income_tax taxable_income fy_ay;
  rebate_87a ← calculate_rebate_87a gross_tax taxable_income fy_ay;
  tax_after_rebate ← sub gross_tax rebate_87a;
  '(surcharge, cess) ←
    calculate_cess_and_surcharge tax_after_rebate taxable_income;
  '(stcg_tax, ltcg_tax) ←
    calculate_capital_gains_tax (get income_details "stcg" (Int 0))
                                (get income_details "ltcg" (Int 0));
  sum1 ← add tax_after_rebate surcharge;
  sum2 ← add sum1 cess;
  sum3 ← add sum2 stcg_tax;
  total_tax ← add sum3 ltcg_tax;
  threshold ← getitem (get_tax_slabs fy_ay) advance_tax_threshold;
  let advance_tax_required := gt total_tax threshold in
  Return {| r_taxable_income := taxable_income;
            r_gross_tax := gross_tax;
            r_rebate_87a := rebate_87a;
            r_tax_after_rebate := tax_after_rebate;
            r_surcharge := surcharge;
            r_cess := cess;
            r_stcg_tax := stcg_tax;
            r_ltcg_tax := ltcg_tax;
            r_total_tax := total_tax;
            r_advance_tax_required := advance_tax_required;
            r_tax_breakdown := tax_breakdown |}.

(** The profile that the form submits. *)
Definition form_input (income_details : gmap string num) : Prop :=
  forall key v, income_details !! key = Some v -> rupees v.

End Binary64.

(** ** The two tables

    The slabs on Python's numbers and the slabs with exact rates are the
    same table: whole bounds, [float('inf')] for the open end, and each
    rate either the [int] 0 or the float literal of the decimal. *)

Definition same_bound (upper64 : Binary64.num) (upper : bound) : Prop :=
  match upper with
  | Fin u => exists z, upper64 = Binary64.Int z /\ u == inject_Z z
  | Inf => upper64 = Binary64.Flt Binary64.PInf
  end.

Definition same_slab (s64 : Binary64.num * Binary64.num * Binary64.num)
    (s : slab) : Prop :=
  let '(lower64, upper64, rate64) := s64 in
  let '(lower, upper, rate) := s in
  (exists z, lower64 = Binary64.Int z /\ (0 <= z)%Z /\ lower == inject_Z z)
  /\ same_bound upper64 upper
  /\ (rate64 = Binary64.Int 0 /\ rate == 0
      \/ rate64 = Binary64.lit rate /\ pow2 (-10) <= rate /\ rate <= 1).

(** * Properties *)

(** ** Tests and outcomes *)

Lemma leb_le a b : leb a b = true <-> a <= b.
Proof. apply Qle_bool_iff. Qed.

Lemma leb_gt a b : leb a b = false <-> b < a.
Proof.
  unfold leb. split; intros H.
  - apply Qnot_le_lt. intros Hle. apply Qle_bool_iff in Hle. congruence.
  - destruct (Qle_bool a b) eqn:E; [|reflexivity].
    apply Qle_bool_iff in E. lra.
Qed.

Lemma gtb_lt a b : gtb a b = true <-> b < a.
Proof.
  unfold gtb. rewrite negb_true_iff. apply leb_gt.
Qed.

Lemma gtb_le a b : gtb a b = false <-> a <= b.
Proof.
  unfold gtb. rewrite negb_false_iff. apply leb_le.
Qed.

(** Case analysis on every test in the goal. *)
Ltac case_tests :=
  repeat match goal with
  | |- context [leb ?a ?b] =>
      let E := fresh "E" in
      destruct (leb a b) eqn:E; [apply leb_le in E | apply leb_gt in E]
  | |- context [gtb ?a ?b] =>
      let E := fresh "E" in
      destruct (gtb a b) eqn:E; [apply gtb_lt in E | apply gtb_le in E]
  end.

(** Case analysis on every [min] and [max] in the goal. *)
Ltac case_minmax :=
  repeat match goal with
  | |- context [Qmin ?a ?b] =>
      let m := fresh "m" in let Hm := fresh "Hm" in
      destruct (Q.min_spec a b) as [[? Hm] | [? Hm]];
      revert Hm; generalize (Qmin a b); intros m Hm
  | |- context [Qmax ?a ?b] =>
      let m := fresh "m" in let Hm := fresh "Hm" in
      destruct (Q.max_spec a b) as [[? Hm] | [? Hm]];
      revert Hm; generalize (Qmax a b); intros m Hm
  end.

Lemma min_bound_le T upper : min_bound T upper <= T.
Proof. destruct upper; simpl; [apply Q.le_min_l | lra]. Qed.

Lemma min_bound_below T upper : below T upper -> min_bound T upper == T.
Proof.
  destruct upper; simpl; intros H; [|reflexivity].
  case_minmax; lra.
Qed.

Lemma min_bound_mono T1 T2 upper :
  T1 <= T2 -> min_bound T1 upper <= min_bound T2 upper.
Proof.
  destruct upper; simpl; intros H; [|exact H].
  case_minmax; lra.
Qed.

(** ** The loop against the reference formula *)

Lemma contribution_zero T lower upper rate :
  T <= lower -> contribution T (lower, upper, rate) == 0.
Proof.
  intros H. unfold contribution.
  pose proof (min_bound_le T upper) as Hm.
  rewrite Q.max_l by lra. lra.
Qed.

Lemma reference_tax_zero T slabs : forall start prev_rate,
  progressive start prev_rate slabs -> T <= start ->
  reference_tax T slabs == 0.
Proof.
  induction slabs as [|[[lower upper] rate] rest IH]; intros start prev Hp HT.
  - destruct Hp.
  - destruct Hp as (Hl & _ & Hu). cbn [reference_tax fold_right].
    rewrite contribution_zero by lra.
    destruct upper as [u|].
    + destruct Hu as [Hlu Hrest].
      fold (reference_tax T rest). rewrite (IH u rate) by (trivial; lra). lra.
    + subst rest. simpl. lra.
Qed.

Lemma slab_loop_reference T slabs : forall start prev_rate acc bd,
  progressive start prev_rate slabs ->
  fst (slab_loop T slabs acc bd) == acc + reference_tax T slabs.
Proof.
  induction slabs as [|[[lower upper] rate] rest IH];
    intros start prev acc bd Hp.
  - destruct Hp.
  - pose proof Hp as Hp'. destruct Hp as (Hl & _ & Hu).
    cbn [slab_loop].
    destruct (leb T lower) eqn:E; [apply leb_le in E | apply leb_gt in E].
    + rewrite (reference_tax_zero _ _ _ _ Hp') by lra. simpl. lra.
    + cbn [reference_tax fold_right]. fold (reference_tax T rest).
      assert (Hc : contribution T (lower, upper, rate)
                   == (min_bound T upper - lower) * rate).
      { unfold contribution. rewrite Q.max_r; [reflexivity|].
        destruct upper as [u|]; simpl; [|lra].
        destruct Hu as [Hlu _]. case_minmax; lra. }
      destruct upper as [u|].
      * destruct Hu as [Hlu Hrest].
        rewrite (IH u rate) by exact Hrest. rewrite Hc. lra.
      * subst rest. cbn [slab_loop reference_tax fold_right fst].
        rewrite Hc. lra.
Qed.

(** ** Slab tables that satisfy the invariant *)

Lemma progressive_lower_ge slabs : forall start prev_rate lower upper rate,
  progressive start prev_rate slabs -> In (lower, upper, rate) slabs ->
  start <= lower /\ prev_rate <= rate.
Proof.
  induction slabs as [|[[l0 u0] r0] rest IH];
    intros start prev lower upper rate Hp Hin.
  - destruct Hp.
  - destruct Hp as (Hl & Hr & Hu). destruct Hin as [Heq | Hin].
    + inversion Heq; subst. split; lra.
    + destruct u0 as [u|]; [|subst rest; destruct Hin].
      destruct Hu as [Hlu Hrest].
      destruct (IH _ _ _ _ _ Hrest Hin). split; lra.
Qed.

Lemma progressive_width slabs : forall start prev_rate lower u rate,
  progressive start prev_rate slabs -> In (lower, Fin u, rate) slabs ->
  lower < u.
Proof.
  induction slabs as [|[[l0 u0] r0] rest IH];
    intros start prev lower u rate Hp Hin.
  - destruct Hp.
  - destruct Hp as (Hl & Hr & Hu). destruct Hin as [Heq | Hin].
    + inversion Heq; subst. tauto.
    + destruct u0 as [u'|]; [|subst rest; destruct Hin].
      destruct Hu as [_ Hrest]. exact (IH _ _ _ _ _ Hrest Hin).
Qed.

Lemma progressive_suffix pre : forall start prev_rate s post,
  progressive start prev_rate (pre ++ s :: post) ->
  exists start' prev', progressive start' prev' (s :: post).
Proof.
  induction pre as [|[[l0 u0] r0] pre IH]; intros start prev s post Hp.
  - exists start, prev. exact Hp.
  - destruct Hp as (_ & _ & Hu). destruct u0 as [u|].
    + destruct Hu as [_ Hrest]. exact (IH _ _ _ _ Hrest).
    + destruct pre; discriminate Hu.
Qed.


Lemma contribution_full T lower u rate :
  lower <= u -> u <= T ->
  contribution T (lower, Fin u, rate) == (u - lower) * rate.
Proof.
  intros Hlu HT. unfold contribution, min_bound.
  assert (H : Qmax 0 (Qmin T u - lower) == u - lower)
    by (case_minmax; lra).
  rewrite H. reflexivity.
Qed.

Lemma contribution_inside T lower upper rate :
  lower <= T -> below T upper ->
  contribution T (lower, upper, rate) == (T - lower) * rate.
Proof.
  intros Hl Hu. unfold contribution.
  rewrite (min_bound_below _ _ Hu). rewrite Q.max_r by lra. reflexivity.
Qed.

Lemma contribution_nonneg T lower upper rate :
  0 <= rate -> 0 <= contribution T (lower, upper, rate).
Proof.
  intros Hr. unfold contribution.
  apply Qmult_le_0_compat; [apply Q.le_max_l | exact Hr].
Qed.

(** *** Monotonicity *)

Lemma filled_mono T1 T2 lower upper :
  T1 <= T2 ->
  Qmax 0 (min_bound T1 upper - lower) <= Qmax 0 (min_bound T2 upper - lower).
Proof.
  intros H. pose proof (min_bound_mono _ _ upper H).
  revert H0. generalize (min_bound T1 upper), (min_bound T2 upper).
  intros x y Hxy. case_minmax; lra.
Qed.

Lemma reference_tax_mono slabs : forall start prev_rate T1 T2,
  progressive start prev_rate slabs -> 0 <= prev_rate -> T1 <= T2 ->
  reference_tax T1 slabs <= reference_tax T2 slabs.
Proof.
  induction slabs as [|[[lower upper] rate] rest IH];
    intros start prev T1 T2 Hp Hprev HT.
  - destruct Hp.
  - destruct Hp as (Hl & Hr & Hu).
    cbn [reference_tax fold_right]. fold (reference_tax T1 rest).
    fold (reference_tax T2 rest).
    assert (Hc : contribution T1 (lower, upper, rate)
                 <= contribution T2 (lower, upper, rate)).
    { unfold contribution. apply Qmult_le_compat_r; [|lra].
      apply filled_mono, HT. }
    destruct upper as [u|].
    + destruct Hu as [_ Hrest].
      assert (0 <= rate) by lra.
      pose proof (IH _ _ T1 T2 Hrest H HT). lra.
    + subst rest. unfold reference_tax. cbn [fold_right]. lra.
Qed.

Lemma reference_tax_nonneg slabs : forall start prev_rate T,
  progressive start prev_rate slabs -> 0 <= prev_rate ->
  0 <= reference_tax T slabs.
Proof.
  induction slabs as [|[[lower upper] rate] rest IH];
    intros start prev T Hp Hprev.
  - destruct Hp.
  - destruct Hp as (Hl & Hr & Hu).
    cbn [reference_tax fold_right]. fold (reference_tax T rest).
    assert (Hrate : 0 <= rate) by lra.
    pose proof (contribution_nonneg T lower upper rate Hrate).
    destruct upper as [u|].
    + destruct Hu as [_ Hrest]. pose proof (IH _ _ T Hrest Hrate). lra.
    + subst rest. unfold reference_tax. cbn [fold_right]. lra.
Qed.

(** *** A bound on the growth: no more than the top rate per unit *)


(** *** Convexity: equal steps cost no less higher up *)



(** *** Inside a slab the tax grows at the rate of that slab *)

Lemma reference_tax_slope slabs : forall start prev_rate lower upper rate T T',
  progressive start prev_rate slabs -> In (lower, upper, rate) slabs ->
  lower <= T -> T <= T' -> below T' upper ->
  reference_tax T' slabs - reference_tax T slabs == rate * (T' - T).
Proof.
  induction slabs as [|[[l0 u0] r0] rest IH];
    intros start prev lower upper rate T T' Hp Hin HlT HTT Hbelow.
  - destruct Hp.
  - pose proof Hp as Hp'. destruct Hp as (Hl & Hr & Hu).
    cbn [reference_tax fold_right].
    fold (reference_tax T rest) (reference_tax T' rest).
    destruct Hin as [Heq | Hin].
    + inversion Heq; subst l0 u0 r0. clear Heq.
      assert (HbT : below T upper)
        by (destruct upper; simpl in *; [lra | exact I]).
      rewrite !contribution_inside by (trivial; lra).
      destruct upper as [u|].
      * destruct Hu as [Hlu Hrest]. simpl in Hbelow, HbT.
        rewrite (reference_tax_zero T' _ _ _ Hrest) by lra.
        rewrite (reference_tax_zero T _ _ _ Hrest) by lra. lra.
      * subst rest. unfold reference_tax. cbn [fold_right]. lra.
    + destruct u0 as [u|]; [|subst rest; destruct Hin].
      destruct Hu as [Hlu Hrest].
      destruct (progressive_lower_ge _ _ _ _ _ _ Hrest Hin) as [Hge _].
      rewrite !contribution_full by lra.
      rewrite <- (IH _ _ _ _ _ T T' Hrest Hin HlT HTT Hbelow). lra.
Qed.

(** *** At the upper bound of a slab *)

Lemma reference_tax_at_upper pre : forall start prev_rate lower u rate post,
  progressive start prev_rate (pre ++ (lower, Fin u, rate) :: post) ->
  reference_tax u (pre ++ (lower, Fin u, rate) :: post)
  == full_tax (pre ++ [(lower, Fin u, rate)]).
Proof.
  induction pre as [|[[l0 u0] r0] pre IH];
    intros start prev lower u rate post Hp.
  - destruct Hp as (Hl & Hr & Hlu & Hrest).
    cbn [app reference_tax full_tax fold_right full_contribution].
    fold (reference_tax u post).
    rewrite contribution_full by lra.
    rewrite (reference_tax_zero u _ _ _ Hrest) by lra. lra.
  - pose proof Hp as Hp'. destruct Hp as (Hl & Hr & Hu).
    destruct u0 as [u'|]; [|destruct pre; discriminate Hu].
    destruct Hu as [Hlu Hrest].
    assert (Hin : In (lower, Fin u, rate) (pre ++ (lower, Fin u, rate) :: post))
      by (apply in_or_app; right; left; reflexivity).
    destruct (progressive_lower_ge _ _ _ _ _ _ Hrest Hin) as [Hge _].
    pose proof (progressive_width _ _ _ _ _ _ Hrest Hin) as Hw.
    rewrite <- !app_comm_cons.
    cbn [reference_tax full_tax fold_right full_contribution].
    fold (reference_tax u (pre ++ (lower, Fin u, rate) :: post)).
    fold (full_tax (pre ++ [(lower, Fin u, rate)])).
    rewrite contribution_full by lra.
    rewrite (IH _ _ _ _ _ _ Hrest). lra.
Qed.

Lemma contribution_after_upper pre : forall start prev_rate lower u rate post,
  progressive start prev_rate (pre ++ (lower, Fin u, rate) :: post) ->
  Forall (fun s => contribution u s == 0) post.
Proof.
  intros start prev lower u rate post Hp.
  apply progressive_suffix in Hp as (start' & prev' & Hp).
  destruct Hp as (_ & _ & _ & Hrest).
  apply List.Forall_forall. intros [[l1 u1] r1] Hin.
  destruct (progressive_lower_ge _ _ _ _ _ _ Hrest Hin) as [Hge _].
  apply contribution_zero, Hge.
Qed.

(** ** The two fiscal years *)

Lemma get_tax_slabs_keys fy_ay cfg :
  get_tax_slabs fy_ay = Some cfg ->
  fy_ay = "FY 2024-25 / AY 2025-26"%string
  \/ fy_ay = "FY 2025-26 / AY 2026-27"%string.
Proof.
  unfold get_tax_slabs.
  destruct (String.eqb_spec fy_ay "FY 2024-25 / AY 2025-26"); [tauto|].
  destruct (String.eqb_spec fy_ay "FY 2025-26 / AY 2026-27"); [tauto|].
  discriminate.
Qed.

Lemma get_tax_slabs_unknown fy_ay :
  fy_ay <> "FY 2024-25 / AY 2025-26"%string ->
  fy_ay <> "FY 2025-26 / AY 2026-27"%string ->
  get_tax_slabs fy_ay = None.
Proof.
  intros H1 H2. unfold get_tax_slabs.
  destruct (String.eqb_spec fy_ay "FY 2024-25 / AY 2025-26"); [contradiction|].
  destruct (String.eqb_spec fy_ay "FY 2025-26 / AY 2026-27"); [contradiction|].
  reflexivity.
Qed.

(** Splits a statement about a supported year into the two tables. *)
Ltac by_year H :=
  let K := fresh "K" in
  pose proof (get_tax_slabs_keys _ _ H) as K;
  destruct K as [K | K]; subst;
  vm_compute in H; injection H as H; subst.

Lemma slabs_progressive fy_ay cfg :
  get_tax_slabs fy_ay = Some cfg -> progressive 0 0 (slabs cfg).
Proof.
  intros H. by_year H; cbn; repeat split; reflexivity || discriminate.
Qed.


Lemma rebate_max_nonneg fy_ay cfg :
  get_tax_slabs fy_ay = Some cfg -> 0 <= rebate_max cfg.
Proof. intros H. by_year H; cbn; discriminate. Qed.

(** ** What the calls return in a supported year *)

Lemma calculate_income_tax_supported T fy_ay cfg :
  get_tax_slabs fy_ay = Some cfg ->
  calculate_income_tax T fy_ay = Return (slab_loop T (slabs cfg) 0 []).
Proof. intros H. unfold calculate_income_tax. rewrite H. reflexivity. Qed.

Lemma calculate_rebate_87a_supported G T fy_ay cfg :
  get_tax_slabs fy_ay = Some cfg ->
  calculate_rebate_87a G T fy_ay
  = Return (if leb T (rebate_limit cfg) then Qmin G (rebate_max cfg) else 0).
Proof.
  intros H. unfold calculate_rebate_87a. rewrite H. cbn.
  destruct (leb T (rebate_limit cfg)); reflexivity.
Qed.

Lemma slab_tax_reference T fy_ay cfg :
  get_tax_slabs fy_ay = Some cfg ->
  (slab_loop T (slabs cfg) 0 []).1 == reference_tax T (slabs cfg).
Proof.
  intros H. rewrite (slab_loop_reference T _ 0 0 0 [] (slabs_progressive _ _ H)).
  lra.
Qed.

Lemma compute_total_tax_liability_supported details fy_ay cfg employment_type :
  get_tax_slabs fy_ay = Some cfg ->
  exists r, compute_total_tax_liability details fy_ay employment_type = Return r
  /\ TaxResult.taxable_income r
     = derived_income details (standard_deduction cfg) employment_type
  /\ (TaxResult.gross_tax r, TaxResult.tax_breakdown r)
     = slab_loop (TaxResult.taxable_income r) (slabs cfg) 0 []
  /\ TaxResult.rebate_87a r
     = (if leb (TaxResult.taxable_income r) (rebate_limit cfg)
        then Qmin (TaxResult.gross_tax r) (rebate_max cfg) else 0)
  /\ TaxResult.tax_after_rebate r
     = TaxResult.gross_tax r - TaxResult.rebate_87a r
  /\ (TaxResult.surcharge r, TaxResult.cess r)
     = calculate_cess_and_surcharge (TaxResult.tax_after_rebate r)
                                    (TaxResult.taxable_income r)
  /\ (TaxResult.stcg_tax r, TaxResult.ltcg_tax r)
     = calculate_capital_gains_tax (get details "stcg" 0) (get details "ltcg" 0)
  /\ TaxResult.total_tax r
     = TaxResult.tax_after_rebate r + TaxResult.surcharge r + TaxResult.cess r
       + TaxResult.stcg_tax r + TaxResult.ltcg_tax r
  /\ TaxResult.advance_tax_required r
     = gtb (TaxResult.total_tax r) (advance_tax_threshold cfg).
Proof.
  intros H.
  unfold compute_total_tax_liability, calculate_income_tax,
    calculate_rebate_87a, derived_income.
  rewrite H. cbn [getitem mbind py_bind].
  set (T := if String.eqb employment_type "Salaried" then _ else _).
  assert (HT : exists t, T = Return t /\
     t = derived_income details (standard_deduction cfg) employment_type).
  { subst T. unfold derived_income.
    destruct (String.eqb employment_type "Salaried"); [eauto|].
    destruct (String.eqb employment_type "Rental"); [eauto|].
    destruct (existsb _ _); [eauto|].
    destruct (String.eqb employment_type "Investor"); eauto. }
  destruct HT as (t & -> & Ht). fold (derived_income details (standard_deduction cfg) employment_type).
  rewrite <- Ht. cbn [mbind py_bind mret py_ret].
  destruct (slab_loop t (slabs cfg) 0 []) as [gross bd] eqn:Hloop.
  destruct (leb t (rebate_limit cfg)) eqn:Hleb; cbn [mbind py_bind];
    (eexists; split; [reflexivity|]; cbn;
     rewrite ?Hleb; repeat split; auto).
Qed.

(** * The claims *)

(** ** C1: a fiscal year that is not in the table *)

(** C1, as the code has it.  For every key other than the two supported
    ones the lookup [get_tax_slabs] returns [None]; the first subscript of
    that [None] raises [TypeError], so [calculate_income_tax],
    [calculate_rebate_87a] and [compute_total_tax_liability] raise
    [TypeError] for every profile and employment type: no result is
    returned and no other year's rules are applied. *)
Theorem unsupported_year_raises_TypeError fy_ay :
  fy_ay <> "FY 2024-25 / AY 2025-26"%string ->
  fy_ay <> "FY 2025-26 / AY 2026-27"%string ->
  get_tax_slabs fy_ay = None
  /\ (forall T, calculate_income_tax T fy_ay = Raise "TypeError")
  /\ (forall G T, calculate_rebate_87a G T fy_ay = Raise "TypeError")
  /\ (forall details employment_type,
        compute_total_tax_liability details fy_ay employment_type
        = Raise "TypeError")
  /\ (forall details employment_type r,
        compute_total_tax_liability details fy_ay employment_type
        <> Return r).
Proof.
  intros H1 H2. pose proof (get_tax_slabs_unknown _ H1 H2) as Hnone.
  assert (Hall : forall details employment_type,
            compute_total_tax_liability details fy_ay employment_type
            = Raise "TypeError").
  { intros details employment_type.
    unfold compute_total_tax_liability, calculate_income_tax.
    rewrite Hnone.
    destruct (String.eqb employment_type "Salaried"); [reflexivity|].
    destruct (String.eqb employment_type "Rental"); [reflexivity|].
    destruct (existsb _ _); [reflexivity|].
    destruct (String.eqb employment_type "Investor"); reflexivity. }
  split; [exact Hnone|].
  split; [intros T; unfold calculate_income_tax; rewrite Hnone; reflexivity|].
  split; [intros G T; unfold calculate_rebate_87a; rewrite Hnone; reflexivity|].
  split; [exact Hall|].
  intros details employment_type r. rewrite Hall. discriminate.
Qed.

Lemma unsupported_year_raises_TypeError_witness :
  get_tax_slabs "FY 1999-00" = None
  /\ compute_total_tax_liability ∅ "FY 1999-00" "Investor" = Raise "TypeError".
Proof.
  destruct (unsupported_year_raises_TypeError "FY 1999-00")
    as (Hnone & _ & _ & Hall & _); [discriminate | discriminate |].
  split; [exact Hnone | apply Hall].
Defined.

(** C1 as stated fails: for the key ["FY 1999-00"] the lookup does not fail,
    it returns [None], and the exception that reaches the caller is
    [TypeError], not [UnsupportedFiscalYear]. *)
Lemma unsupported_year_is_not_UnsupportedFiscalYear :
  get_tax_slabs "FY 1999-00" = None
  /\ compute_total_tax_liability {[ "basic_salary"%string := 600000 ]}
       "FY 1999-00" "Salaried" = Raise "TypeError"
  /\ compute_total_tax_liability {[ "basic_salary"%string := 600000 ]}
       "FY 1999-00" "Salaried" <> Raise "UnsupportedFiscalYear".
Proof. repeat split. discriminate. Qed.

(** ** C3: the rebate and its cliff *)



(** ** C6: taxable income by employment type *)

Lemma get_absent (details : gmap string Q) key :
  details !! key = None -> get details key 0 = 0.
Proof. intros H. unfold get. rewrite H. reflexivity. Qed.

Lemma get_nonneg (details : gmap string Q) key :
  nonneg_fields details -> 0 <= get details key 0.
Proof.
  intros H. unfold get. destruct (details !! key) as [v|] eqn:E; simpl.
  - exact (H _ _ E).
  - lra.
Qed.

(** C6.  In a supported year, for a profile whose fields are non-negative
    (an absent field reads as 0), the taxable income of the result is:
    salaried, basic salary + HRA + bonus less the standard deduction,
    floored at 0; rental, rent less municipal tax less interest, floored at
    0; freelancer or business, the net profit; investor, dividends plus
    interest income; mixed, 0.  It is never negative. *)
Theorem taxable_income_by_employment_type details fy_ay cfg employment_type :
  get_tax_slabs fy_ay = Some cfg ->
  nonneg_fields details ->
  exists r,
    compute_total_tax_liability details fy_ay employment_type = Return r
    /\ (employment_type = "Salaried"%string ->
        TaxResult.taxable_income r
        = Qmax 0 (get details "basic_salary" 0 + get details "hra" 0
                  + get details "bonus" 0 - standard_deduction cfg))
    /\ (employment_type = "Rental"%string ->
        TaxResult.taxable_income r
        = Qmax 0 (get details "rent_received" 0
                  - get details "municipal_tax" 0
                  - get details "interest_paid" 0))
    /\ (employment_type = "Freelancer"%string
        \/ employment_type = "Business"%string ->
        TaxResult.taxable_income r = get details "net_profit" 0)
    /\ (employment_type = "Investor"%string ->
        TaxResult.taxable_income r
        = get details "dividends" 0 + get details "interest_income" 0)
    /\ (employment_type = "Mixed"%string -> TaxResult.taxable_income r = 0)
    /\ 0 <= TaxResult.taxable_income r
    /\ (forall key, details !! key = None -> get details key 0 = 0).
Proof.
  intros H Hnn.
  destruct (compute_total_tax_liability_supported details _ _
              employment_type H) as (r & Hr & HT & _).
  exists r. split; [exact Hr|]. rewrite HT.
  repeat split.
  - intros ->. reflexivity.
  - intros ->. reflexivity.
  - intros [-> | ->]; reflexivity.
  - intros ->. reflexivity.
  - intros ->. reflexivity.
  - unfold derived_income.
    pose proof (get_nonneg details "net_profit" Hnn).
    pose proof (get_nonneg details "dividends" Hnn).
    pose proof (get_nonneg details "interest_income" Hnn).
    destruct (String.eqb employment_type "Salaried"); [apply Q.le_max_l|].
    destruct (String.eqb employment_type "Rental"); [apply Q.le_max_l|].
    destruct (existsb _ _); [assumption|].
    destruct (String.eqb employment_type "Investor"); lra.
  - apply get_absent.
Qed.

(** A landlord whose outgoings exceed the rent: the difference of -50000 is
    floored. *)
Lemma taxable_income_by_employment_type_witness :
  exists r,
    compute_total_tax_liability
      {[ "rent_received"%string := 100000; "interest_paid"%string := 150000 ]}
      "FY 2025-26 / AY 2026-27" "Rental" = Return r
    /\ TaxResult.taxable_income r == 0.
Proof.
  eassert (Hcfg : get_tax_slabs "FY 2025-26 / AY 2026-27" = Some _)
    by reflexivity.
  destruct (taxable_income_by_employment_type
              {[ "rent_received"%string := 100000;
                 "interest_paid"%string := 150000 ]}
              "FY 2025-26 / AY 2026-27" _ "Rental" Hcfg)
    as (r & Hr & _ & Hrental & _).
  - intros key v Hv.
    destruct (decide (key = "rent_received"%string)) as [-> | Hne1].
    + rewrite lookup_insert_eq in Hv. injection Hv as <-. discriminate.
    + rewrite lookup_insert_ne in Hv by congruence.
      destruct (decide (key = "interest_paid"%string)) as [-> | Hne2].
      * rewrite lookup_singleton_eq in Hv. injection Hv as <-. discriminate.
      * rewrite lookup_singleton_ne in Hv by congruence. discriminate.
  - exists r. split; [exact Hr|]. rewrite (Hrental eq_refl). reflexivity.
Defined.

(** ** The exact slab tax is continuous *)

Lemma progressive_adjacent_rates pre : forall start prev_rate s1 s2 post,
  progressive start prev_rate (pre ++ s1 :: s2 :: post) -> s1.2 <= s2.2.
Proof.
  intros start prev [[l1 u1] r1] [[l2 u2] r2] post Hp.
  apply progressive_suffix in Hp as (start' & prev' & Hp).
  destruct Hp as (_ & _ & Hu). destruct u1 as [u|]; [|discriminate Hu].
  destruct Hu as (_ & _ & Hr & _). exact Hr.
Qed.

Lemma Qabs_bounds x : 0 <= Qabs x /\ x <= Qabs x /\ - x <= Qabs x.
Proof.
  split; [apply Qabs_nonneg|]. split; [apply Qle_Qabs|].
  rewrite <- Qabs_opp. apply Qle_Qabs.
Qed.


(** ** C9: scenario A *)

(** C9.  Salaried, 2025-26, basic salary 600000 and every other field 0:
    taxable income 525000, gross tax 6250, rebate 6250, tax after rebate 0,
    surcharge 0, cess 0, total 0, no advance tax. *)
Theorem scenario_A_owes_nothing :
  exists r,
    compute_total_tax_liability scenario_A "FY 2025-26 / AY 2026-27" "Salaried"
    = Return r
    /\ TaxResult.taxable_income r == 525000
    /\ TaxResult.gross_tax r == 6250
    /\ TaxResult.rebate_87a r == 6250
    /\ TaxResult.tax_after_rebate r == 0
    /\ TaxResult.surcharge r == 0
    /\ TaxResult.cess r == 0
    /\ TaxResult.total_tax r == 0
    /\ TaxResult.advance_tax_required r = false.
Proof.
  eexists. split; [vm_compute; reflexivity|].
  repeat split; reflexivity.
Qed.

(** ** C10: the rebate never exceeds the gross tax *)

(** C10.  In a supported year the rebate is at most the gross tax, for every
    non-negative gross tax and in particular for every gross tax that
    [calculate_income_tax] returns, and at every taxable income; so every
    result of [compute_total_tax_liability], whatever the profile (negative
    fields included) and the employment type, has a rebate no larger than
    its gross tax and a non-negative tax after rebate. *)
Theorem rebate_never_exceeds_gross_tax fy_ay cfg :
  get_tax_slabs fy_ay = Some cfg ->
  (forall G T, 0 <= G ->
     exists rebate,
       calculate_rebate_87a G T fy_ay = Return rebate
       /\ 0 <= rebate /\ rebate <= G)
  /\ (forall T0 T, exists G bd rebate,
        calculate_income_tax T0 fy_ay = Return (G, bd)
        /\ calculate_rebate_87a G T fy_ay = Return rebate
        /\ rebate <= G)
  /\ (forall details employment_type,
        exists r,
          compute_total_tax_liability details fy_ay employment_type = Return r
          /\ TaxResult.rebate_87a r <= TaxResult.gross_tax r
          /\ 0 <= TaxResult.tax_after_rebate r).
Proof.
  intros H.
  pose proof (slabs_progressive _ _ H) as Hp.
  pose proof (rebate_max_nonneg _ _ H) as Hcap.
  assert (Hreb : forall G T, 0 <= G ->
            0 <= (if leb T (rebate_limit cfg)
                  then Qmin G (rebate_max cfg) else 0)
            /\ (if leb T (rebate_limit cfg)
                then Qmin G (rebate_max cfg) else 0) <= G).
  { intros G T HG. destruct (leb T (rebate_limit cfg)); [|lra].
    case_minmax; lra. }
  assert (Hgross : forall T, 0 <= (slab_loop T (slabs cfg) 0 []).1).
  { intros T. rewrite (slab_tax_reference _ _ _ H).
    apply (reference_tax_nonneg _ 0 0 T Hp). lra. }
  split; [|split].
  - intros G T HG. rewrite (calculate_rebate_87a_supported _ _ _ _ H).
    eexists. split; [reflexivity|]. apply Hreb, HG.
  - intros T0 T. rewrite (calculate_income_tax_supported _ _ _ H).
    destruct (slab_loop T0 (slabs cfg) 0 []) as [G bd] eqn:E.
    exists G, bd. rewrite (calculate_rebate_87a_supported _ _ _ _ H).
    eexists. split; [reflexivity|]. split; [reflexivity|].
    apply Hreb. change G with (G, bd).1. rewrite <- E. apply Hgross.
  - intros details employment_type.
    destruct (compute_total_tax_liability_supported details _ _
                employment_type H)
      as (r & Hr & _ & Hloop & Hrebate & Htar & _).
    exists r. split; [exact Hr|].
    assert (HG : 0 <= TaxResult.gross_tax r).
    { change (TaxResult.gross_tax r)
        with (TaxResult.gross_tax r, TaxResult.tax_breakdown r).1.
      rewrite Hloop. apply Hgross. }
    destruct (Hreb (TaxResult.gross_tax r) (TaxResult.taxable_income r) HG)
      as [_ Hle].
    rewrite <- Hrebate in Hle. split; [exact Hle|]. rewrite Htar. lra.
Qed.

(** In 2024-25 a gross tax of 30000 at 6 lakh gets the whole cap of 25000
    back and no more. *)
Lemma rebate_never_exceeds_gross_tax_witness :
  exists rebate,
    calculate_rebate_87a 30000 600000 "FY 2024-25 / AY 2025-26" = Return rebate
    /\ 0 <= rebate /\ rebate <= 30000.
Proof.
  eassert (Hcfg : get_tax_slabs "FY 2024-25 / AY 2025-26" = Some _)
    by reflexivity.
  apply (proj1 (rebate_never_exceeds_gross_tax _ _ Hcfg) 30000 600000).
  discriminate.
Defined.

(** * Further properties of the engine *)

(** ** The breakdown of the slab tax *)

Lemma total_app l1 l2 : total (l1 ++ l2) == total l1 + total l2.
Proof.
  induction l1 as [|x l1 IH]; cbn [app total fold_right].
  - fold (total l2). lra.
  - fold (total (l1 ++ l2)) (total l1). rewrite IH. lra.
Qed.

Lemma total_positive l :
  Forall (fun x => 0 < x) l -> l <> [] -> 0 < total l.
Proof.
  intros Hall Hne. destruct l as [|x l]; [congruence|].
  apply Forall_cons_1 in Hall as [Hx Hl]. clear Hne.
  cbn [total fold_right]. fold (total l).
  assert (H0 : 0 <= total l).
  { induction l as [|y l IH]; [cbn; lra|].
    apply Forall_cons_1 in Hl as [Hy Hl].
    cbn [total fold_right]. fold (total l). specialize (IH Hl). lra. }
  lra.
Qed.

(** The entries do not depend on the tax accumulated so far and are added
    behind those already there. *)
Lemma slab_loop_breakdown_app T slabs : forall acc acc' bd,
  (slab_loop T slabs acc bd).2 = bd ++ (slab_loop T slabs acc' []).2.
Proof.
  induction slabs as [|[[lower upper] rate] rest IH]; intros acc acc' bd.
  - cbn. rewrite app_nil_r. reflexivity.
  - cbn [slab_loop]. destruct (leb T lower).
    + cbn. rewrite app_nil_r. reflexivity.
    + destruct (gtb ((min_bound T upper - lower) * rate) 0).
      * rewrite (IH _ 0 (bd ++ _)), (IH (acc' + _) 0 ([] ++ _)).
        rewrite <- app_assoc. reflexivity.
      * rewrite (IH _ 0 bd), (IH (acc' + _) 0 []). reflexivity.
Qed.



(** With positive rates throughout, the amounts of the entries cover the
    income above the start of the table. *)
Lemma slab_loop_amounts T slabs : forall start prev_rate acc,
  progressive start prev_rate slabs -> 0 < prev_rate ->
  total (map taxable_amount (slab_loop T slabs acc []).2)
  == Qmax 0 (T - start).
Proof.
  induction slabs as [|[[lower upper] rate] rest IH];
    intros start prev acc Hp Hprev.
  - destruct Hp.
  - destruct Hp as (Hl & Hr & Hu). cbn [slab_loop].
    destruct (leb T lower) eqn:E.
    + apply leb_le in E. cbn. rewrite Q.max_l by lra. reflexivity.
    + apply leb_gt in E.
      assert (Hamount : 0 < min_bound T upper - lower).
      { destruct upper as [u|]; cbn [min_bound]; [|lra].
        destruct Hu as [Hlu _]. case_minmax; lra. }
      assert (G : gtb ((min_bound T upper - lower) * rate) 0 = true).
      { apply gtb_lt. apply Qmult_lt_0_compat; lra. }
      rewrite G. rewrite (slab_loop_breakdown_app T rest (acc + _) 0 (_ ++ _)).
      rewrite map_app, total_app. cbn [app map total fold_right taxable_amount].
      fold (total (map taxable_amount (slab_loop T rest 0 []).2)).
      destruct upper as [u|].
      * destruct Hu as [Hlu Hrest].
        rewrite (IH u rate 0 Hrest ltac:(lra)). cbn [min_bound].
        case_minmax; lra.
      * subst rest. cbn. rewrite Q.max_r by lra. lra.
Qed.


(** Both tables begin with a slab taxed at 0 and go on at 5% or more. *)
Lemma slabs_exempt fy_ay cfg :
  get_tax_slabs fy_ay = Some cfg ->
  exists exempt rest,
    slabs cfg = (0, Fin exempt, 0) :: rest
    /\ 0 < exempt /\ progressive exempt 0.05 rest.
Proof.
  intros H. by_year H; eexists; eexists; (split; [reflexivity|]);
    cbn; repeat split; reflexivity || discriminate.
Qed.

Lemma slab_loop_exempt T exempt rest :
  slab_loop T ((0, Fin exempt, 0) :: rest) 0 []
  = if leb T 0 then (0, [])
    else slab_loop T rest (0 + (Qmin T exempt - 0) * 0) [].
Proof.
  cbn [slab_loop min_bound]. destruct (leb T 0); [reflexivity|].
  assert (G : gtb ((Qmin T exempt - 0) * 0) 0 = false)
    by (apply gtb_le; lra).
  rewrite G. reflexivity.
Qed.

(** The amounts of the entries in a supported year. *)
Lemma breakdown_amounts_total T fy_ay cfg exempt rest :
  get_tax_slabs fy_ay = Some cfg ->
  slabs cfg = (0, Fin exempt, 0) :: rest ->
  total (map taxable_amount (slab_loop T (slabs cfg) 0 []).2)
  == Qmax 0 (T - exempt).
Proof.
  intros H Hs.
  destruct (slabs_exempt _ _ H) as (exempt' & rest' & Hs' & Hpos & Hp).
  rewrite Hs in Hs'. injection Hs' as -> ->.
  rewrite Hs, slab_loop_exempt.
  destruct (leb T 0) eqn:E.
  - apply leb_le in E. cbn. rewrite Q.max_l by lra. reflexivity.
  - rewrite (slab_loop_amounts T _ _ _ _ Hp) by lra. reflexivity.
Qed.






(** X3.  In a supported year the amounts of the breakdown entries add up to
    the part of the taxable income above the first slab, the one taxed at 0:
    every rupee above it is listed in exactly one entry. *)
Theorem breakdown_amounts_cover_income fy_ay cfg exempt rest :
  get_tax_slabs fy_ay = Some cfg ->
  slabs cfg = (0, Fin exempt, 0) :: rest ->
  forall T, exists gross bd,
    calculate_income_tax T fy_ay = Return (gross, bd)
    /\ total (map taxable_amount bd) == Qmax 0 (T - exempt).
Proof.
  intros H Hs T. rewrite (calculate_income_tax_supported T _ _ H).
  pose proof (breakdown_amounts_total T _ _ _ _ H Hs) as Hamt.
  destruct (slab_loop T (slabs cfg) 0 []) as [gross bd].
  exists gross, bd. split; [reflexivity | exact Hamt].
Qed.

Lemma breakdown_amounts_cover_income_witness :
  exists gross bd,
    calculate_income_tax 2000000 "FY 2025-26 / AY 2026-27" = Return (gross, bd)
    /\ total (map taxable_amount bd) == Qmax 0 (2000000 - 400000).
Proof.
  eassert (Hcfg : get_tax_slabs "FY 2025-26 / AY 2026-27" = Some _)
    by reflexivity.
  exact (breakdown_amounts_cover_income _ _ 400000 _ Hcfg eq_refl 2000000).
Defined.



(** ** The whole computation *)

Lemma result_gross_reference details fy_ay cfg employment_type r :
  get_tax_slabs fy_ay = Some cfg ->
  compute_total_tax_liability details fy_ay employment_type = Return r ->
  TaxResult.gross_tax r
  == reference_tax (TaxResult.taxable_income r) (slabs cfg)
  /\ TaxResult.rebate_87a r
     = (if leb (TaxResult.taxable_income r) (rebate_limit cfg)
        then Qmin (TaxResult.gross_tax r) (rebate_max cfg) else 0)
  /\ TaxResult.tax_after_rebate r
     = TaxResult.gross_tax r - TaxResult.rebate_87a r
  /\ (TaxResult.surcharge r, TaxResult.cess r)
     = calculate_cess_and_surcharge (TaxResult.tax_after_rebate r)
                                    (TaxResult.taxable_income r)
  /\ (TaxResult.stcg_tax r, TaxResult.ltcg_tax r)
     = calculate_capital_gains_tax (get details "stcg" 0) (get details "ltcg" 0)
  /\ TaxResult.total_tax r
     = TaxResult.tax_after_rebate r + TaxResult.surcharge r + TaxResult.cess r
       + TaxResult.stcg_tax r + TaxResult.ltcg_tax r.
Proof.
  intros H Hr.
  destruct (compute_total_tax_liability_supported details _ _
              employment_type H)
    as (r' & Hr' & _ & Hloop & Hreb & Htar & Hsc & Hcg & Htot & _).
  rewrite Hr in Hr'. injection Hr' as <-.
  split; [|tauto].
  change (TaxResult.gross_tax r)
    with (TaxResult.gross_tax r, TaxResult.tax_breakdown r).1.
  rewrite Hloop. apply (slab_tax_reference _ _ _ H).
Qed.

(** X5.  In a supported year, of two results the one with the larger taxable
    income has at least as much gross tax, tax after rebate, surcharge and
    cess.  (The rebate itself is not monotone: it drops to 0 above the
    ceiling.) *)
Theorem liability_monotone_in_taxable_income fy_ay cfg :
  get_tax_slabs fy_ay = Some cfg ->
  forall details1 details2 employment_type1 employment_type2,
  exists r1 r2,
    compute_total_tax_liability details1 fy_ay employment_type1 = Return r1
    /\ compute_total_tax_liability details2 fy_ay employment_type2 = Return r2
    /\ (TaxResult.taxable_income r1 <= TaxResult.taxable_income r2 ->
        TaxResult.gross_tax r1 <= TaxResult.gross_tax r2
        /\ TaxResult.tax_after_rebate r1 <= TaxResult.tax_after_rebate r2
        /\ TaxResult.surcharge r1 <= TaxResult.surcharge r2
        /\ TaxResult.cess r1 <= TaxResult.cess r2).
Proof.
  intros H details1 details2 employment_type1 employment_type2.
  pose proof (slabs_progressive _ _ H) as Hp.
  pose proof (rebate_max_nonneg _ _ H) as Hcap.
  destruct (compute_total_tax_liability_supported details1 _ _
              employment_type1 H) as (r1 & Hr1 & _).
  destruct (compute_total_tax_liability_supported details2 _ _
              employment_type2 H) as (r2 & Hr2 & _).
  exists r1, r2. split; [exact Hr1|]. split; [exact Hr2|]. intros HT.
  destruct (result_gross_reference _ _ _ _ _ H Hr1)
    as (HG1 & Hreb1 & Htar1 & Hsc1 & _ & Htot1).
  destruct (result_gross_reference _ _ _ _ _ H Hr2)
    as (HG2 & Hreb2 & Htar2 & Hsc2 & _ & Htot2).
  pose proof (reference_tax_mono _ 0 0 _ _ Hp ltac:(lra) HT) as Hmono.
  pose proof (reference_tax_nonneg _ 0 0 (TaxResult.taxable_income r1) Hp
                ltac:(lra)) as Hnn1.
  rewrite <- HG1, <- HG2 in Hmono. rewrite <- HG1 in Hnn1.
  assert (Htar : 0 <= TaxResult.tax_after_rebate r1
                 /\ TaxResult.tax_after_rebate r1
                    <= TaxResult.tax_after_rebate r2).
  { rewrite Htar1, Htar2, Hreb1, Hreb2.
    destruct (leb (TaxResult.taxable_income r1) (rebate_limit cfg)) eqn:E1;
      destruct (leb (TaxResult.taxable_income r2) (rebate_limit cfg)) eqn:E2;
      try apply leb_le in E1; try apply leb_gt in E1;
      try apply leb_le in E2; try apply leb_gt in E2;
      try (exfalso; lra); case_minmax; lra. }
  destruct Htar as [Htar0 Htar].
  unfold calculate_cess_and_surcharge in Hsc1, Hsc2.
  injection Hsc1 as Hs1 Hc1. injection Hsc2 as Hs2 Hc2.
  assert (Hsur : TaxResult.surcharge r1 <= TaxResult.surcharge r2).
  { rewrite Hs1, Hs2. case_tests; lra. }
  assert (Hcess : TaxResult.cess r1 <= TaxResult.cess r2).
  { rewrite Hc1, Hc2. rewrite <- Hs1, <- Hs2. lra. }
  repeat split; trivial.
Qed.

(** A salaried income just under the rebate ceiling and one just over. *)
Lemma liability_monotone_in_taxable_income_witness :
  exists r1 r2,
    compute_total_tax_liability {[ "basic_salary"%string := 1275000 ]}
      "FY 2025-26 / AY 2026-27" "Salaried" = Return r1
    /\ compute_total_tax_liability {[ "net_profit"%string := 1200001 ]}
         "FY 2025-26 / AY 2026-27" "Business" = Return r2
    /\ TaxResult.tax_after_rebate r1 <= TaxResult.tax_after_rebate r2
    /\ TaxResult.cess r1 <= TaxResult.cess r2.
Proof.
  eassert (Hcfg : get_tax_slabs "FY 2025-26 / AY 2026-27" = Some _)
    by reflexivity.
  destruct (liability_monotone_in_taxable_income _ _ Hcfg
              {[ "basic_salary"%string := 1275000 ]}
              {[ "net_profit"%string := 1200001 ]} "Salaried" "Business")
    as (r1 & r2 & Hr1 & Hr2 & Hmono).
  exists r1, r2. split; [exact Hr1|]. split; [exact Hr2|].
  pose proof Hr1 as Hv1. pose proof Hr2 as Hv2.
  vm_compute in Hv1, Hv2. injection Hv1 as <-. injection Hv2 as <-.
  destruct Hmono as (_ & Htar & _ & Hcess); [discriminate|].
  split; [exact Htar | exact Hcess].
Defined.

(** X6.  Who ends with no slab tax: in 2024-25 the tax after rebate is 0
    exactly for taxable incomes up to 7,00,000, the rebate ceiling; in
    2025-26 it is 0 exactly up to 11,00,000, below the ceiling of
    12,00,000, because the gross tax there exceeds the cap of 60000. *)
Theorem zero_tax_after_rebate_zone :
  (forall T, exists gross bd rebate,
      calculate_income_tax T "FY 2024-25 / AY 2025-26" = Return (gross, bd)
      /\ calculate_rebate_87a gross T "FY 2024-25 / AY 2025-26" = Return rebate
      /\ (gross - rebate == 0 <-> T <= 700000))
  /\ (forall T, exists gross bd rebate,
        calculate_income_tax T "FY 2025-26 / AY 2026-27" = Return (gross, bd)
        /\ calculate_rebate_87a gross T "FY 2025-26 / AY 2026-27"
           = Return rebate
        /\ (gross - rebate == 0 <-> T <= 1100000)).
Proof.
  split; intros T.
  - eassert (H : get_tax_slabs "FY 2024-25 / AY 2025-26" = Some _)
      by reflexivity.
    match type of H with _ = Some ?c => set (cfg := c) in * end.
    pose proof (slabs_progressive _ _ H) as Hp.
    rewrite (calculate_income_tax_supported T _ _ H).
    pose proof (slab_tax_reference T _ _ H) as Href.
    destruct (slab_loop T (slabs cfg) 0 []) as [gross bd]. cbn [fst] in Href.
    exists gross, bd. rewrite (calculate_rebate_87a_supported _ _ _ _ H).
    eexists. split; [reflexivity|]. split; [reflexivity|].
    change (rebate_limit cfg) with 700000.
    change (rebate_max cfg) with 25000.
    pose proof (reference_tax_nonneg _ 0 0 T Hp ltac:(lra)) as Hnn.
    assert (H7 : reference_tax 700000 (slabs cfg) == 20000)
      by (vm_compute; reflexivity).
    destruct (leb T 700000) eqn:E.
    + apply leb_le in E.
      pose proof (reference_tax_mono _ 0 0 T 700000 Hp ltac:(lra) E) as Hm.
      split; [intros _; exact E|]. intros _. case_minmax; lra.
    + apply leb_gt in E.
      pose proof (reference_tax_mono _ 0 0 700000 T Hp ltac:(lra) ltac:(lra))
        as Hm.
      split; intros; lra.
  - eassert (H : get_tax_slabs "FY 2025-26 / AY 2026-27" = Some _)
      by reflexivity.
    match type of H with _ = Some ?c => set (cfg := c) in * end.
    pose proof (slabs_progressive _ _ H) as Hp.
    rewrite (calculate_income_tax_supported T _ _ H).
    pose proof (slab_tax_reference T _ _ H) as Href.
    destruct (slab_loop T (slabs cfg) 0 []) as [gross bd]. cbn [fst] in Href.
    exists gross, bd. rewrite (calculate_rebate_87a_supported _ _ _ _ H).
    eexists. split; [reflexivity|]. split; [reflexivity|].
    change (rebate_limit cfg) with 1200000.
    change (rebate_max cfg) with 60000.
    pose proof (reference_tax_nonneg _ 0 0 T Hp ltac:(lra)) as Hnn.
    assert (H11 : reference_tax 1100000 (slabs cfg) == 60000)
      by (vm_compute; reflexivity).
    assert (H12 : reference_tax 1200000 (slabs cfg) == 75000)
      by (vm_compute; reflexivity).
    destruct (leb T 1200000) eqn:E.
    + apply leb_le in E. destruct (Qlt_le_dec 1100000 T) as [Hgt | Hle].
      * assert (Hs : reference_tax T (slabs cfg)
                     - reference_tax 1100000 (slabs cfg)
                     == 0.15 * (T - 1100000)).
        { apply (reference_tax_slope _ 0 0 1000000 (Fin 1200000) 0.15
                   1100000 T Hp); cbn [below]; try lra.
          right; right; right; left; reflexivity. }
        split; [|intros; lra]. case_minmax; lra.
      * pose proof (reference_tax_mono _ 0 0 T 1100000 Hp ltac:(lra) Hle)
          as Hm.
        split; [intros _; exact Hle|]. intros _. case_minmax; lra.
    + apply leb_gt in E.
      pose proof (reference_tax_mono _ 0 0 1200000 T Hp ltac:(lra) ltac:(lra))
        as Hm.
      split; intros; lra.
Qed.

Lemma zero_tax_after_rebate_zone_witness :
  exists gross bd rebate,
    calculate_income_tax 1100000 "FY 2025-26 / AY 2026-27" = Return (gross, bd)
    /\ calculate_rebate_87a gross 1100000 "FY 2025-26 / AY 2026-27"
       = Return rebate
    /\ gross - rebate == 0.
Proof.
  destruct (proj2 zero_tax_after_rebate_zone 1100000)
    as (gross & bd & rebate & Hg & Hr & Hzero).
  exists gross, bd, rebate. split; [exact Hg|]. split; [exact Hr|].
  apply Hzero. discriminate.
Defined.



(** Two profiles that read alike on the keys the engine reads give the same
    outcome, in every year and for every employment type. *)
Lemma compute_total_tax_liability_agree details1 details2 fy_ay
    employment_type :
  Forall (fun key => get details1 key 0 = get details2 key 0) read_keys ->
  compute_total_tax_liability details1 fy_ay employment_type
  = compute_total_tax_liability details2 fy_ay employment_type.
Proof.
  intros H. unfold read_keys in H.
  repeat match type of H with
         | Forall _ (_ :: _) =>
             let Hk := fresh "Hk" in apply Forall_cons_1 in H as [Hk H]
         end.
  unfold compute_total_tax_liability.
  rewrite Hk, Hk0, Hk1, Hk2, Hk3, Hk4, Hk5, Hk6, Hk7, Hk8, Hk9.
  reflexivity.
Qed.

(** X8.  The outcome of [compute_total_tax_liability] depends on eleven keys
    of the profile only: storing any amount under another key (["pf"],
    ["expenses"], ["tds_paid"], ...) or removing such a key changes neither the
    result nor the exception, in any year and for any employment type. *)
Theorem unread_fields_do_not_matter details key v fy_ay employment_type :
  key ∉ read_keys ->
  compute_total_tax_liability (<[key := v]> details) fy_ay employment_type
  = compute_total_tax_liability details fy_ay employment_type
  /\ compute_total_tax_liability (delete key details) fy_ay employment_type
     = compute_total_tax_liability details fy_ay employment_type.
Proof.
  intros Hkey. split; apply compute_total_tax_liability_agree;
    apply Forall_forall; intros k Hk; unfold get;
    assert (key <> k) by (intros ->; contradiction).
  - rewrite lookup_insert_ne by assumption. reflexivity.
  - rewrite lookup_delete_ne by assumption. reflexivity.
Qed.

Lemma unread_fields_do_not_matter_witness :
  compute_total_tax_liability (<[ "expenses"%string := 900000 ]> scenario_A)
    "FY 2025-26 / AY 2026-27" "Business"
  = compute_total_tax_liability scenario_A "FY 2025-26 / AY 2026-27" "Business".
Proof.
  apply (unread_fields_do_not_matter scenario_A "expenses" 900000).
  unfold read_keys. intros Hin.
  repeat (apply elem_of_cons in Hin as [Hin | Hin]; [discriminate Hin|]).
  apply elem_of_nil in Hin. exact Hin.
Defined.

(** X9.  A key that is absent reads as 0: adding it with the amount 0, or
    removing a key that holds [0], leaves the outcome of
    [compute_total_tax_liability] unchanged, and no key is ever required. *)
Theorem absent_field_is_zero details key fy_ay employment_type :
  (details !! key = None ->
   compute_total_tax_liability (<[key := 0]> details) fy_ay employment_type
   = compute_total_tax_liability details fy_ay employment_type)
  /\ (details !! key = Some 0 ->
      compute_total_tax_liability (delete key details) fy_ay employment_type
      = compute_total_tax_liability details fy_ay employment_type).
Proof.
  split; intros Hkey; apply compute_total_tax_liability_agree;
    apply Forall_forall; intros k _; unfold get;
    destruct (decide (key = k)) as [<- | Hne].
  - rewrite lookup_insert_eq, Hkey. reflexivity.
  - rewrite lookup_insert_ne by assumption. reflexivity.
  - rewrite lookup_delete_eq, Hkey. reflexivity.
  - rewrite lookup_delete_ne by assumption. reflexivity.
Qed.

Lemma absent_field_is_zero_witness :
  compute_total_tax_liability
    (<[ "hra"%string := 0 ]> {[ "basic_salary"%string := 600000 ]})
    "FY 2025-26 / AY 2026-27" "Salaried"
  = compute_total_tax_liability {[ "basic_salary"%string := 600000 ]}
      "FY 2025-26 / AY 2026-27" "Salaried".
Proof.
  apply (proj1 (absent_field_is_zero {[ "basic_salary"%string := 600000 ]}
                  "hra" "FY 2025-26 / AY 2026-27" "Salaried")).
  reflexivity.
Defined.

(** X10.  In a supported year, whatever the profile (negative amounts
    included) and the employment type: gross tax, rebate, surcharge, cess
    and long-term capital-gains tax are never negative; the rebate is at most
    the year's cap; and when the short-term gains are not negative the
    short-term tax is not negative and the total is not below the tax after
    rebate. *)
Theorem result_components_are_bounded fy_ay cfg :
  get_tax_slabs fy_ay = Some cfg ->
  forall details employment_type, exists r,
    compute_total_tax_liability details fy_ay employment_type = Return r
    /\ 0 <= TaxResult.gross_tax r
    /\ 0 <= TaxResult.rebate_87a r
    /\ TaxResult.rebate_87a r <= rebate_max cfg
    /\ 0 <= TaxResult.surcharge r
    /\ 0 <= TaxResult.cess r
    /\ 0 <= TaxResult.ltcg_tax r
    /\ (0 <= get details "stcg" 0 ->
        0 <= TaxResult.stcg_tax r
        /\ TaxResult.tax_after_rebate r <= TaxResult.total_tax r).
Proof.
  intros H details employment_type.
  pose proof (slabs_progressive _ _ H) as Hp.
  pose proof (rebate_max_nonneg _ _ H) as Hcap.
  destruct (compute_total_tax_liability_supported details _ _
              employment_type H) as (r & Hr & _).
  exists r. split; [exact Hr|].
  destruct (result_gross_reference _ _ _ _ _ H Hr)
    as (HG & Hreb & Htar & Hsc & Hcg & Htot).
  pose proof (reference_tax_nonneg _ 0 0 (TaxResult.taxable_income r) Hp
                ltac:(lra)) as Hnn.
  rewrite <- HG in Hnn.
  assert (Hrb : 0 <= TaxResult.rebate_87a r
                /\ TaxResult.rebate_87a r <= rebate_max cfg
                /\ TaxResult.rebate_87a r <= TaxResult.gross_tax r).
  { rewrite Hreb.
    destruct (leb (TaxResult.taxable_income r) (rebate_limit cfg));
      [case_minmax|]; lra. }
  destruct Hrb as (Hrb0 & Hrb1 & Hrb2).
  assert (Htar0 : 0 <= TaxResult.tax_after_rebate r) by (rewrite Htar; lra).
  unfold calculate_cess_and_surcharge in Hsc. injection Hsc as Hs Hc.
  unfold calculate_capital_gains_tax in Hcg. injection Hcg as Hst Hlt.
  assert (Hsur : 0 <= TaxResult.surcharge r
                 /\ TaxResult.surcharge r
                    <= 0.37 * TaxResult.tax_after_rebate r).
  { rewrite Hs. case_tests; lra. }
  assert (Hcess : TaxResult.cess r
                  == 0.04 * (TaxResult.tax_after_rebate r
                             + TaxResult.surcharge r)).
  { rewrite Hc, <- Hs. lra. }
  assert (Hltcg : 0 <= TaxResult.ltcg_tax r).
  { rewrite Hlt. case_minmax; lra. }
  repeat split; try lra.
  - rewrite Hst. lra.
  - rewrite Htot. assert (0 <= TaxResult.stcg_tax r) by (rewrite Hst; lra).
    lra.
Qed.

(** A freelancer who books a loss and negative gains still gets components
    that are not negative. *)
Lemma result_components_are_bounded_witness :
  exists r,
    compute_total_tax_liability
      {[ "net_profit"%string := -500000; "ltcg"%string := -20000 ]}
      "FY 2024-25 / AY 2025-26" "Freelancer" = Return r
    /\ 0 <= TaxResult.gross_tax r
    /\ 0 <= TaxResult.ltcg_tax r
    /\ TaxResult.tax_after_rebate r <= TaxResult.total_tax r.
Proof.
  eassert (Hcfg : get_tax_slabs "FY 2024-25 / AY 2025-26" = Some _)
    by reflexivity.
  destruct (result_components_are_bounded _ _ Hcfg
              {[ "net_profit"%string := -500000; "ltcg"%string := -20000 ]}
              "Freelancer")
    as (r & Hr & HG & _ & _ & _ & _ & Hl & Hs).
  exists r. split; [exact Hr|]. split; [exact HG|]. split; [exact Hl|].
  apply Hs. discriminate.
Defined.

(** * The charts *)

(** ** Series built one positive value at a time *)

Lemma add_component_labels value label lists :
  (add_component value label lists).1
  = lists.1 ++ (if gtb value 0 then [label] else []).
Proof.
  destruct lists as [components vals]. unfold add_component.
  destruct (gtb value 0); cbn; [reflexivity | rewrite app_nil_r; reflexivity].
Qed.

Lemma add_component_values value label lists :
  (add_component value label lists).2
  = lists.2 ++ (if gtb value 0 then [value] else []).
Proof.
  destruct lists as [components vals]. unfold add_component.
  destruct (gtb value 0); cbn; [reflexivity | rewrite app_nil_r; reflexivity].
Qed.

Lemma aligned_nil : aligned ([], []).
Proof. split; [reflexivity | constructor]. Qed.

Lemma add_component_aligned value label lists :
  aligned lists -> aligned (add_component value label lists).
Proof.
  intros [Hlen Hpos]. unfold aligned.
  rewrite add_component_labels, add_component_values.
  destruct (gtb value 0) eqn:E.
  - apply gtb_lt in E. rewrite !length_app, Hlen. split; [reflexivity|].
    apply Forall_app. split; [exact Hpos | repeat constructor; exact E].
  - rewrite !app_nil_r. split; assumption.
Qed.

Lemma add_component_total value label lists :
  total (add_component value label lists).2 == total lists.2 + Qmax 0 value.
Proof.
  rewrite add_component_values, total_app.
  destruct (gtb value 0) eqn:E.
  - apply gtb_lt in E. cbn. rewrite Q.max_r by lra. lra.
  - apply gtb_le in E. cbn. rewrite Q.max_l by lra. lra.
Qed.

(** Label and value are added together, at the end. *)
Lemma add_component_pairs value label lists :
  aligned lists ->
  combine (add_component value label lists).1
          (add_component value label lists).2
  = combine lists.1 lists.2
    ++ (if gtb value 0 then [(label, value)] else []).
Proof.
  intros [Hlen _]. rewrite add_component_labels, add_component_values.
  destruct lists as [components vals]. cbn [fst snd] in *.
  destruct (gtb value 0); [|rewrite !app_nil_r; reflexivity].
  revert vals Hlen. induction components as [|c components IH];
    intros [|v vals] Hlen; try discriminate Hlen; [reflexivity|].
  cbn [app combine]. f_equal. apply IH. injection Hlen as Hlen. exact Hlen.
Qed.

Lemma aligned_empty lists :
  aligned lists -> (lists.1 = [] <-> total lists.2 == 0).
Proof.
  destruct lists as [l v]. intros [Hlen Hpos]. cbn [fst snd] in *. split.
  - intros ->. destruct v; [reflexivity | discriminate Hlen].
  - intros Hzero. destruct l as [|x l]; [reflexivity|].
    destruct v as [|y v]; [discriminate Hlen|].
    pose proof (total_positive _ Hpos ltac:(discriminate)). lra.
Qed.

(** [income_details[key]] is reached only when the key holds a positive
    amount, so it never raises. *)
Lemma add_source_returns details key label lists :
  add_source details key label lists
  = Return (add_component (get details key 0) label lists).
Proof.
  destruct lists as [sources amounts].
  unfold add_source, add_component, subscript, get.
  destruct (details !! key) as [v|]; cbv [default from_option id].
  - destruct (gtb v 0); reflexivity.
  - reflexivity.
Qed.

(** ** The pie chart of the liability *)

Lemma create_tax_breakdown_chart_series tax_result :
  exists lists,
    aligned lists
    /\ total lists.2
       == Qmax 0 (TaxResult.tax_after_rebate tax_result)
          + Qmax 0 (TaxResult.surcharge tax_result)
          + Qmax 0 (TaxResult.cess tax_result)
          + Qmax 0 (TaxResult.stcg_tax tax_result)
          + Qmax 0 (TaxResult.ltcg_tax tax_result)
    /\ lists.1 `sublist_of`
         [ "Income Tax"; "Surcharge"; "Health & Education Cess";
           "STCG Tax"; "LTCG Tax" ]%string
    /\ combine lists.1 lists.2
       = List.filter (fun slice : string * Q => gtb slice.2 0)
           [ ("Income Tax"%string, TaxResult.tax_after_rebate tax_result);
             ("Surcharge"%string, TaxResult.surcharge tax_result);
             ("Health & Education Cess"%string, TaxResult.cess tax_result);
             ("STCG Tax"%string, TaxResult.stcg_tax tax_result);
             ("LTCG Tax"%string, TaxResult.ltcg_tax tax_result) ]
    /\ create_tax_breakdown_chart tax_result
       = match lists.1 with
         | [] => (None, ["No tax liability to display."%string])
         | _ :: _ => (Some {| labels := lists.1; values := lists.2 |}, [])
         end.
Proof.
  unfold create_tax_breakdown_chart.
  set (l1 := add_component (TaxResult.tax_after_rebate tax_result) _ ([], [])).
  set (l2 := add_component (TaxResult.surcharge tax_result) _ l1).
  set (l3 := add_component (TaxResult.cess tax_result) _ l2).
  set (l4 := add_component (TaxResult.stcg_tax tax_result) _ l3).
  set (l5 := add_component (TaxResult.ltcg_tax tax_result) _ l4).
  assert (A1 : aligned l1) by (apply add_component_aligned, aligned_nil).
  assert (A2 : aligned l2) by (apply add_component_aligned, A1).
  assert (A3 : aligned l3) by (apply add_component_aligned, A2).
  assert (A4 : aligned l4) by (apply add_component_aligned, A3).
  exists l5. split; [|split; [|split; [|split]]].
  - apply add_component_aligned, A4.
  - subst l5 l4 l3 l2 l1. rewrite !add_component_total. cbn. lra.
  - subst l5 l4 l3 l2 l1. rewrite !add_component_labels. cbn [fst app].
    repeat match goal with
           | |- context [gtb ?v 0] => destruct (gtb v 0)
           end;
      cbn [app]; repeat (apply sublist_skip || apply sublist_cons);
      apply sublist_nil.
  - unfold l5. rewrite (add_component_pairs _ _ _ A4).
    unfold l4. rewrite (add_component_pairs _ _ _ A3).
    unfold l3. rewrite (add_component_pairs _ _ _ A2).
    unfold l2. rewrite (add_component_pairs _ _ _ A1).
    unfold l1. rewrite (add_component_pairs _ _ _ aligned_nil).
    cbn [List.filter fst snd combine app].
    repeat match goal with
           | |- context [gtb ?v 0] => destruct (gtb v 0)
           end; reflexivity.
  - destruct l5 as [components vals]. reflexivity.
Qed.

(** X11.  The pie chart of a result has one slice for each of tax after
    rebate, surcharge, cess, STCG tax and LTCG tax that is positive, in that
    order, each under its own label and with its own value: label by label
    and value by value the figure is the list of the five labelled
    components with the non-positive ones left out.  With no positive
    component there is no figure and the message "No tax liability to
    display." is shown.  For a result of [compute_total_tax_liability] in a
    supported year with non-negative short-term gains there is no figure
    exactly when the total liability is 0. *)
Theorem tax_breakdown_chart_shows_the_total :
  (forall tax_result,
     match create_tax_breakdown_chart tax_result with
     | (Some fig, log) =>
         log = []
         /\ labels fig <> []
         /\ length (labels fig) = length (values fig)
         /\ Forall (fun v => 0 < v) (values fig)
         /\ combine (labels fig) (values fig)
            = List.filter (fun slice : string * Q => gtb slice.2 0)
                [ ("Income Tax"%string,
                   TaxResult.tax_after_rebate tax_result);
                  ("Surcharge"%string, TaxResult.surcharge tax_result);
                  ("Health & Education Cess"%string,
                   TaxResult.cess tax_result);
                  ("STCG Tax"%string, TaxResult.stcg_tax tax_result);
                  ("LTCG Tax"%string, TaxResult.ltcg_tax tax_result) ]
         /\ labels fig `sublist_of`
              [ "Income Tax"; "Surcharge"; "Health & Education Cess";
                "STCG Tax"; "LTCG Tax" ]%string
         /\ total (values fig)
            == Qmax 0 (TaxResult.tax_after_rebate tax_result)
               + Qmax 0 (TaxResult.surcharge tax_result)
               + Qmax 0 (TaxResult.cess tax_result)
               + Qmax 0 (TaxResult.stcg_tax tax_result)
               + Qmax 0 (TaxResult.ltcg_tax tax_result)
     | (None, log) =>
         log = ["No tax liability to display."%string]
         /\ TaxResult.tax_after_rebate tax_result <= 0
         /\ TaxResult.surcharge tax_result <= 0
         /\ TaxResult.cess tax_result <= 0
         /\ TaxResult.stcg_tax tax_result <= 0
         /\ TaxResult.ltcg_tax tax_result <= 0
     end)
  /\ (forall fy_ay cfg details employment_type,
        get_tax_slabs fy_ay = Some cfg ->
        0 <= get details "stcg" 0 ->
        exists r,
          compute_total_tax_liability details fy_ay employment_type = Return r
          /\ match create_tax_breakdown_chart r with
             | (Some fig, _) => 0 < TaxResult.total_tax r
             | (None, _) => TaxResult.total_tax r == 0
             end).
Proof.
  split.
  - intros tax_result.
    destruct (create_tax_breakdown_chart_series tax_result)
      as ([components vals] & Hal & Htot & Hsub & Hpairs & ->).
    pose proof (aligned_empty _ Hal) as Hempty.
    destruct Hal as [Hlen Hpos]. cbn [fst snd] in *.
    destruct components as [|c components].
    + split; [reflexivity|].
      assert (H0 : total vals == 0) by (apply Hempty; reflexivity).
      rewrite H0 in Htot. revert Htot. case_minmax; lra.
    + cbn [labels values]. repeat split; trivial. discriminate.
  - intros fy_ay cfg details employment_type H Hstcg.
    pose proof (slabs_progressive _ _ H) as Hp.
    pose proof (rebate_max_nonneg _ _ H) as Hcap.
    destruct (compute_total_tax_liability_supported details _ _
                employment_type H) as (r & Hr & _).
    exists r. split; [exact Hr|].
    destruct (result_gross_reference _ _ _ _ _ H Hr)
      as (HG & Hreb & Htar & Hsc & Hcg & Htotal).
    pose proof (reference_tax_nonneg _ 0 0 (TaxResult.taxable_income r) Hp
                  ltac:(lra)) as Hnn.
    rewrite <- HG in Hnn.
    assert (Htar0 : 0 <= TaxResult.tax_after_rebate r).
    { rewrite Htar, Hreb.
      destruct (leb (TaxResult.taxable_income r) (rebate_limit cfg));
        [case_minmax|]; lra. }
    unfold calculate_cess_and_surcharge in Hsc. injection Hsc as Hs Hc.
    unfold calculate_capital_gains_tax in Hcg. injection Hcg as Hst Hlt.
    assert (Hsur : 0 <= TaxResult.surcharge r)
      by (rewrite Hs; case_tests; lra).
    assert (Hcess : 0 <= TaxResult.cess r) by (rewrite Hc, <- Hs; lra).
    assert (Hstcg0 : 0 <= TaxResult.stcg_tax r) by (rewrite Hst; lra).
    assert (Hltcg : 0 <= TaxResult.ltcg_tax r)
      by (rewrite Hlt; case_minmax; lra).
    assert (Hsum : Qmax 0 (TaxResult.tax_after_rebate r)
                   + Qmax 0 (TaxResult.surcharge r)
                   + Qmax 0 (TaxResult.cess r)
                   + Qmax 0 (TaxResult.stcg_tax r)
                   + Qmax 0 (TaxResult.ltcg_tax r)
                   == TaxResult.total_tax r).
    { rewrite Htotal. case_minmax; lra. }
    destruct (create_tax_breakdown_chart_series r)
      as ([components vals] & Hal & Htot & _ & _ & ->).
    pose proof (aligned_empty _ Hal) as Hempty.
    destruct Hal as [Hlen Hpos]. cbn [fst snd] in *.
    destruct components as [|c components].
    + assert (H0 : total vals == 0) by (apply Hempty; reflexivity). lra.
    + destruct vals as [|v vals]; [discriminate Hlen|].
      pose proof (total_positive _ Hpos ltac:(discriminate)). lra.
Qed.

(** Scenario B: a figure with three slices. *)
Lemma tax_breakdown_chart_shows_the_total_witness :
  exists r,
    compute_total_tax_liability
      {[ "dividends"%string := 2000000; "ltcg"%string := 200000 ]}
      "FY 2025-26 / AY 2026-27" "Investor" = Return r
    /\ match create_tax_breakdown_chart r with
       | (Some fig, _) => 0 < TaxResult.total_tax r
       | (None, _) => TaxResult.total_tax r == 0
       end.
Proof.
  eassert (Hcfg : get_tax_slabs "FY 2025-26 / AY 2026-27" = Some _)
    by reflexivity.
  apply (proj2 tax_breakdown_chart_shows_the_total _ _
           {[ "dividends"%string := 2000000; "ltcg"%string := 200000 ]}
           "Investor" Hcfg).
  discriminate.
Defined.

(** ** The slab chart *)






(** ** The income chart *)

Lemma income_series_finish (lists : list string * list Q) :
  (let '(income_sources, amounts) := lists in
   match income_sources with
   | [] => mret (None, ["No income data to display."%string])
   | _ :: _ =>
       mret (Some {| bar_x := income_sources; bar_y := amounts |}, [])
   end : py (ui (option (BarFigure string))))
  = Return match lists.1 with
           | [] => (None, ["No income data to display."%string])
           | _ :: _ => (Some {| bar_x := lists.1; bar_y := lists.2 |}, [])
           end.
Proof. destruct lists as [[|s0 sources] amounts]; reflexivity. Qed.

Lemma create_income_composition_chart_series details employment_type :
  exists lists,
    aligned lists
    /\ total lists.2
       == (if String.eqb employment_type "Salaried" then
             Qmax 0 (get details "basic_salary" 0)
             + Qmax 0 (get details "hra" 0) + Qmax 0 (get details "bonus" 0)
           else if String.eqb employment_type "Rental" then
             Qmax 0 (get details "rent_received" 0)
           else if existsb (String.eqb employment_type)
                     ["Freelancer"; "Business"]%string then
             Qmax 0 (get details "net_profit" 0)
           else if String.eqb employment_type "Investor" then
             Qmax 0 (get details "dividends" 0)
             + Qmax 0 (get details "interest_income" 0)
             + Qmax 0 (get details "stcg" 0) + Qmax 0 (get details "ltcg" 0)
           else 0)
    /\ create_income_composition_chart details employment_type
       = Return match lists.1 with
                | [] => (None, ["No income data to display."%string])
                | _ :: _ =>
                    (Some {| bar_x := lists.1; bar_y := lists.2 |}, [])
                end.
Proof.
  unfold create_income_composition_chart.
  destruct (String.eqb employment_type "Salaried");
    [|destruct (String.eqb employment_type "Rental");
      [|destruct (existsb _ _);
        [|destruct (String.eqb employment_type "Investor")]]];
    rewrite ?add_source_returns; cbn [mbind py_bind mret py_ret];
    rewrite ?add_source_returns; cbn [mbind py_bind mret py_ret];
    rewrite ?add_source_returns; cbn [mbind py_bind mret py_ret];
    rewrite ?add_source_returns; cbn [mbind py_bind mret py_ret];
    first
      [ eexists; split; [|split];
        [ | | rewrite income_series_finish; reflexivity ];
        [ repeat apply add_component_aligned; apply aligned_nil
        | rewrite ?add_component_total; cbn; lra ]
      | exists ([], []); split; [apply aligned_nil|];
        split; [cbn; lra | reflexivity] ].
Qed.


(** X13.  [create_income_composition_chart] never raises, whatever keys the
    profile has and whatever the employment type: a key is subscripted only
    after [get] found a positive amount under it.  It returns either a figure
    with at least one bar, as many labels as amounts and positive amounts
    only, or no figure together with the message "No income data to
    display." *)
Theorem income_chart_never_raises details employment_type :
  exists chart log,
    create_income_composition_chart details employment_type
    = Return (chart, log)
    /\ match chart with
       | Some fig =>
           log = []
           /\ bar_x fig <> []
           /\ length (bar_x fig) = length (bar_y fig)
           /\ Forall (fun v => 0 < v) (bar_y fig)
       | None => log = ["No income data to display."%string]
       end.
Proof.
  destruct (create_income_composition_chart_series details employment_type)
    as ([sources amounts] & [Hlen Hpos] & _ & ->). cbn [fst snd] in *.
  destruct sources as [|s0 sources].
  - exists None, ["No income data to display."%string].
    split; reflexivity.
  - eexists (Some _), []. split; [reflexivity|]. cbn [bar_x bar_y].
    repeat split; trivial. discriminate.
Qed.

(** X14.  In a supported year, for a profile with non-negative fields, the
    bars of the income chart add up to: the gross salary for a salaried
    taxpayer, whose taxable income is that sum less the standard deduction,
    floored at 0; the rent received for a landlord, which is at least the
    taxable income; the taxable income itself for a freelancer or a business;
    the taxable income plus both capital gains for an investor. *)
Theorem income_chart_matches_taxable_income details fy_ay cfg employment_type :
  get_tax_slabs fy_ay = Some cfg ->
  nonneg_fields details ->
  exists chart log r,
    create_income_composition_chart details employment_type
    = Return (chart, log)
    /\ compute_total_tax_liability details fy_ay employment_type = Return r
    /\ (employment_type = "Salaried"%string ->
        shown_total chart
        == get details "basic_salary" 0 + get details "hra" 0
           + get details "bonus" 0
        /\ TaxResult.taxable_income r
           == Qmax 0 (shown_total chart - standard_deduction cfg))
    /\ (employment_type = "Rental"%string ->
        shown_total chart == get details "rent_received" 0
        /\ TaxResult.taxable_income r <= shown_total chart)
    /\ (employment_type = "Freelancer"%string
        \/ employment_type = "Business"%string ->
        shown_total chart == TaxResult.taxable_income r)
    /\ (employment_type = "Investor"%string ->
        shown_total chart
        == TaxResult.taxable_income r + get details "stcg" 0
           + get details "ltcg" 0).
Proof.
  intros H Hnn.
  destruct (compute_total_tax_liability_supported details _ _
              employment_type H) as (r & Hr & HT & _).
  destruct (create_income_composition_chart_series details employment_type)
    as ([sources amounts] & [Hlen _] & Htot & Hchart). cbn [fst snd] in *.
  assert (Hshown : exists chart log,
            create_income_composition_chart details employment_type
            = Return (chart, log)
            /\ shown_total chart == total amounts).
  { rewrite Hchart. destruct sources as [|s0 sources].
    - exists None, ["No income data to display."%string].
      split; [reflexivity|].
      destruct amounts; [reflexivity | discriminate Hlen].
    - eexists (Some _), []. split; reflexivity. }
  destruct Hshown as (chart & log & Hc & Hshown).
  exists chart, log, r. split; [exact Hc|]. split; [exact Hr|].
  rewrite Hshown, Htot, HT. clear Hshown Htot HT Hc Hchart Hr.
  pose proof (get_nonneg details "basic_salary" Hnn).
  pose proof (get_nonneg details "hra" Hnn).
  pose proof (get_nonneg details "bonus" Hnn).
  pose proof (get_nonneg details "rent_received" Hnn).
  pose proof (get_nonneg details "municipal_tax" Hnn).
  pose proof (get_nonneg details "interest_paid" Hnn).
  pose proof (get_nonneg details "net_profit" Hnn).
  pose proof (get_nonneg details "dividends" Hnn).
  pose proof (get_nonneg details "interest_income" Hnn).
  pose proof (get_nonneg details "stcg" Hnn).
  pose proof (get_nonneg details "ltcg" Hnn).
  assert (Hmax : forall key, Qmax 0 (get details key 0) == get details key 0)
    by (intros key; apply Q.max_r, get_nonneg, Hnn).
  unfold derived_income.
  split; [|split; [|split]].
  - intros ->. cbn [String.eqb Ascii.eqb Bool.eqb]. rewrite !Hmax.
    split; reflexivity.
  - intros ->. cbn [String.eqb Ascii.eqb Bool.eqb].
    split; case_minmax; lra.
  - intros [-> | ->]; cbn [String.eqb Ascii.eqb Bool.eqb existsb orb];
      case_minmax; lra.
  - intros ->. cbn [String.eqb Ascii.eqb Bool.eqb existsb orb].
    case_minmax; lra.
Qed.

Lemma income_chart_matches_taxable_income_witness :
  exists chart log r,
    create_income_composition_chart scenario_A "Salaried" = Return (chart, log)
    /\ compute_total_tax_liability scenario_A "FY 2025-26 / AY 2026-27"
         "Salaried" = Return r
    /\ shown_total chart == 600000
    /\ TaxResult.taxable_income r == Qmax 0 (shown_total chart - 75000).
Proof.
  eassert (Hcfg : get_tax_slabs "FY 2025-26 / AY 2026-27" = Some _)
    by reflexivity.
  destruct (income_chart_matches_taxable_income scenario_A _ _ "Salaried" Hcfg)
    as (chart & log & r & Hc & Hr & Hsal & _).
  - intros key v Hv. unfold scenario_A in Hv.
    apply elem_of_list_to_map_2 in Hv.
    repeat (apply elem_of_cons in Hv as [Hv | Hv];
            [injection Hv as _ ->; discriminate|]).
    apply elem_of_nil in Hv. destruct Hv.
  - exists chart, log, r. split; [exact Hc|]. split; [exact Hr|].
    destruct (Hsal eq_refl) as [Hshown HT]. split; [|exact HT].
    rewrite Hshown. reflexivity.
Defined.

(** * Binary64 arithmetic *)

(** ** Powers of two and the binary logarithm *)

Lemma pow2_pos e : 0 < pow2 e.
Proof. apply Qpower_0_lt. reflexivity. Qed.

Lemma pow2_plus a b : pow2 (a + b) == pow2 a * pow2 b.
Proof. apply Qpower_plus. discriminate. Qed.

Lemma pow2_succ a : pow2 (a + 1) == 2 * pow2 a.
Proof. rewrite pow2_plus. change (pow2 1) with 2. ring. Qed.

Lemma pow2_pred a : pow2 (a - 1) == (1 # 2) * pow2 a.
Proof.
  assert (H : pow2 a == pow2 (a - 1 + 1)) by (f_equiv; lia).
  rewrite pow2_succ in H. rewrite H. field.
Qed.

Lemma pow2_le a b : (a <= b)%Z -> pow2 a <= pow2 b.
Proof. intros H. apply Qpower_le_compat_l; [exact H | discriminate]. Qed.

Lemma pow2_lt a b : (a < b)%Z -> pow2 a < pow2 b.
Proof. intros H. apply Qpower_lt_compat_l; [exact H | reflexivity]. Qed.

Lemma pow2_lt_inv a b : pow2 a < pow2 b -> (a < b)%Z.
Proof. intros H. apply (Qpower_lt_compat_l_inv 2); [exact H | reflexivity]. Qed.

Lemma pow2_Z n : (0 <= n)%Z -> pow2 n == inject_Z (2 ^ n).
Proof. intros H. unfold pow2. rewrite Zpower_Qpower by exact H. reflexivity. Qed.

Lemma ilog2_spec x : 0 < x -> pow2 (ilog2 x) <= x /\ x < pow2 (ilog2 x + 1).
Proof.
  intros Hx. destruct x as [p q]. unfold ilog2. cbn [Qnum Qden].
  assert (Hp : (0 < p)%Z).
  { unfold Qlt in Hx. cbn in Hx. lia. }
  set (a := Z.log2 p). set (b := Z.log2 (Zpos q)).
  destruct (Z.log2_spec p Hp) as [Ha1 Ha2]. fold a in Ha1, Ha2.
  destruct (Z.log2_spec (Zpos q) ltac:(lia)) as [Hb1 Hb2]. fold b in Hb1, Hb2.
  assert (Ha0 : (0 <= a)%Z) by apply Z.log2_nonneg.
  assert (Hb0 : (0 <= b)%Z) by apply Z.log2_nonneg.
  set (x := p # q) in *.
  assert (Hxq : x * inject_Z (Zpos q) == inject_Z p).
  { unfold x. rewrite (Qmake_Qdiv p q). field. discriminate. }
  assert (HA1 : pow2 a <= inject_Z p).
  { rewrite pow2_Z by lia. rewrite <- Zle_Qle. exact Ha1. }
  assert (HA2 : inject_Z p < 2 * pow2 a).
  { rewrite <- pow2_succ, pow2_Z by lia. rewrite <- Zlt_Qlt.
    replace (a + 1)%Z with (Z.succ a) by lia. exact Ha2. }
  assert (HB1 : pow2 b <= inject_Z (Zpos q)).
  { rewrite pow2_Z by lia. rewrite <- Zle_Qle. exact Hb1. }
  assert (HB2 : inject_Z (Zpos q) < 2 * pow2 b).
  { rewrite <- pow2_succ, pow2_Z by lia. rewrite <- Zlt_Qlt.
    replace (b + 1)%Z with (Z.succ b) by lia. exact Hb2. }
  assert (HK : pow2 (a - b) * pow2 b == pow2 a).
  { rewrite <- pow2_plus. f_equiv. lia. }
  pose proof (pow2_pos (a - b)) as HKpos. pose proof (pow2_pos b) as HBpos.
  revert Hxq HA1 HA2 HB1 HB2 HK HKpos HBpos.
  generalize (inject_Z p) (inject_Z (Zpos q)) (pow2 a) (pow2 b).
  intros P D A B Hxq HA1 HA2 HB1 HB2 HK HKpos HBpos.
  destruct (Qle_bool (pow2 (a - b)) x) eqn:E.
  - apply Qle_bool_iff in E. split; [exact E|].
    rewrite pow2_succ. apply Qnot_le_lt. intros Hge.
    assert (0 <= (x - 2 * pow2 (a - b)) * D)
      by (apply Qmult_le_0_compat; lra).
    assert (0 <= 2 * pow2 (a - b) * (D - B))
      by (apply Qmult_le_0_compat; lra).
    lra.
  - assert (E' : x < pow2 (a - b)).
    { apply Qnot_le_lt. intros Hle. apply Qle_bool_iff in Hle. congruence. }
    replace (a - b - 1 + 1)%Z with (a - b)%Z by lia. split; [|exact E'].
    rewrite pow2_pred. apply Qnot_lt_le. intros Hlt.
    assert (0 < x).
    { assert (0 < x * D) by lra. apply Qnot_le_lt. intros Hx0.
      assert (0 <= (0 - x) * D) by (apply Qmult_le_0_compat; lra). lra. }
    assert (0 < ((1 # 2) * pow2 (a - b) - x) * D)
      by (apply Qmult_lt_0_compat; lra).
    assert (0 <= (1 # 2) * pow2 (a - b) * (2 * B - D))
      by (apply Qmult_le_0_compat; lra).
    lra.
Qed.

Lemma ilog2_unique x k :
  0 < x -> pow2 k <= x -> x < pow2 (k + 1) -> ilog2 x = k.
Proof.
  intros Hx H1 H2. destruct (ilog2_spec x Hx) as [H3 H4].
  assert (ilog2 x < k + 1)%Z by (apply pow2_lt_inv; lra).
  assert (k < ilog2 x + 1)%Z by (apply pow2_lt_inv; lra).
  lia.
Qed.

Lemma ilog2_comp x y : 0 < x -> x == y -> ilog2 x = ilog2 y.
Proof.
  intros Hx Hxy. destruct (ilog2_spec x Hx) as [H1 H2].
  symmetry. apply ilog2_unique; lra.
Qed.

Lemma ilog2_mono x y : 0 < x -> x <= y -> (ilog2 x <= ilog2 y)%Z.
Proof.
  intros Hx Hxy. destruct (ilog2_spec x Hx) as [H1 _].
  destruct (ilog2_spec y ltac:(lra)) as [_ H2].
  assert (ilog2 x < ilog2 y + 1)%Z by (apply pow2_lt_inv; lra). lia.
Qed.

(** ** The nearest integer, ties to even *)

Lemma round_half_even_floor x :
  (Qfloor x <= round_half_even x <= Qfloor x + 1)%Z.
Proof.
  unfold round_half_even.
  destruct (Qcompare (x - inject_Z (Qfloor x)) (1 # 2));
    [destruct (Z.even (Qfloor x))|..]; lia.
Qed.

Lemma round_half_even_error x :
  x - (1 # 2) <= inject_Z (round_half_even x)
  /\ inject_Z (round_half_even x) <= x + (1 # 2).
Proof.
  pose proof (Qfloor_le x) as H1. pose proof (Qlt_floor x) as H2.
  rewrite inject_Z_plus in H2. change (inject_Z 1) with 1 in H2.
  unfold round_half_even.
  destruct (Qcompare_spec (x - inject_Z (Qfloor x)) (1 # 2)) as [E | E | E];
    [destruct (Z.even (Qfloor x))|..]; rewrite ?inject_Z_plus;
    change (inject_Z 1) with 1; split; lra.
Qed.

#[global] Instance round_half_even_comp :
  Proper (Qeq ==> eq) round_half_even.
Proof.
  intros x y Hxy. unfold round_half_even.
  rewrite (Qfloor_comp _ _ Hxy).
  assert (H : x - inject_Z (Qfloor y) == y - inject_Z (Qfloor y)) by lra.
  rewrite (Qcompare_comp _ _ H _ _ (Qeq_refl (1 # 2))). reflexivity.
Qed.

Lemma round_half_even_Z n : round_half_even (inject_Z n) = n.
Proof.
  unfold round_half_even. rewrite Qfloor_Z.
  destruct (Qcompare_spec (inject_Z n - inject_Z n) (1 # 2)) as [E | E | E];
    [exfalso; lra | reflexivity | exfalso; lra].
Qed.

Lemma round_half_even_mono x y :
  x <= y -> (round_half_even x <= round_half_even y)%Z.
Proof.
  intros Hxy. pose proof (Qfloor_resp_le _ _ Hxy) as Hf.
  pose proof (round_half_even_floor x) as Hx.
  pose proof (round_half_even_floor y) as Hy.
  destruct (Z.eq_dec (Qfloor x) (Qfloor y)) as [Heq | Hne]; [|lia].
  clear Hx Hy. unfold round_half_even. rewrite Heq.
  destruct (Qcompare_spec (x - inject_Z (Qfloor y)) (1 # 2)) as [Ex | Ex | Ex];
    destruct (Qcompare_spec (y - inject_Z (Qfloor y)) (1 # 2))
      as [Ey | Ey | Ey];
    try (exfalso; lra); destruct (Z.even (Qfloor y)); lia.
Qed.

(** ** Rounding *)

Lemma ulp_exp_pos x : 0 < x -> ulp_exp x = Z.max (ilog2 x - 52) (-1074).
Proof.
  intros Hx. unfold ulp_exp.
  rewrite (ilog2_comp (Qabs x) x); [reflexivity | |].
  - rewrite Qabs_pos; lra.
  - apply Qabs_pos. lra.
Qed.

Lemma scaled_back x e : x / pow2 e * pow2 e == x.
Proof. field. pose proof (pow2_pos e). lra. Qed.

Lemma div_pow2_le a b e : a <= b -> a / pow2 e <= b / pow2 e.
Proof.
  intros H. unfold Qdiv. apply Qmult_le_compat_r; [exact H|].
  apply Qlt_le_weak, Qinv_lt_0_compat, pow2_pos.
Qed.

Lemma mantissa_lt x : 0 < x -> x / pow2 (ulp_exp x) < pow2 53.
Proof.
  intros Hx. destruct (ilog2_spec x Hx) as [_ H].
  rewrite (ulp_exp_pos x Hx).
  set (e := Z.max (ilog2 x - 52) (-1074)).
  apply Qlt_shift_div_r; [apply pow2_pos|].
  rewrite <- pow2_plus.
  eapply Qlt_le_trans; [exact H|]. apply pow2_le. lia.
Qed.

Lemma mantissa_ge x :
  0 < x -> (-1074 <= ilog2 x - 52)%Z -> pow2 52 <= x / pow2 (ulp_exp x).
Proof.
  intros Hx Hn. destruct (ilog2_spec x Hx) as [H _].
  rewrite (ulp_exp_pos x Hx). rewrite Z.max_l by lia.
  apply Qle_shift_div_l; [apply pow2_pos|].
  rewrite <- pow2_plus. replace (52 + (ilog2 x - 52))%Z with (ilog2 x) by lia.
  exact H.
Qed.

Lemma rnd_zero x : x == 0 -> rnd x == 0.
Proof.
  intros Hx. unfold rnd.
  assert (H : x / pow2 (ulp_exp x) == inject_Z 0).
  { unfold Qdiv. transitivity (0 * / pow2 (ulp_exp x)); [|ring].
    apply Qmult_comp; [exact Hx | reflexivity]. }
  rewrite H, round_half_even_Z. ring.
Qed.

Lemma ulp_exp_comp x y : 0 < x -> x == y -> ulp_exp x = ulp_exp y.
Proof.
  intros Hx Hxy. rewrite (ulp_exp_pos x Hx), (ulp_exp_pos y) by lra.
  rewrite (ilog2_comp x y Hx Hxy). reflexivity.
Qed.

Lemma rnd_comp_pos x y : 0 < x -> x == y -> rnd x == rnd y.
Proof.
  intros Hx Hxy. unfold rnd. rewrite (ulp_exp_comp x y Hx Hxy).
  assert (H : x / pow2 (ulp_exp y) == y / pow2 (ulp_exp y))
    by (rewrite Hxy; reflexivity).
  rewrite H. reflexivity.
Qed.

Lemma rnd_nonneg x : 0 <= x -> 0 <= rnd x.
Proof.
  intros Hx. unfold rnd.
  apply Qmult_le_0_compat; [|apply Qlt_le_weak, pow2_pos].
  change 0 with (inject_Z 0). rewrite <- Zle_Qle.
  rewrite <- (round_half_even_Z 0). apply round_half_even_mono.
  apply Qle_shift_div_l; [apply pow2_pos|].
  change (inject_Z 0) with 0. rewrite Qmult_0_l. exact Hx.
Qed.

(** The relative error of rounding a number in the normal range. *)

Lemma rnd_error x :
  pow2 (-1022) <= x ->
  (1 - u64) * x <= rnd x /\ rnd x <= (1 + u64) * x.
Proof.
  intros Hn. pose proof (pow2_pos (-1022)) as Hp.
  assert (Hx : 0 < x) by lra.
  assert (Hl : (-1074 <= ilog2 x - 52)%Z).
  { destruct (ilog2_spec x Hx) as [_ H].
    assert (-1022 < ilog2 x + 1)%Z by (apply pow2_lt_inv; lra). lia. }
  pose proof (mantissa_ge x Hx Hl) as Hm.
  pose proof (round_half_even_error (x / pow2 (ulp_exp x))) as [H1 H2].
  pose proof (scaled_back x (ulp_exp x)) as Hback.
  pose proof (pow2_pos (ulp_exp x)) as Hpe.
  unfold rnd. revert Hm H1 H2 Hback.
  generalize (inject_Z (round_half_even (x / pow2 (ulp_exp x)))).
  generalize (x / pow2 (ulp_exp x)). generalize (pow2 (ulp_exp x)) Hpe.
  intros P HP m r Hm H1 H2 Hback.
  assert (Hhalf : (1 # 2) <= u64 * m).
  { assert (u64 * pow2 52 == 1 # 2) by reflexivity.
    assert (0 <= u64 * (m - pow2 52)).
    { apply Qmult_le_0_compat; [discriminate | lra]. }
    lra. }
  assert (0 <= (r - (m - u64 * m)) * P)
    by (apply Qmult_le_0_compat; lra).
  assert (0 <= ((m + u64 * m) - r) * P)
    by (apply Qmult_le_0_compat; lra).
  assert (Hback' : u64 * (m * P) == u64 * x) by (rewrite Hback; reflexivity).
  split; lra.
Qed.

Lemma rnd_mono_pos x y : 0 < x -> x <= y -> rnd x <= rnd y.
Proof.
  intros Hx Hxy. assert (Hy : 0 < y) by lra.
  pose proof (ilog2_mono x y Hx Hxy) as Hlog.
  pose proof (ulp_exp_pos x Hx) as Ex. pose proof (ulp_exp_pos y Hy) as Ey.
  assert (Hexp : (ulp_exp x <= ulp_exp y)%Z) by lia.
  destruct (Z.eq_dec (ulp_exp x) (ulp_exp y)) as [Heq | Hne].
  - unfold rnd. rewrite Heq.
    apply Qmult_le_compat_r; [|apply Qlt_le_weak, pow2_pos].
    rewrite <- Zle_Qle. apply round_half_even_mono, div_pow2_le, Hxy.
  - assert (Hlt : (ulp_exp x < ulp_exp y)%Z) by lia.
    apply Qle_trans with (pow2 (ulp_exp y + 52)).
    + unfold rnd.
      apply Qle_trans with (pow2 53 * pow2 (ulp_exp x)).
      * apply Qmult_le_compat_r; [|apply Qlt_le_weak, pow2_pos].
        assert (H53 : pow2 53 == inject_Z (2 ^ 53)) by reflexivity.
        rewrite H53, <- Zle_Qle.
        rewrite <- (round_half_even_Z (2 ^ 53)).
        apply round_half_even_mono. rewrite <- H53.
        apply Qlt_le_weak, mantissa_lt, Hx.
      * rewrite <- pow2_plus. apply pow2_le. lia.
    + assert (Hn : (-1074 <= ilog2 y - 52)%Z) by lia.
      pose proof (mantissa_ge y Hy Hn) as Hm.
      unfold rnd. rewrite Z.add_comm, pow2_plus.
      apply Qmult_le_compat_r; [|apply Qlt_le_weak, pow2_pos].
      assert (H52 : pow2 52 == inject_Z (2 ^ 52)) by reflexivity.
      rewrite H52, <- Zle_Qle.
      rewrite <- (round_half_even_Z (2 ^ 52)).
      apply round_half_even_mono. rewrite <- H52. exact Hm.
Qed.

(** Rounding keeps the order of non-negative numbers. *)

Lemma rnd_mono x y : 0 <= x -> x <= y -> rnd x <= rnd y.
Proof.
  intros Hx Hxy. destruct (Qlt_le_dec 0 x) as [Hpos | Hzero].
  - apply rnd_mono_pos; assumption.
  - rewrite (rnd_zero x) by lra. apply rnd_nonneg. lra.
Qed.

(** A number that binary64 holds: [m * 2^e] with [m] below [2^53]. *)

Lemma rnd_representable x : representable x -> rnd x == x.
Proof.
  intros (m & e & Hm & He & Hx).
  destruct (Z.eq_dec m 0%Z) as [-> | Hm0].
  { rewrite rnd_zero; rewrite Hx; ring. }
  assert (Hpos : 0 < x).
  { rewrite Hx. apply Qmult_lt_0_compat; [|apply pow2_pos].
    change 0 with (inject_Z 0). rewrite <- Zlt_Qlt. lia. }
  assert (Hlt : x < pow2 (53 + e)).
  { rewrite Hx, pow2_plus.
    apply Qmult_lt_compat_r; [apply pow2_pos|].
    assert (H53 : pow2 53 == inject_Z (2 ^ 53)) by reflexivity.
    rewrite H53, <- Zlt_Qlt. lia. }
  destruct (ilog2_spec x Hpos) as [Hlow _].
  assert (Hlog : (ilog2 x < 53 + e)%Z) by (apply pow2_lt_inv; lra).
  pose proof (ulp_exp_pos x Hpos) as Hu.
  assert (Hd : (0 <= e - ulp_exp x)%Z) by lia.
  assert (Hscaled : x / pow2 (ulp_exp x)
                    == inject_Z (m * 2 ^ (e - ulp_exp x))).
  { rewrite inject_Z_mult, <- pow2_Z by exact Hd.
    apply Qeq_sym. apply (Qmult_inj_r _ _ (pow2 (ulp_exp x))).
    - pose proof (pow2_pos (ulp_exp x)). lra.
    - rewrite scaled_back, <- Qmult_assoc, <- pow2_plus.
      replace (e - ulp_exp x + ulp_exp x)%Z with e by lia.
      rewrite Hx. reflexivity. }
  unfold rnd. rewrite Hscaled, round_half_even_Z, <- Hscaled.
  apply scaled_back.
Qed.

Lemma rnd_is_representable x : 0 <= x -> representable (rnd x).
Proof.
  intros Hx. destruct (Qlt_le_dec 0 x) as [Hpos | Hzero].
  - pose proof (mantissa_lt x Hpos) as Hlt.
    assert (H53 : pow2 53 == inject_Z (2 ^ 53)) by reflexivity.
    assert (Hm : (0 <= round_half_even (x / pow2 (ulp_exp x)) <= 2 ^ 53)%Z).
    { split.
      - rewrite <- (round_half_even_Z 0) at 1. apply round_half_even_mono.
        apply Qle_shift_div_l; [apply pow2_pos|].
        change (inject_Z 0) with 0. rewrite Qmult_0_l. exact Hx.
      - rewrite <- (round_half_even_Z (2 ^ 53)). apply round_half_even_mono.
        rewrite <- H53. lra. }
    pose proof (ulp_exp_pos x Hpos) as Hu.
    destruct (Z.eq_dec (round_half_even (x / pow2 (ulp_exp x))) (2 ^ 53)%Z)
      as [Heq | Hne].
    + exists (2 ^ 52)%Z, (ulp_exp x + 1)%Z. split; [lia|]. split; [lia|].
      unfold rnd. rewrite Heq, pow2_succ.
      assert (inject_Z (2 ^ 53) == inject_Z (2 ^ 52) * 2) by reflexivity.
      rewrite H. ring.
    + exists (round_half_even (x / pow2 (ulp_exp x))), (ulp_exp x).
      split; [lia|]. split; [lia|]. reflexivity.
  - exists 0%Z, 0%Z. split; [lia|]. split; [lia|].
    rewrite rnd_zero by lra. reflexivity.
Qed.

(** Rounding what is already rounded changes nothing. *)

Lemma rnd_idempotent x : 0 <= x -> rnd (rnd x) == rnd x.
Proof. intros Hx. apply rnd_representable, rnd_is_representable, Hx. Qed.

Lemma representable_Z n : (0 <= n < 2 ^ 53)%Z -> representable (inject_Z n).
Proof.
  intros Hn. exists n, 0%Z. split; [exact Hn|]. split; [lia|].
  change (pow2 0) with 1. ring.
Qed.

Lemma representable_pow2 k : (-1074 <= k)%Z -> representable (pow2 k).
Proof.
  intros Hk. exists 1%Z, k. split; [lia|]. split; [exact Hk|].
  change (inject_Z 1) with 1. ring.
Qed.

Lemma rnd_le_pow2 x k :
  0 <= x -> (-1074 <= k)%Z -> x <= pow2 k -> rnd x <= pow2 k.
Proof.
  intros Hx Hk Hle.
  rewrite <- (rnd_representable (pow2 k)) by (apply representable_pow2, Hk).
  apply rnd_mono; assumption.
Qed.

#[global] Instance rnd_comp : Proper (Qeq ==> Qeq) rnd.
Proof.
  intros x y Hxy. destruct (Qeq_dec x 0) as [Hz | Hnz].
  - rewrite (rnd_zero x Hz), (rnd_zero y); [reflexivity | lra].
  - assert (Habs : 0 < Qabs x).
    { destruct (Qabs_bounds x) as (H0 & H1 & H2).
      destruct (Qeq_dec (Qabs x) 0) as [Hz | Hz]; [|lra].
      exfalso. apply Hnz. lra. }
    assert (He : ulp_exp x = ulp_exp y).
    { unfold ulp_exp. f_equal. f_equal.
      apply ilog2_comp; [exact Habs | rewrite Hxy; reflexivity]. }
    unfold rnd. rewrite He.
    assert (H : x / pow2 (ulp_exp y) == y / pow2 (ulp_exp y))
      by (rewrite Hxy; reflexivity).
    rewrite H. reflexivity.
Qed.

Lemma rnd_0 : rnd 0 == 0.
Proof. apply rnd_zero. reflexivity. Qed.

Lemma rnd_ge_pow2 x k :
  (-1074 <= k)%Z -> pow2 k <= x -> pow2 k <= rnd x.
Proof.
  intros Hk Hle. pose proof (pow2_pos k).
  rewrite <- (rnd_representable (pow2 k)) by (apply representable_pow2, Hk).
  apply rnd_mono; lra.
Qed.

Lemma representable_nonneg x : representable x -> 0 <= x.
Proof.
  intros (m & e & Hm & _ & Hx). rewrite Hx.
  apply Qmult_le_0_compat; [|apply Qlt_le_weak, pow2_pos].
  change 0 with (inject_Z 0). rewrite <- Zle_Qle. lia.
Qed.

Lemma representable_comp x y : x == y -> representable x -> representable y.
Proof.
  intros Hxy (m & e & Hm & He & Hx). exists m, e.
  split; [exact Hm|]. split; [exact He|]. rewrite <- Hxy. exact Hx.
Qed.

Lemma representable_0 : representable 0.
Proof. apply (representable_Z 0). lia. Qed.

(** ** Values that are exact up to a few roundings *)

Lemma u64_pos : 0 < u64.
Proof. reflexivity. Qed.

Lemma near_exact x : near 0 x x.
Proof. unfold near. change (inject_Z 0) with 0. split; lra. Qed.

Lemma near_zero k a : near k a 0 -> a == 0.
Proof. unfold near. intros [H1 H2]. lra. Qed.

Lemma near_comp k a a' x x' :
  a == a' -> x == x' -> near k a x -> near k a' x'.
Proof.
  unfold near. intros Ha Hx [H1 H2].
  assert (E : inject_Z k * (2 * u64) * x == inject_Z k * (2 * u64) * x')
    by (rewrite Hx; reflexivity).
  split; lra.
Qed.

Lemma near_weaken k k' a x :
  0 <= x -> (k <= k')%Z -> near k a x -> near k' a x.
Proof.
  unfold near. intros Hx Hk [H1 H2].
  assert (Hkk : inject_Z k <= inject_Z k') by (rewrite <- Zle_Qle; exact Hk).
  assert (0 <= (inject_Z k' - inject_Z k) * (2 * u64) * x).
  { apply Qmult_le_0_compat; [|exact Hx].
    apply Qmult_le_0_compat; [lra | discriminate]. }
  split; lra.
Qed.

Lemma near_add k a b x y : near k a x -> near k b y -> near k (a + b) (x + y).
Proof. unfold near. intros [H1 H2] [H3 H4]. split; lra. Qed.

Lemma near_scale k m a x : 0 <= m -> near k a x -> near k (m * a) (m * x).
Proof.
  unfold near. intros Hm [H1 H2].
  assert (0 <= m * (a - (1 - inject_Z k * (2 * u64)) * x))
    by (apply Qmult_le_0_compat; lra).
  assert (0 <= m * ((1 + inject_Z k * (2 * u64)) * x - a))
    by (apply Qmult_le_0_compat; lra).
  split; lra.
Qed.

(** One more rounding, within [2^-53] of the number that is rounded. *)
Lemma near_round k a r x :
  0 <= x -> (0 <= k <= 2 ^ 50)%Z -> near k a x ->
  (1 - u64) * a <= r -> r <= (1 + u64) * a ->
  near (k + 1) r x.
Proof.
  intros Hx Hk [H1 H2] E1 E2.
  unfold near. rewrite inject_Z_plus. change (inject_Z 1) with 1.
  assert (HK0 : 0 <= inject_Z k)
    by (change 0 with (inject_Z 0); rewrite <- Zle_Qle; lia).
  assert (HK1 : inject_Z k * (2 * u64) <= 1 # 4).
  { assert (inject_Z k <= inject_Z (2 ^ 50)) by (rewrite <- Zle_Qle; lia).
    assert (inject_Z (2 ^ 50) * (2 * u64) == 1 # 4) by reflexivity.
    assert (0 <= (inject_Z (2 ^ 50) - inject_Z k) * (2 * u64))
      by (apply Qmult_le_0_compat; [lra | discriminate]).
    lra. }
  assert (HKnn : 0 <= inject_Z k * (2 * u64))
    by (apply Qmult_le_0_compat; [exact HK0 | discriminate]).
  assert (Hsplit : (inject_Z k + 1) * (2 * u64)
                   == inject_Z k * (2 * u64) + 2 * u64) by ring.
  rewrite Hsplit. clear HK0 Hsplit.
  revert HKnn HK1 H1 H2. generalize (inject_Z k * (2 * u64)).
  intros K HK0 HK1 H1 H2.
  assert (HKx : 0 <= K * x) by (apply Qmult_le_0_compat; assumption).
  assert (HKx1 : K * x <= x).
  { assert (0 <= (1 - K) * x) by (apply Qmult_le_0_compat; lra). lra. }
  change u64 with (1 # 9007199254740992) in *.
  split; lra.
Qed.

(** One more rounding, of a number that is 0 or in the normal range. *)
Lemma near_rnd k a x :
  0 <= x -> (0 <= k <= 2 ^ 50)%Z -> near k a x ->
  a == 0 \/ pow2 (-1022) <= a ->
  near (k + 1) (rnd a) x.
Proof.
  intros Hx Hk Hn [Ha | Ha].
  - apply (near_weaken k); [exact Hx | lia|].
    apply (near_comp k a (rnd a) x x); [|reflexivity | exact Hn].
    rewrite (rnd_zero a Ha). exact Ha.
  - destruct (rnd_error a Ha) as [E1 E2].
    apply (near_round k a); assumption.
Qed.

(** The product of two such values. *)
Lemma near_mul k1 k2 a b x y :
  0 <= x -> 0 <= y -> (0 <= k1 <= 2 ^ 20)%Z -> (0 <= k2 <= 2 ^ 20)%Z ->
  near k1 a x -> near k2 b y -> near (k1 + k2 + 1) (a * b) (x * y).
Proof.
  intros Hx Hy Hk1 Hk2 [A1 A2] [B1 B2]. unfold near.
  rewrite !inject_Z_plus. change (inject_Z 1) with 1.
  assert (Hc : forall k, (0 <= k <= 2 ^ 20)%Z ->
            0 <= inject_Z k * (2 * u64)
            /\ inject_Z k * (2 * u64) <= 1 # 4294967296).
  { intros k Hk.
    assert (0 <= inject_Z k)
      by (change 0 with (inject_Z 0); rewrite <- Zle_Qle; lia).
    assert (inject_Z k <= inject_Z (2 ^ 20)) by (rewrite <- Zle_Qle; lia).
    assert (inject_Z (2 ^ 20) * (2 * u64) == 1 # 4294967296) by reflexivity.
    assert (0 <= (inject_Z (2 ^ 20) - inject_Z k) * (2 * u64))
      by (apply Qmult_le_0_compat; [lra | discriminate]).
    split; [apply Qmult_le_0_compat; [assumption | discriminate] | lra]. }
  destruct (Hc k1 Hk1) as [K1a K1b]. destruct (Hc k2 Hk2) as [K2a K2b].
  assert (Hsplit : (inject_Z k1 + inject_Z k2 + 1) * (2 * u64)
                   == inject_Z k1 * (2 * u64) + inject_Z k2 * (2 * u64)
                      + 2 * u64) by ring.
  rewrite Hsplit. clear Hsplit Hc.
  revert K1a K1b K2a K2b A1 A2 B1 B2.
  generalize (inject_Z k1 * (2 * u64)). generalize (inject_Z k2 * (2 * u64)).
  intros K2 K1 K1a K1b K2a K2b A1 A2 B1 B2.
  change u64 with (1 # 9007199254740992) in *.
  assert (Hxy : 0 <= x * y) by (apply Qmult_le_0_compat; assumption).
  assert (HKK : 0 <= K1 * K2) by (apply Qmult_le_0_compat; assumption).
  assert (HKK' : K1 * K2 <= 1 # 4503599627370496).
  { assert (0 <= ((1 # 4294967296) - K1) * (1 # 4294967296))
      by (apply Qmult_le_0_compat; lra).
    assert (0 <= K1 * ((1 # 4294967296) - K2))
      by (apply Qmult_le_0_compat; lra).
    lra. }
  assert (Hlo1 : 0 <= (1 - K1) * x) by (apply Qmult_le_0_compat; lra).
  assert (Hlo2 : 0 <= (1 - K2) * y) by (apply Qmult_le_0_compat; lra).
  assert (Hhi1 : 0 <= (1 + K1) * x) by (apply Qmult_le_0_compat; lra).
  assert (P1 : 0 <= (a - (1 - K1) * x) * b)
    by (apply Qmult_le_0_compat; lra).
  assert (P2 : 0 <= ((1 - K1) * x) * (b - (1 - K2) * y))
    by (apply Qmult_le_0_compat; lra).
  assert (P3 : 0 <= ((1 + K1) * x - a) * b)
    by (apply Qmult_le_0_compat; lra).
  assert (P4 : 0 <= ((1 + K1) * x) * ((1 + K2) * y - b))
    by (apply Qmult_le_0_compat; lra).
  assert (P5 : 0 <= (K1 * K2) * (x * y))
    by (apply Qmult_le_0_compat; assumption).
  assert (P6 : 0 <= ((1 # 4503599627370496) - K1 * K2) * (x * y))
    by (apply Qmult_le_0_compat; [lra | assumption]).
  split; lra.
Qed.

(** Two numbers of binary64 add up exactly below the normal range. *)
Lemma representable_grid x :
  representable x -> exists n, (0 <= n)%Z /\ x == inject_Z n * pow2 (-1074).
Proof.
  intros (m & e & Hm & He & Hx). exists (m * 2 ^ (e + 1074))%Z. split; [nia|].
  rewrite inject_Z_mult, <- pow2_Z by lia.
  rewrite <- Qmult_assoc, <- pow2_plus.
  replace (e + 1074 + -1074)%Z with e by lia. exact Hx.
Qed.

Lemma sum_error a b :
  representable a -> representable b ->
  (1 - u64) * (a + b) <= rnd (a + b) /\ rnd (a + b) <= (1 + u64) * (a + b).
Proof.
  intros Ha Hb.
  pose proof (representable_nonneg a Ha) as Ha0.
  pose proof (representable_nonneg b Hb) as Hb0.
  destruct (Qlt_le_dec (a + b) (pow2 (-1022))) as [Hsmall | Hnormal];
    [|apply rnd_error, Hnormal].
  destruct (representable_grid a Ha) as (n1 & Hn1 & E1).
  destruct (representable_grid b Hb) as (n2 & Hn2 & E2).
  assert (Hsum : a + b == inject_Z (n1 + n2) * pow2 (-1074))
    by (rewrite inject_Z_plus, E1, E2; ring).
  assert (Hrep : representable (a + b)).
  { exists (n1 + n2)%Z, (-1074)%Z. split; [|split; [lia | exact Hsum]].
    split; [lia|]. apply Z.lt_trans with (2 ^ 52)%Z; [|reflexivity].
    rewrite Zlt_Qlt, <- pow2_Z by lia.
    apply (Qmult_lt_r _ _ (pow2 (-1074))); [apply pow2_pos|].
    rewrite <- Hsum, <- pow2_plus. exact Hsmall. }
  rewrite (rnd_representable _ Hrep).
  change u64 with (1 # 9007199254740992).
  split; lra.
Qed.

(** One more rounding, of a sum of two numbers of binary64. *)
Lemma near_rnd_sum k a b x :
  0 <= x -> (0 <= k <= 2 ^ 50)%Z -> representable a -> representable b ->
  near k (a + b) x -> near (k + 1) (rnd (a + b)) x.
Proof.
  intros Hx Hk Ha Hb Hn. destruct (sum_error a b Ha Hb) as [E1 E2].
  apply (near_round k (a + b)); assumption.
Qed.

(** * The slab loop with rounding *)

Lemma whole_comp x y : x == y -> whole x -> whole y.
Proof. intros Hxy [z Hz]. exists z. rewrite <- Hxy. exact Hz. Qed.

(** Two whole numbers in strict order are at least 1 apart. *)
Lemma whole_gap x y : whole x -> whole y -> x < y -> x + 1 <= y.
Proof.
  intros [a Ha] [b Hb] Hlt. rewrite Ha, Hb in *.
  rewrite <- Zlt_Qlt in Hlt. change 1 with (inject_Z 1).
  rewrite <- inject_Z_plus, <- Zle_Qle. lia.
Qed.

Lemma progressive_upper_whole start prev_rate lower u rate rest :
  progressive start prev_rate ((lower, Fin u, rate) :: rest) ->
  Forall plain_slab rest -> whole u.
Proof.
  intros (_ & _ & _ & Hrest) Hplain.
  destruct rest as [|[[l1 u1] r1] rest]; [destruct Hrest|].
  destruct Hrest as (Hl1 & _). apply Forall_cons_1 in Hplain as [[Hw _] _].
  cbn in Hw. exact (whole_comp _ _ Hl1 Hw).
Qed.

(** The part of a whole income inside a slab it has entered is at least one
    rupee. *)
Lemma amount_ge_1 T start prev_rate lower upper rate rest :
  whole T ->
  progressive start prev_rate ((lower, upper, rate) :: rest) ->
  Forall plain_slab ((lower, upper, rate) :: rest) ->
  lower < T -> 1 <= min_bound T upper - lower.
Proof.
  intros HT Hp Hplain Hlt.
  pose proof Hplain as Hplain'.
  apply Forall_cons_1 in Hplain' as [[Hw _] Hrest]. cbn in Hw.
  pose proof (whole_gap _ _ Hw HT Hlt) as Hgap.
  destruct upper as [u|]; cbn [min_bound]; [|lra].
  pose proof (progressive_upper_whole _ _ _ _ _ _ Hp Hrest) as Hu.
  destruct Hp as (_ & _ & Hlu & _).
  pose proof (whole_gap _ _ Hw Hu Hlu). case_minmax; lra.
Qed.

(** The rounded rate and the rounded tax of a slab. *)
Lemma rounded_rate rate :
  rate == 0 \/ pow2 (-10) <= rate /\ rate <= 1 ->
  0 <= rnd rate /\ rnd rate <= 1 /\ near 1 (rnd rate) rate
  /\ (rnd rate == 0 \/ pow2 (-10) <= rnd rate).
Proof.
  intros [Hz | [Hlo Hhi]].
  - pose proof (rnd_zero rate Hz) as Hr0. split; [lra|]. split; [lra|].
    split; [|left; exact Hr0].
    apply (near_comp 1 0 (rnd rate) 0 rate); [lra | lra |].
    unfold near. split; lra.
  - assert (H0 : 0 <= rate) by (pose proof (pow2_pos (-10)); lra).
    split; [apply rnd_nonneg, H0|].
    split; [apply (rnd_le_pow2 rate 0); [exact H0 | lia | exact Hhi]|].
    split; [|right; apply rnd_ge_pow2; [lia | exact Hlo]].
    apply (near_rnd 0 rate rate H0); [lia | apply near_exact|].
    right. apply Qle_trans with (pow2 (-10)); [apply pow2_le; lia | exact Hlo].
Qed.

(** An amount of at least one rupee, converted to binary64. *)
Lemma rounded_amount amount :
  1 <= amount ->
  1 <= rnd amount /\ representable (rnd amount) /\ near 1 (rnd amount) amount.
Proof.
  intros Ha. split; [apply (rnd_ge_pow2 amount 0); [lia | exact Ha]|].
  split; [apply rnd_is_representable; lra|].
  apply (near_rnd 0 amount amount); [lra | lia | apply near_exact|].
  right. apply Qle_trans with (pow2 0); [apply pow2_le; lia | exact Ha].
Qed.

Lemma rounded_slab_tax amount rate :
  1 <= amount ->
  rate == 0 \/ pow2 (-10) <= rate /\ rate <= 1 ->
  0 <= rnd (rnd amount * rnd rate)
  /\ rnd (rnd amount * rnd rate) <= rnd amount
  /\ representable (rnd (rnd amount * rnd rate))
  /\ near 4 (rnd (rnd amount * rnd rate)) (amount * rate)
  /\ (rnd (rnd amount * rnd rate) == 0
      \/ pow2 (-10) <= rnd (rnd amount * rnd rate)).
Proof.
  intros Ha Hr. destruct (rounded_rate rate Hr) as (R0 & R1 & Rn & Rz).
  destruct (rounded_amount amount Ha) as (A1 & Arep & An).
  assert (H0 : 0 <= rate) by (pose proof (pow2_pos (-10)); lra).
  assert (Hp0 : 0 <= rnd amount * rnd rate)
    by (apply Qmult_le_0_compat; lra).
  assert (Hp1 : rnd amount * rnd rate <= rnd amount).
  { assert (0 <= rnd amount * (1 - rnd rate))
      by (apply Qmult_le_0_compat; lra). lra. }
  assert (Hpz : rnd amount * rnd rate == 0
                \/ pow2 (-10) <= rnd amount * rnd rate).
  { destruct Rz as [Rz | Rz]; [left; rewrite Rz; ring | right].
    assert (0 <= (rnd amount - 1) * rnd rate)
      by (apply Qmult_le_0_compat; lra). lra. }
  split; [apply rnd_nonneg, Hp0|].
  split.
  { rewrite <- (rnd_representable (rnd amount) Arep) at 2.
    apply rnd_mono; assumption. }
  split; [apply rnd_is_representable, Hp0|]. split.
  - apply (near_rnd 3 (rnd amount * rnd rate) (amount * rate)).
    + apply Qmult_le_0_compat; lra.
    + lia.
    + apply (near_mul 1 1); [lra | lra | lia | lia | exact An | exact Rn].
    + destruct Hpz as [Hz | Hz]; [left; exact Hz | right].
      apply Qle_trans with (pow2 (-10)); [apply pow2_le; lia | exact Hz].
  - destruct Hpz as [Hz | Hz]; [left; apply rnd_zero, Hz | right].
    apply rnd_ge_pow2; [lia | exact Hz].
Qed.

(** One step of the loop: what is added is not negative and the new tax is
    again a number of binary64. *)
Lemma rounded_step tax amount rate :
  representable tax -> 1 <= amount ->
  rate == 0 \/ pow2 (-10) <= rate /\ rate <= 1 ->
  representable (rnd (tax + rnd (rnd amount * rnd rate)))
  /\ tax <= rnd (tax + rnd (rnd amount * rnd rate)).
Proof.
  intros Htax Ha Hr. pose proof (representable_nonneg _ Htax) as H0.
  destruct (rounded_slab_tax amount rate Ha Hr) as (Ht0 & _).
  split; [apply rnd_is_representable; lra|].
  rewrite <- (rnd_representable tax Htax) at 1. apply rnd_mono; lra.
Qed.

Lemma rounded_tax_grows T slabs : forall start prev_rate tax,
  whole T -> progressive start prev_rate slabs -> Forall plain_slab slabs ->
  representable tax ->
  representable (rounded_tax T slabs tax) /\ tax <= rounded_tax T slabs tax.
Proof.
  induction slabs as [|[[lower upper] rate] rest IH];
    intros start prev tax HT Hp Hplain Htax.
  - destruct Hp.
  - cbn [rounded_tax].
    destruct (leb T lower) eqn:E; [split; [exact Htax | lra]|].
    apply leb_gt in E.
    pose proof (amount_ge_1 _ _ _ _ _ _ _ HT Hp Hplain E) as Ha.
    pose proof Hplain as Hplain'.
    apply Forall_cons_1 in Hplain' as [[_ Hr] Hrest]. cbn [fst snd] in Hr.
    destruct (rounded_step tax _ rate Htax Ha Hr) as [Hrep Hle].
    destruct Hp as (_ & _ & Hu). destruct upper as [u|].
    + destruct Hu as [_ Hprest].
      destruct (IH _ _ _ HT Hprest Hrest Hrep) as [IH1 IH2].
      split; [exact IH1 | lra].
    + subst rest. cbn [rounded_tax]. split; assumption.
Qed.

(** The rounded tax does not decrease with the income. *)
Lemma rounded_tax_mono T1 T2 slabs : forall start prev_rate tax1 tax2,
  whole T1 -> whole T2 -> T1 <= T2 ->
  progressive start prev_rate slabs -> Forall plain_slab slabs ->
  representable tax1 -> representable tax2 -> tax1 <= tax2 ->
  rounded_tax T1 slabs tax1 <= rounded_tax T2 slabs tax2.
Proof.
  induction slabs as [|[[lower upper] rate] rest IH];
    intros start prev tax1 tax2 HT1 HT2 HT Hp Hplain H1 H2 Hle.
  - destruct Hp.
  - cbn [rounded_tax].
    destruct (rounded_tax_grows T2 _ _ _ tax2 HT2 Hp Hplain H2) as [_ Hgrow].
    cbn [rounded_tax] in Hgrow.
    destruct (leb T1 lower) eqn:E1.
    + destruct (leb T2 lower) eqn:E2; lra.
    + apply leb_gt in E1.
      assert (E2 : leb T2 lower = false) by (apply leb_gt; lra).
      rewrite E2.
      pose proof (amount_ge_1 _ _ _ _ _ _ _ HT1 Hp Hplain E1) as Ha1.
      pose proof (amount_ge_1 _ _ _ _ _ _ _ HT2 Hp Hplain ltac:(lra)) as Ha2.
      pose proof Hplain as Hplain'.
      apply Forall_cons_1 in Hplain' as [[_ Hr] Hrest]. cbn [fst snd] in Hr.
      destruct (rounded_step tax1 _ rate H1 Ha1 Hr) as [Hrep1 _].
      destruct (rounded_step tax2 _ rate H2 Ha2 Hr) as [Hrep2 _].
      destruct (rounded_rate rate Hr) as (R0 & _).
      pose proof (min_bound_mono T1 T2 upper HT) as Hmin.
      assert (Hamount : rnd (min_bound T1 upper - lower)
                        <= rnd (min_bound T2 upper - lower))
        by (apply rnd_mono; lra).
      assert (Ha0 : 0 <= rnd (min_bound T1 upper - lower))
        by (apply rnd_nonneg; lra).
      assert (Hprod : rnd (min_bound T1 upper - lower) * rnd rate
                      <= rnd (min_bound T2 upper - lower) * rnd rate)
        by (apply Qmult_le_compat_r; lra).
      assert (Hp1 : 0 <= rnd (min_bound T1 upper - lower) * rnd rate)
        by (apply Qmult_le_0_compat; lra).
      pose proof (rnd_mono _ _ Hp1 Hprod) as Ht.
      pose proof (rnd_nonneg _ Hp1) as Ht0.
      pose proof (representable_nonneg _ H1) as Hn1.
      assert (Hstep :
                rnd (tax1 + rnd (rnd (min_bound T1 upper - lower) * rnd rate))
                <= rnd (tax2
                        + rnd (rnd (min_bound T2 upper - lower) * rnd rate)))
        by (apply rnd_mono; lra).
      destruct Hp as (_ & _ & Hu). destruct upper as [u|].
      * destruct Hu as [_ Hprest].
        apply (IH _ _ _ _ HT1 HT2 HT Hprest Hrest Hrep1 Hrep2 Hstep).
      * subst rest. cbn [rounded_tax]. exact Hstep.
Qed.

(** The rounded tax follows the exact sum: for each slab one rounding of the
    rate, one of the amount, one of the product and one of the running
    sum. *)
Lemma rounded_tax_near T slabs : forall start prev_rate k tax E,
  whole T -> progressive start prev_rate slabs -> Forall plain_slab slabs ->
  0 <= tax -> 0 <= E -> near k tax E ->
  tax == 0 \/ pow2 (-1022) <= tax ->
  (4 <= k)%Z -> (k + Z.of_nat (length slabs) <= 2 ^ 50)%Z ->
  near (k + Z.of_nat (length slabs)) (rounded_tax T slabs tax)
       (E + reference_tax T slabs).
Proof.
  induction slabs as [|[[lower upper] rate] rest IH];
    intros start prev k tax E HT Hp Hplain Htax HE Hn Hz Hk Hlen.
  - destruct Hp.
  - cbn [rounded_tax]. cbn [length] in *.
    destruct (leb T lower) eqn:E1.
    + apply leb_le in E1. destruct Hp as (Hl & Hp').
      assert (Hp : progressive start prev ((lower, upper, rate) :: rest))
        by (split; assumption).
      pose proof (reference_tax_zero T _ _ _ Hp ltac:(lra)) as Hzero.
      unfold slab in *.
      apply (near_weaken k); [lra | lia|].
      eapply near_comp; [reflexivity | | exact Hn]. lra.
    + apply leb_gt in E1.
      pose proof (amount_ge_1 _ _ _ _ _ _ _ HT Hp Hplain E1) as Ha.
      pose proof Hplain as Hplain'.
      apply Forall_cons_1 in Hplain' as [[_ Hr] Hrest]. cbn [fst snd] in Hr.
      destruct (rounded_slab_tax _ rate Ha Hr) as (Ht0 & _ & _ & Htn & Htz).
      assert (Hr0 : 0 <= rate) by (pose proof (pow2_pos (-10)); lra).
      set (amount := min_bound T upper - lower) in *.
      set (t := rnd (rnd amount * rnd rate)) in *.
      assert (HE' : 0 <= E + amount * rate).
      { assert (0 <= amount * rate) by (apply Qmult_le_0_compat; lra). lra. }
      assert (Hsum : near k (tax + t) (E + amount * rate)).
      { apply near_add; [exact Hn|].
        apply (near_weaken 4); [|exact Hk | exact Htn].
        apply Qmult_le_0_compat; lra. }
      assert (Hsz : tax + t == 0 \/ pow2 (-1022) <= tax + t).
      { assert (P : pow2 (-1022) <= pow2 (-10)) by (apply pow2_le; lia).
        destruct Hz as [Hz | Hz]; destruct Htz as [Hy | Hy];
          [left; lra | right; lra..]. }
      assert (Hstep : near (k + 1) (rnd (tax + t)) (E + amount * rate))
        by (apply near_rnd; [exact HE' | lia | exact Hsum | exact Hsz]).
      assert (Hsz' : rnd (tax + t) == 0 \/ pow2 (-1022) <= rnd (tax + t)).
      { destruct Hsz as [Hs | Hs]; [left; apply rnd_zero, Hs | right].
        apply rnd_ge_pow2; [lia | exact Hs]. }
      assert (Hcontrib : contribution T (lower, upper, rate) == amount * rate).
      { unfold contribution. fold amount. rewrite Q.max_r by lra.
        reflexivity. }
      cbn [reference_tax fold_right]. fold (reference_tax T rest).
      destruct Hp as (_ & _ & Hu). destruct upper as [u|].
      * destruct Hu as [_ Hprest].
        assert (Hs0 : 0 <= rnd (tax + t)) by (apply rnd_nonneg; lra).
        assert (Hk1 : (4 <= k + 1)%Z) by lia.
        assert (Hlen1 : (k + 1 + Z.of_nat (length rest) <= 2 ^ 50)%Z) by lia.
        pose proof (IH _ _ (k + 1)%Z _ _ HT Hprest Hrest Hs0 HE' Hstep Hsz'
                      Hk1 Hlen1) as IH'.
        replace (k + Z.of_nat (S (length rest)))%Z
          with (k + 1 + Z.of_nat (length rest))%Z by lia.
        eapply near_comp; [reflexivity | | exact IH'].
        rewrite Hcontrib. ring.
      * subst rest. cbn [rounded_tax length reference_tax fold_right] in *.
        replace (k + Z.of_nat 1)%Z with (k + 1)%Z by lia.
        eapply near_comp; [reflexivity | | exact Hstep].
        rewrite Hcontrib. ring.
Qed.

(** ** The loop and the sum over all slabs *)

Lemma rounded_tax_comp T slabs : forall tax tax',
  tax == tax' -> rounded_tax T slabs tax == rounded_tax T slabs tax'.
Proof.
  induction slabs as [|[[lower upper] rate] rest IH]; intros tax tax' H;
    cbn [rounded_tax]; [exact H|].
  destruct (leb T lower); [exact H|]. apply IH. rewrite H. reflexivity.
Qed.

Lemma rounded_add_comp T s acc acc' :
  acc == acc' -> rounded_add T acc s == rounded_add T acc' s.
Proof.
  destruct s as [[lower upper] rate]. intros H. unfold rounded_add.
  rewrite H. reflexivity.
Qed.

Lemma rounded_sum_comp T slabs : forall acc acc',
  acc == acc' ->
  fold_left (rounded_add T) slabs acc == fold_left (rounded_add T) slabs acc'.
Proof.
  induction slabs as [|s rest IH]; intros acc acc' H; cbn [fold_left];
    [exact H|].
  apply IH, rounded_add_comp, H.
Qed.

(** A slab that the income does not reach adds nothing, also rounded. *)
Lemma rounded_add_zero T acc lower upper rate :
  T <= lower -> representable acc ->
  rounded_add T acc (lower, upper, rate) == acc.
Proof.
  intros H Hacc. unfold rounded_add.
  pose proof (min_bound_le T upper) as Hm.
  assert (Hamount : Qmax 0 (min_bound T upper - lower) == 0)
    by (rewrite Q.max_l by lra; reflexivity).
  assert (Hprod : rnd (Qmax 0 (min_bound T upper - lower)) * rnd rate == 0)
    by (rewrite (rnd_zero _ Hamount); ring).
  assert (Hsum : acc + rnd (rnd (Qmax 0 (min_bound T upper - lower))
                            * rnd rate) == acc)
    by (rewrite (rnd_zero _ Hprod); ring).
  rewrite Hsum. apply rnd_representable, Hacc.
Qed.

Lemma rounded_sum_zero T slabs : forall start prev_rate acc,
  progressive start prev_rate slabs -> T <= start -> representable acc ->
  fold_left (rounded_add T) slabs acc == acc.
Proof.
  induction slabs as [|[[lower upper] rate] rest IH];
    intros start prev acc Hp HT Hacc.
  - destruct Hp.
  - destruct Hp as (Hl & _ & Hu). cbn [fold_left].
    assert (Hstep : rounded_add T acc (lower, upper, rate) == acc)
      by (apply rounded_add_zero; [lra | exact Hacc]).
    rewrite (rounded_sum_comp T rest _ _ Hstep).
    destruct upper as [u|].
    + destruct Hu as [Hlu Hrest]. apply (IH u rate); [exact Hrest | lra|].
      exact Hacc.
    + subst rest. reflexivity.
Qed.

(** The loop with its [break] computes the sum over all slabs, rounding
    included. *)
Lemma rounded_tax_reference T slabs : forall start prev_rate acc,
  whole T -> progressive start prev_rate slabs -> Forall plain_slab slabs ->
  representable acc ->
  rounded_tax T slabs acc == fold_left (rounded_add T) slabs acc.
Proof.
  induction slabs as [|[[lower upper] rate] rest IH];
    intros start prev acc HT Hp Hplain Hacc.
  - destruct Hp.
  - cbn [rounded_tax].
    destruct (leb T lower) eqn:E.
    + apply leb_le in E. symmetry.
      apply (rounded_sum_zero T _ start prev); [exact Hp | | exact Hacc].
      destruct Hp as (Hl & _). lra.
    + apply leb_gt in E.
      pose proof (amount_ge_1 _ _ _ _ _ _ _ HT Hp Hplain E) as Ha.
      pose proof Hplain as Hplain'.
      apply Forall_cons_1 in Hplain' as [[_ Hr] Hrest]. cbn [fst snd] in Hr.
      destruct (rounded_step acc _ rate Hacc Ha Hr) as [Hrep _].
      cbn [fold_left].
      assert (Hstep : rnd (acc + rnd (rnd (min_bound T upper - lower)
                                      * rnd rate))
                      == rounded_add T acc (lower, upper, rate)).
      { unfold rounded_add. rewrite Q.max_r by lra. reflexivity. }
      destruct Hp as (_ & _ & Hu). destruct upper as [u|].
      * destruct Hu as [_ Hprest].
        rewrite (IH _ _ _ HT Hprest Hrest Hrep).
        apply rounded_sum_comp, Hstep.
      * subst rest. cbn [rounded_tax fold_left]. exact Hstep.
Qed.

(** * The engine on Python's numbers *)

(** ** Operations that do not overflow *)

Lemma round_finite x j :
  0 <= x -> x <= pow2 j -> (-1074 <= j <= 1023)%Z ->
  Binary64.round x = Binary64.Finite (rnd x).
Proof.
  intros H0 Hx Hj. unfold Binary64.round.
  pose proof (rnd_nonneg x H0) as Hr0.
  pose proof (rnd_le_pow2 x j H0 ltac:(lia) Hx) as Hr.
  assert (Hlt : pow2 j < pow2 1024) by (apply pow2_lt; lia).
  pose proof (pow2_pos 1024) as Hpos. cbv zeta.
  destruct (Qle_bool (pow2 1024) (rnd x)) eqn:E1.
  { apply Qle_bool_iff in E1. lra. }
  destruct (Qle_bool (rnd x) (- pow2 1024)) eqn:E2.
  { apply Qle_bool_iff in E2. lra. }
  reflexivity.
Qed.

Lemma lit_finite r :
  0 <= r -> r <= 1 ->
  Binary64.lit r = Binary64.Flt (Binary64.Finite (rnd r)).
Proof.
  intros H0 H1. unfold Binary64.lit.
  rewrite (round_finite r 0); [reflexivity | exact H0 | exact H1 | lia].
Qed.

Lemma to_float_int z j :
  (0 <= z)%Z -> inject_Z z <= pow2 j -> (0 <= j <= 1023)%Z ->
  Binary64.to_float (Binary64.Int z)
  = Return (Binary64.Finite (rnd (inject_Z z))).
Proof.
  intros Hz Hle Hj. unfold Binary64.to_float.
  rewrite (round_finite (inject_Z z) j); [reflexivity | | exact Hle | lia].
  change 0 with (inject_Z 0). rewrite <- Zle_Qle. exact Hz.
Qed.

Lemma bounded_finite j n : Binary64.bounded j n -> Binary64.finite n.
Proof.
  destruct n as [z | [q | | |]]; cbn; intros H; try exact I; destruct H.
Qed.

Lemma bounded_val j n :
  Binary64.bounded j n ->
  representable (Binary64.val n) /\ Binary64.val n <= pow2 j.
Proof.
  destruct n as [z | [q | | |]]; cbn; intros H; try (destruct H; fail).
  - subst z. split; [apply representable_0|].
    apply Qlt_le_weak, (pow2_pos j).
  - exact H.
Qed.

Lemma bounded_weaken j j' n :
  (j <= j')%Z -> Binary64.bounded j n -> Binary64.bounded j' n.
Proof.
  intros Hj. destruct n as [z | [q | | |]]; cbn; trivial.
  intros [Hrep Hle]. split; [exact Hrep|].
  apply Qle_trans with (pow2 j); [exact Hle | apply pow2_le, Hj].
Qed.

Lemma bounded_rnd j x :
  0 <= x -> x <= pow2 j -> (-1074 <= j)%Z ->
  Binary64.bounded j (Binary64.Flt (Binary64.Finite (rnd x))).
Proof.
  intros H0 Hx Hj. split; [apply rnd_is_representable, H0|].
  apply rnd_le_pow2; assumption.
Qed.

Lemma to_float_bounded j n :
  Binary64.bounded j n -> (0 <= j <= 1023)%Z ->
  exists q, Binary64.to_float n = Return (Binary64.Finite q)
            /\ q == Binary64.val n.
Proof.
  intros Hb Hj. destruct n as [z | [q | | |]]; cbn in Hb;
    try (destruct Hb; fail).
  - subst z. exists (rnd (inject_Z 0)). split.
    + apply (to_float_int 0 j); [lia | | exact Hj].
      apply Qlt_le_weak, (pow2_pos j).
    + apply rnd_0.
  - exists q. split; reflexivity.
Qed.

(** An amount in rupees, or what the engine holds, turned into a float. *)
Lemma to_float_amount j n :
  Binary64.finite n -> 0 <= Binary64.val n -> Binary64.val n <= pow2 j ->
  (0 <= j <= 1023)%Z ->
  (match n with
   | Binary64.Int _ => True
   | Binary64.Flt _ => representable (Binary64.val n)
   end) ->
  exists q, Binary64.to_float n = Return (Binary64.Finite q)
            /\ q == rnd (Binary64.val n).
Proof.
  intros Hf H0 Hle Hj Hrep. destruct n as [z | [q | | |]]; cbn in Hf;
    try (destruct Hf; fail).
  - cbn in H0, Hle. exists (rnd (inject_Z z)). split; [|reflexivity].
    apply (to_float_int z j); [|exact Hle | exact Hj].
    rewrite Zle_Qle. exact H0.
  - exists q. split; [reflexivity|]. cbn in Hrep |- *.
    symmetry. apply rnd_representable, Hrep.
Qed.

(** The product with a rate literal. *)
Lemma mul_lit j n r :
  Binary64.finite n -> 0 <= Binary64.val n -> Binary64.val n <= pow2 j ->
  (0 <= j <= 1023)%Z ->
  (match n with
   | Binary64.Int _ => True
   | Binary64.Flt _ => representable (Binary64.val n)
   end) ->
  0 <= r -> r <= 1 ->
  exists p, Binary64.mul n (Binary64.lit r)
            = Return (Binary64.Flt (Binary64.Finite p))
            /\ p == rnd (rnd (Binary64.val n) * rnd r)
            /\ Binary64.bounded j (Binary64.Flt (Binary64.Finite p)).
Proof.
  intros Hf H0 Hle Hj Hrep Hr0 Hr1.
  destruct (to_float_amount j n Hf H0 Hle Hj Hrep) as (q & Hq & Eq).
  pose proof (rnd_nonneg _ H0) as Hq0.
  pose proof (rnd_le_pow2 _ j H0 ltac:(lia) Hle) as Hqj.
  pose proof (rnd_nonneg _ Hr0) as Hrr0.
  pose proof (rnd_le_pow2 r 0 Hr0 ltac:(lia) Hr1) as Hrr1.
  change (pow2 0) with 1 in Hrr1.
  assert (Hp0 : 0 <= q * rnd r) by (apply Qmult_le_0_compat; lra).
  assert (Hp1 : q * rnd r <= pow2 j).
  { assert (0 <= q * (1 - rnd r)) by (apply Qmult_le_0_compat; lra). lra. }
  exists (rnd (q * rnd r)). split; [|split].
  - rewrite (lit_finite r Hr0 Hr1). unfold Binary64.mul.
    destruct n as [z | f]; rewrite Hq; cbn;
      rewrite (round_finite (q * rnd r) j); try reflexivity;
      try assumption; lia.
  - rewrite Eq. reflexivity.
  - apply bounded_rnd; [exact Hp0 | exact Hp1 | lia].
Qed.

(** The sum of two values the engine holds. *)
Lemma add_bounded j a b :
  Binary64.bounded j a -> Binary64.bounded j b -> (0 <= j < 1023)%Z ->
  exists c, Binary64.add a b = Return c
            /\ Binary64.bounded (j + 1) c
            /\ Binary64.val c == rnd (Binary64.val a + Binary64.val b).
Proof.
  intros Ha Hb Hj.
  destruct (to_float_bounded j a Ha ltac:(lia)) as (qa & Hqa & Ea).
  destruct (to_float_bounded j b Hb ltac:(lia)) as (qb & Hqb & Eb).
  destruct (bounded_val j a Ha) as [Ra La].
  destruct (bounded_val j b Hb) as [Rb Lb].
  pose proof (representable_nonneg _ Ra) as Na.
  pose proof (representable_nonneg _ Rb) as Nb.
  assert (Hsum : Binary64.fadd (Binary64.Finite qa) (Binary64.Finite qb)
                 = Binary64.Finite (rnd (qa + qb))).
  { cbn. apply (round_finite _ (j + 1)); [lra | | lia].
    rewrite pow2_succ. lra. }
  assert (Hfloat : Binary64.bounded (j + 1)
                     (Binary64.Flt (Binary64.Finite (rnd (qa + qb))))
                   /\ rnd (qa + qb)
                      == rnd (Binary64.val a + Binary64.val b)).
  { split; [|rewrite Ea, Eb; reflexivity].
    apply bounded_rnd; [lra | rewrite pow2_succ; lra | lia]. }
  destruct a as [x | fa], b as [y | fb].
  - cbn in Ha, Hb. subst x y. exists (Binary64.Int (0 + 0)).
    split; [reflexivity|]. split; [reflexivity|]. cbn. symmetry.
    apply rnd_zero. reflexivity.
  - exists (Binary64.Flt (Binary64.Finite (rnd (qa + qb)))).
    unfold Binary64.add. rewrite Hqa, Hqb. cbn -[Binary64.fadd].
    rewrite Hsum. split; [reflexivity | exact Hfloat].
  - exists (Binary64.Flt (Binary64.Finite (rnd (qa + qb)))).
    unfold Binary64.add. rewrite Hqa, Hqb. cbn -[Binary64.fadd].
    rewrite Hsum. split; [reflexivity | exact Hfloat].
  - exists (Binary64.Flt (Binary64.Finite (rnd (qa + qb)))).
    unfold Binary64.add. rewrite Hqa, Hqb. cbn -[Binary64.fadd].
    rewrite Hsum. split; [reflexivity | exact Hfloat].
Qed.

(** The difference of a value the engine holds and a smaller one. *)
Lemma sub_bounded j a b :
  Binary64.bounded j a -> Binary64.finite b ->
  representable (Binary64.val b) -> Binary64.val b <= Binary64.val a ->
  (0 <= j <= 1023)%Z ->
  exists c, Binary64.sub a b = Return c
            /\ Binary64.bounded j c
            /\ Binary64.val c == rnd (Binary64.val a - Binary64.val b).
Proof.
  intros Ha Hf Rb Hle Hj.
  destruct (to_float_bounded j a Ha Hj) as (qa & Hqa & Ea).
  destruct (bounded_val j a Ha) as [Ra La].
  pose proof (representable_nonneg _ Ra) as Na.
  pose proof (representable_nonneg _ Rb) as Nb.
  destruct (to_float_amount j b Hf Nb ltac:(lra) Hj) as (qb & Hqb & Eb).
  { destruct b; [exact I | exact Rb]. }
  rewrite (rnd_representable _ Rb) in Eb.
  assert (Hdiff : Binary64.fsub (Binary64.Finite qa) (Binary64.Finite qb)
                  = Binary64.Finite (rnd (qa + - qb))).
  { cbn. apply (round_finite _ j); [lra | lra | lia]. }
  assert (Hfloat : Binary64.bounded j
                     (Binary64.Flt (Binary64.Finite (rnd (qa + - qb))))
                   /\ rnd (qa + - qb)
                      == rnd (Binary64.val a - Binary64.val b)).
  { split; [apply bounded_rnd; [lra | lra | lia]|].
    rewrite Ea, Eb. reflexivity. }
  destruct a as [x | fa], b as [y | fb].
  - cbn in Ha. subst x. cbn in Hle, Nb.
    assert (y = 0%Z).
    { change 0 with (inject_Z 0) in Nb. rewrite <- Zle_Qle in Hle, Nb. lia. }
    subst y. exists (Binary64.Int (0 - 0)).
    split; [reflexivity|]. split; [reflexivity|]. cbn. symmetry.
    apply rnd_zero. reflexivity.
  - exists (Binary64.Flt (Binary64.Finite (rnd (qa + - qb)))).
    unfold Binary64.sub. rewrite Hqa, Hqb. cbn -[Binary64.fsub].
    rewrite Hdiff. split; [reflexivity | exact Hfloat].
  - exists (Binary64.Flt (Binary64.Finite (rnd (qa + - qb)))).
    unfold Binary64.sub. rewrite Hqa, Hqb. cbn -[Binary64.fsub].
    rewrite Hdiff. split; [reflexivity | exact Hfloat].
  - exists (Binary64.Flt (Binary64.Finite (rnd (qa + - qb)))).
    unfold Binary64.sub. rewrite Hqa, Hqb. cbn -[Binary64.fsub].
    rewrite Hdiff. split; [reflexivity | exact Hfloat].
Qed.

(** ** Comparisons *)

Lemma le_finite a b :
  Binary64.finite a -> Binary64.finite b ->
  (Binary64.le a b = true <-> Binary64.val a <= Binary64.val b).
Proof.
  unfold Binary64.finite, Binary64.le, Binary64.compare, Binary64.val.
  destruct (Binary64.exact a) as [x | | |], (Binary64.exact b) as [y | | |];
    try contradiction. intros _ _.
  destruct (Qcompare_spec x y); split; intros Hc; try reflexivity;
    try discriminate; lra.
Qed.

Lemma gt_finite a b :
  Binary64.finite a -> Binary64.finite b ->
  (Binary64.gt a b = true <-> Binary64.val b < Binary64.val a).
Proof.
  unfold Binary64.finite, Binary64.gt, Binary64.compare, Binary64.val.
  destruct (Binary64.exact a) as [x | | |], (Binary64.exact b) as [y | | |];
    try contradiction. intros _ _.
  destruct (Qcompare_spec x y); split; intros Hc; try reflexivity;
    try discriminate; lra.
Qed.

Lemma lt_finite a b :
  Binary64.finite a -> Binary64.finite b ->
  (Binary64.lt a b = true <-> Binary64.val a < Binary64.val b).
Proof.
  unfold Binary64.finite, Binary64.lt, Binary64.compare, Binary64.val.
  destruct (Binary64.exact a) as [x | | |], (Binary64.exact b) as [y | | |];
    try contradiction. intros _ _.
  destruct (Qcompare_spec x y); split; intros Hc; try reflexivity;
    try discriminate; lra.
Qed.

Lemma le_leb a b :
  Binary64.finite a -> Binary64.finite b ->
  Binary64.le a b = leb (Binary64.val a) (Binary64.val b).
Proof.
  intros Ha Hb. pose proof (le_finite a b Ha Hb) as H.
  pose proof (leb_le (Binary64.val a) (Binary64.val b)) as H'.
  destruct (Binary64.le a b), (leb (Binary64.val a) (Binary64.val b));
    try reflexivity.
  - symmetry. apply H', H. reflexivity.
  - apply H, H'. reflexivity.
Qed.

Lemma gt_gtb a b :
  Binary64.finite a -> Binary64.finite b ->
  Binary64.gt a b = gtb (Binary64.val a) (Binary64.val b).
Proof.
  intros Ha Hb. pose proof (gt_finite a b Ha Hb) as H.
  pose proof (gtb_lt (Binary64.val a) (Binary64.val b)) as H'.
  destruct (Binary64.gt a b), (gtb (Binary64.val a) (Binary64.val b));
    try reflexivity.
  - symmetry. apply H', H. reflexivity.
  - apply H, H'. reflexivity.
Qed.

(** [min] of an income and the upper bound of a slab. *)
Lemma min_same_bound T upper64 upper :
  same_bound upper64 upper ->
  exists m, Binary64.min (Binary64.Int T) upper64 = Binary64.Int m
            /\ inject_Z m == min_bound (inject_Z T) upper.
Proof.
  destruct upper as [u|]; cbn [same_bound min_bound].
  - intros (z & -> & Hu). unfold Binary64.min.
    pose proof (lt_finite (Binary64.Int z) (Binary64.Int T) I I) as Hlt.
    cbn [Binary64.val Binary64.exact] in Hlt.
    destruct (Binary64.lt (Binary64.Int z) (Binary64.Int T)).
    + exists z. split; [reflexivity|].
      assert (inject_Z z < inject_Z T) by (apply Hlt; reflexivity).
      rewrite Q.min_r by lra. lra.
    + exists T. split; [reflexivity|].
      assert (~ inject_Z z < inject_Z T)
        by (intros H; apply Hlt in H; discriminate).
      rewrite Q.min_l by lra. reflexivity.
  - intros ->. exists T. split; reflexivity.
Qed.

(** [max(0, n)] of an [int]. *)
Lemma max_zero_int z :
  Binary64.max (Binary64.Int 0) (Binary64.Int z) = Binary64.Int (Z.max 0 z).
Proof.
  unfold Binary64.max.
  pose proof (gt_finite (Binary64.Int z) (Binary64.Int 0) I I) as Hgt.
  cbn [Binary64.val Binary64.exact] in Hgt.
  rewrite <- Zlt_Qlt in Hgt.
  destruct (Binary64.gt (Binary64.Int z) (Binary64.Int 0)).
  - f_equal. assert (0 < z)%Z by (apply Hgt; reflexivity). lia.
  - f_equal. assert (~ (0 < z)%Z) by (intros H; apply Hgt in H; discriminate).
    lia.
Qed.

(** ** The two tables *)

Lemma same_slab_plain s64 s : same_slab s64 s -> plain_slab s.
Proof.
  destruct s64 as [[lower64 upper64] rate64], s as [[lower upper] rate].
  intros ((z & _ & _ & Hl) & _ & Hr). split; cbn.
  - exists z. exact Hl.
  - destruct Hr as [[_ Hr] | [_ Hr]]; [left | right]; exact Hr.
Qed.

Lemma same_slabs_plain slabs64 slabs :
  Forall2 same_slab slabs64 slabs -> Forall plain_slab slabs.
Proof.
  induction 1 as [|s64 s rest64 rest Hs _ IH]; constructor;
    [exact (same_slab_plain _ _ Hs) | exact IH].
Qed.

Ltac same_slab_table :=
  cbn [same_slab same_bound];
  split; [eexists; split; [reflexivity | split; [lia | reflexivity]]|];
  split; [first [reflexivity | eexists; split; reflexivity]|];
  first [ left; split; reflexivity
        | right; split; [reflexivity|]; split; vm_compute; discriminate ].

Lemma tables_agree fy_ay cfg :
  get_tax_slabs fy_ay = Some cfg ->
  exists cfg64,
    Binary64.get_tax_slabs fy_ay = Some cfg64
    /\ Forall2 same_slab (Binary64.slabs cfg64) (slabs cfg)
    /\ (exists limit, Binary64.rebate_limit cfg64 = Binary64.Int limit
                      /\ rebate_limit cfg == inject_Z limit)
    /\ (exists cap, Binary64.rebate_max cfg64 = Binary64.Int cap
                    /\ (0 <= cap < 2 ^ 53)%Z
                    /\ rebate_max cfg == inject_Z cap)
    /\ (exists deduction,
          Binary64.standard_deduction cfg64 = Binary64.Int deduction
          /\ (0 <= deduction < 2 ^ 53)%Z
          /\ standard_deduction cfg == inject_Z deduction)
    /\ (exists threshold,
          Binary64.advance_tax_threshold cfg64 = Binary64.Int threshold
          /\ advance_tax_threshold cfg == inject_Z threshold).
Proof.
  intros H.
  by_year H; (eexists; split; [reflexivity|]); cbn [Binary64.slabs slabs
    Binary64.rebate_limit Binary64.rebate_max Binary64.standard_deduction
    Binary64.advance_tax_threshold rebate_limit rebate_max
    standard_deduction advance_tax_threshold].
  all: split;
    [ repeat (constructor; [same_slab_table|]); constructor
    | repeat split; eexists; (split; [reflexivity|]); try (split; [lia|]);
      reflexivity ].
Qed.

(** ** The slab loop *)

(** The tax of one slab: the [int] 0 at the rate 0, the rounded product of
    the amount and the rate otherwise. *)
Lemma slab_tax_rounded j amount rate64 rate :
  (0 <= amount)%Z -> inject_Z amount <= pow2 j -> (0 <= j <= 1023)%Z ->
  rate64 = Binary64.Int 0 /\ rate == 0
  \/ rate64 = Binary64.lit rate /\ pow2 (-10) <= rate /\ rate <= 1 ->
  exists slab_tax,
    Binary64.mul (Binary64.Int amount) rate64 = Return slab_tax
    /\ Binary64.bounded j slab_tax
    /\ Binary64.val slab_tax == rnd (rnd (inject_Z amount) * rnd rate).
Proof.
  intros Ha Hle Hj [[-> Hr] | (-> & Hlo & Hhi)].
  - exists (Binary64.Int (amount * 0)). split; [reflexivity|].
    split; [cbn; lia|]. cbn. rewrite Z.mul_0_r. symmetry.
    apply rnd_zero. rewrite (rnd_zero rate Hr). ring.
  - assert (H0 : 0 <= inject_Z amount)
      by (change 0 with (inject_Z 0); rewrite <- Zle_Qle; exact Ha).
    destruct (mul_lit j (Binary64.Int amount) rate I H0 Hle Hj I)
      as (p & Hp & Ep & Hb); [pose proof (pow2_pos (-10)); lra | exact Hhi|].
    exists (Binary64.Flt (Binary64.Finite p)).
    split; [exact Hp|]. split; [exact Hb | exact Ep].
Qed.

(** On a whole income the loop on Python's numbers returns, and its tax is
    the rounded tax. *)
Lemma slab_loop_rounded T j :
  (0 <= T)%Z -> inject_Z T <= pow2 j -> (0 <= j)%Z ->
  forall slabs64 slabs, Forall2 same_slab slabs64 slabs ->
  forall start prev_rate tax bd i,
    progressive start prev_rate slabs ->
    Binary64.bounded i tax -> (j <= i)%Z ->
    (i + Z.of_nat (length slabs) <= 1023)%Z ->
    exists tax' bd',
      Binary64.slab_loop (Binary64.Int T) slabs64 tax bd = Return (tax', bd')
      /\ Binary64.bounded (i + Z.of_nat (length slabs)) tax'
      /\ Binary64.val tax'
         == rounded_tax (inject_Z T) slabs (Binary64.val tax).
Proof.
  intros HT HTj Hj slabs64 slabs Hsame.
  induction Hsame as [|[[lower64 upper64] rate64] [[lower upper] rate]
                       rest64 rest Hs Hrest IH];
    intros start prev tax bd i Hp Hb Hji Hlen.
  - destruct Hp.
  - destruct Hs as ((lz & -> & Hlz & Hl) & Hu & Hr).
    cbn [Binary64.slab_loop rounded_tax length] in *.
    rewrite (le_leb (Binary64.Int T) (Binary64.Int lz) I I).
    cbn [Binary64.val Binary64.exact].
    assert (Hleb : leb (inject_Z T) (inject_Z lz) = leb (inject_Z T) lower).
    { pose proof (leb_le (inject_Z T) (inject_Z lz)) as H1.
      pose proof (leb_le (inject_Z T) lower) as H2.
      destruct (leb (inject_Z T) (inject_Z lz)), (leb (inject_Z T) lower);
        try reflexivity.
      - symmetry. apply H2. rewrite Hl. apply H1. reflexivity.
      - apply H1. rewrite <- Hl. apply H2. reflexivity. }
    rewrite Hleb. destruct (leb (inject_Z T) lower) eqn:E.
    + exists tax, bd. split; [reflexivity|]. split; [|reflexivity].
      apply (bounded_weaken i); [lia | exact Hb].
    + apply leb_gt in E.
      destruct (min_same_bound T upper64 upper Hu) as (m & -> & Hm).
      assert (Hamount : inject_Z (m - lz) == min_bound (inject_Z T) upper - lower)
        by (unfold Zminus; rewrite inject_Z_plus, inject_Z_opp, Hm, Hl; ring).
      assert (Hpos : 0 < min_bound (inject_Z T) upper - lower).
      { destruct Hp as (_ & _ & Hup). destruct upper as [u|]; cbn [min_bound].
        - destruct Hup as [Hlu _]. case_minmax; lra.
        - lra. }
      assert (Ha0 : (0 <= m - lz)%Z).
      { rewrite Zle_Qle. change (inject_Z 0) with 0. lra. }
      assert (Haj : inject_Z (m - lz) <= pow2 i).
      { pose proof (min_bound_le (inject_Z T) upper) as Hmin.
        assert (0 <= lower).
        { rewrite Hl. change 0 with (inject_Z 0). rewrite <- Zle_Qle.
          exact Hlz. }
        pose proof (pow2_le j i Hji). lra. }
      cbn [Binary64.sub mbind py_bind].
      destruct (slab_tax_rounded i (m - lz) rate64 rate Ha0 Haj
                  ltac:(lia) Hr) as (slab_tax & Hmul & Hbs & Es).
      rewrite Hmul. cbn [mbind py_bind].
      destruct (add_bounded i tax slab_tax Hb Hbs ltac:(lia))
        as (tax1 & Hadd & Hb1 & E1).
      rewrite Hadd. cbn [mbind py_bind].
      destruct Hp as (_ & _ & Hup).
      assert (Hstep : Binary64.val tax1
                      == rnd (Binary64.val tax
                              + rnd (rnd (min_bound (inject_Z T) upper - lower)
                                     * rnd rate))).
      { rewrite E1, Es, Hamount. reflexivity. }
      destruct upper as [u|].
      * destruct Hup as [_ Hprest].
        match goal with
        | |- context [Binary64.slab_loop _ rest64 tax1 ?b] =>
            destruct (IH _ _ tax1 b (i + 1)%Z Hprest Hb1 ltac:(lia)
                        ltac:(lia)) as (tax' & bd' & Hloop & Hb' & E')
        end.
        exists tax', bd'. split; [exact Hloop|]. split.
        -- replace (i + Z.of_nat (S (length rest)))%Z
             with (i + 1 + Z.of_nat (length rest))%Z by lia. exact Hb'.
        -- rewrite E'. apply rounded_tax_comp, Hstep.
      * subst rest. inversion Hrest; subst.
        cbn [Binary64.slab_loop rounded_tax length].
        eexists. eexists. split; [reflexivity|]. split; [|exact Hstep].
        replace (i + Z.of_nat 1)%Z with (i + 1)%Z by lia. exact Hb1.
Qed.

(** ** The slab tax on Python's numbers *)

Lemma slabs_length fy_ay cfg :
  get_tax_slabs fy_ay = Some cfg -> length (slabs cfg) = 6%nat.
Proof. intros H. by_year H; reflexivity. Qed.

Lemma below_pow2 z j : (0 <= j)%Z -> (z < 2 ^ j)%Z -> inject_Z z <= pow2 j.
Proof.
  intros Hj Hz. rewrite (pow2_Z j Hj), <- Zle_Qle. lia.
Qed.

Lemma calculate_income_tax_rounded fy_ay cfg T j :
  get_tax_slabs fy_ay = Some cfg ->
  (0 <= T)%Z -> inject_Z T <= pow2 j -> (0 <= j <= 1017)%Z ->
  exists tax bd,
    Binary64.calculate_income_tax (Binary64.Int T) fy_ay = Return (tax, bd)
    /\ Binary64.bounded (j + 6) tax
    /\ Binary64.val tax == rounded_tax (inject_Z T) (slabs cfg) 0.
Proof.
  intros H HT HTj Hj.
  destruct (tables_agree _ _ H) as (cfg64 & H64 & Hsame & _).
  pose proof (slabs_progressive _ _ H) as Hp.
  pose proof (slabs_length _ _ H) as Hlen.
  unfold Binary64.calculate_income_tax. rewrite H64.
  cbn [Binary64.getitem mbind py_bind].
  destruct (slab_loop_rounded T j HT HTj ltac:(lia) _ _ Hsame 0 0
              (Binary64.Int 0) [] j Hp eq_refl ltac:(lia)
              ltac:(rewrite Hlen; lia))
    as (tax & bd & Hloop & Hb & E).
  exists tax, bd. split; [exact Hloop|]. rewrite Hlen in Hb.
  split; [exact Hb | exact E].
Qed.

Lemma whole_Z z : whole (inject_Z z).
Proof. exists z. reflexivity. Qed.

(** The rounded tax of a supported year: the sum over all slabs in
    binary64, close to the exact sum, and not decreasing. *)
Lemma rounded_tax_supported fy_ay cfg :
  get_tax_slabs fy_ay = Some cfg ->
  (forall T : Z,
      rounded_tax (inject_Z T) (slabs cfg) 0
      == rounded_reference (inject_Z T) (slabs cfg))
  /\ (forall T : Z,
        near 10 (rounded_tax (inject_Z T) (slabs cfg) 0)
             (reference_tax (inject_Z T) (slabs cfg)))
  /\ (forall T1 T2 : Z,
        (T1 <= T2)%Z ->
        rounded_tax (inject_Z T1) (slabs cfg) 0
        <= rounded_tax (inject_Z T2) (slabs cfg) 0).
Proof.
  intros H. pose proof (slabs_progressive _ _ H) as Hp.
  pose proof (slabs_length _ _ H) as Hlen.
  destruct (tables_agree _ _ H) as (cfg64 & _ & Hsame & _).
  pose proof (same_slabs_plain _ _ Hsame) as Hplain.
  split; [|split].
  - intros T. apply (rounded_tax_reference _ _ 0 0);
      [apply whole_Z | exact Hp | exact Hplain | apply representable_0].
  - intros T.
    pose proof (rounded_tax_near (inject_Z T) (slabs cfg) 0 0 4 0 0
                  (whole_Z T) Hp Hplain) as Hn.
    rewrite Hlen in Hn. change (4 + Z.of_nat 6)%Z with 10%Z in Hn.
    eapply near_comp; [reflexivity | | apply Hn].
    + ring.
    + lra.
    + lra.
    + unfold near. split; lra.
    + left. reflexivity.
    + lia.
    + lia.
  - intros T1 T2 HT.
    apply (rounded_tax_mono _ _ _ 0 0);
      [apply whole_Z | apply whole_Z | rewrite <- Zle_Qle; exact HT
      | exact Hp | exact Hplain | apply representable_0
      | apply representable_0 | lra].
Qed.

(** Takes a table apart at each of its slabs. *)
Ltac split_table H :=
  repeat match type of H with
         | _ = ?pre ++ _ =>
             destruct pre as [|? pre]; cbn [app] in H;
             [|first [discriminate H | injection H as <- H]]
         end.

(** ** Capital gains on Python's numbers *)

Lemma inject_Z_max_0 z : inject_Z (Z.max 0 z) == Qmax 0 (inject_Z z).
Proof.
  destruct (Z.le_gt_cases z 0) as [H | H].
  - rewrite Z.max_l by lia. rewrite Q.max_l; [reflexivity|].
    change 0 with (inject_Z 0). rewrite <- Zle_Qle. exact H.
  - rewrite Z.max_r by lia. rewrite Q.max_r; [reflexivity|].
    change 0 with (inject_Z 0). rewrite <- Zle_Qle. lia.
Qed.

Lemma inject_Z_nonneg z : (0 <= z)%Z -> 0 <= inject_Z z.
Proof. intros H. change 0 with (inject_Z 0). rewrite <- Zle_Qle. exact H. Qed.

(** The rounded product of a whole amount and a rate follows the exact
    product. *)
Lemma rounded_product_near amount rate :
  (0 <= amount)%Z -> pow2 (-10) <= rate -> rate <= 1 ->
  near 4 (rnd (rnd (inject_Z amount) * rnd rate)) (rate * inject_Z amount).
Proof.
  intros Ha Hlo Hhi. destruct (Z.eq_dec amount 0%Z) as [-> | Hne].
  - apply (near_comp 4 0 _ 0); [| ring | unfold near; split; lra].
    symmetry. apply rnd_zero. rewrite rnd_0. ring.
  - assert (H1 : 1 <= inject_Z amount)
      by (change 1 with (inject_Z 1); rewrite <- Zle_Qle; lia).
    destruct (rounded_slab_tax (inject_Z amount) rate H1)
      as (_ & _ & _ & Hn & _); [right; split; assumption|].
    eapply near_comp; [reflexivity | | exact Hn]. ring.
Qed.

Lemma calculate_capital_gains_tax_rounded stcg ltcg j :
  (0 <= stcg)%Z -> (0 <= ltcg)%Z ->
  inject_Z stcg <= pow2 j -> inject_Z ltcg <= pow2 j -> (0 <= j <= 1023)%Z ->
  exists stcg_tax ltcg_tax,
    Binary64.calculate_capital_gains_tax (Binary64.Int stcg)
      (Binary64.Int ltcg) = Return (stcg_tax, ltcg_tax)
    /\ Binary64.bounded j stcg_tax /\ Binary64.bounded j ltcg_tax
    /\ Binary64.val stcg_tax == rnd (rnd (inject_Z stcg) * rnd 0.15)
    /\ Binary64.val ltcg_tax
       == rnd (rnd (Qmax 0 (inject_Z ltcg - 100000)) * rnd 0.10).
Proof.
  intros Hs Hl Hsj Hlj Hj. unfold Binary64.calculate_capital_gains_tax.
  destruct (mul_lit j (Binary64.Int stcg) 0.15 I (inject_Z_nonneg _ Hs)
              Hsj Hj I) as (p & Hp & Ep & Hbp); [discriminate..|].
  rewrite Hp. cbn [mbind py_bind Binary64.sub]. rewrite max_zero_int.
  assert (Hgain : inject_Z (Z.max 0 (ltcg - 100000))
                  == Qmax 0 (inject_Z ltcg - 100000)).
  { rewrite inject_Z_max_0. unfold Zminus.
    rewrite inject_Z_plus, inject_Z_opp. reflexivity. }
  assert (Hg0 : (0 <= Z.max 0 (ltcg - 100000))%Z) by lia.
  assert (Hgj : inject_Z (Z.max 0 (ltcg - 100000)) <= pow2 j).
  { apply Qle_trans with (inject_Z ltcg); [|exact Hlj].
    rewrite <- Zle_Qle. lia. }
  destruct (mul_lit j (Binary64.Int (Z.max 0 (ltcg - 100000))) 0.10 I
              (inject_Z_nonneg _ Hg0) Hgj Hj I)
    as (q & Hq & Eq & Hbq); [discriminate..|].
  rewrite Hq. cbn [mbind py_bind].
  eexists. eexists. split; [reflexivity|].
  split; [exact Hbp|]. split; [exact Hbq|].
  split; [exact Ep|]. cbn [Binary64.val Binary64.exact] in *.
  rewrite Eq, Hgain. reflexivity.
Qed.

(** ** Surcharge and cess on Python's numbers *)

Lemma surcharge_rate_values T :
  (surcharge_rate T == 0 /\ rnd (surcharge_rate T) == 0
   \/ pow2 (-10) <= surcharge_rate T)
  /\ 0 <= surcharge_rate T /\ surcharge_rate T <= 1.
Proof.
  unfold surcharge_rate.
  destruct (gtb T 5000000); [|split; [left; split; reflexivity|];
                              split; discriminate].
  destruct (leb T 10000000); [split; [right|split]; discriminate|].
  destruct (leb T 20000000); [split; [right|split]; discriminate|].
  destruct (leb T 50000000); split; try split; try right; discriminate.
Qed.

Lemma surcharge_rate_mono T1 T2 :
  T1 <= T2 -> surcharge_rate T1 <= surcharge_rate T2.
Proof.
  intros H. unfold surcharge_rate. case_tests; try lra; discriminate.
Qed.

(** The surcharge: the [int] 0 up to 50 lakh, the rounded product of the
    band above. *)
Lemma surcharge_rounded R T j :
  Binary64.bounded j R -> (0 <= j <= 1023)%Z ->
  exists surcharge,
    (if Binary64.gt (Binary64.Int T) (Binary64.Int 5000000) then
       if Binary64.le (Binary64.Int T) (Binary64.Int 10000000) then
         Binary64.mul R (Binary64.lit 0.10)
       else if Binary64.le (Binary64.Int T) (Binary64.Int 20000000) then
         Binary64.mul R (Binary64.lit 0.15)
       else if Binary64.le (Binary64.Int T) (Binary64.Int 50000000) then
         Binary64.mul R (Binary64.lit 0.25)
       else Binary64.mul R (Binary64.lit 0.37)
     else Return (Binary64.Int 0)) = Return surcharge
    /\ Binary64.bounded j surcharge
    /\ Binary64.val surcharge
       == rnd (Binary64.val R * rnd (surcharge_rate (inject_Z T)))
    /\ ((T <= 5000000)%Z -> surcharge = Binary64.Int 0).
Proof.
  intros Hb Hj. destruct (bounded_val j R Hb) as [Rrep Rle].
  pose proof (representable_nonneg _ Rrep) as R0.
  pose proof (bounded_finite _ _ Hb) as Rf.
  assert (Hmul : forall r, 0 <= r -> r <= 1 ->
            exists p, Binary64.mul R (Binary64.lit r) = Return p
                      /\ Binary64.bounded j p
                      /\ Binary64.val p == rnd (Binary64.val R * rnd r)).
  { intros r Hr0 Hr1.
    destruct (mul_lit j R r Rf R0 Rle Hj) as (p & Hp & Ep & Hbp);
      [destruct R; [exact I | exact Rrep] | exact Hr0 | exact Hr1|].
    exists (Binary64.Flt (Binary64.Finite p)). split; [exact Hp|].
    split; [exact Hbp|]. cbn [Binary64.val Binary64.exact].
    rewrite Ep, (rnd_representable _ Rrep). reflexivity. }
  rewrite (gt_gtb (Binary64.Int T) (Binary64.Int 5000000) I I).
  rewrite (le_leb (Binary64.Int T) (Binary64.Int 10000000) I I).
  rewrite (le_leb (Binary64.Int T) (Binary64.Int 20000000) I I).
  rewrite (le_leb (Binary64.Int T) (Binary64.Int 50000000) I I).
  cbn [Binary64.val Binary64.exact]. unfold surcharge_rate.
  change (inject_Z 5000000) with 5000000.
  change (inject_Z 10000000) with 10000000.
  change (inject_Z 20000000) with 20000000.
  change (inject_Z 50000000) with 50000000.
  destruct (gtb (inject_Z T) 5000000) eqn:E.
  - apply gtb_lt in E.
    assert (Hnot : (T <= 5000000)%Z -> False).
    { intros HT. rewrite Zle_Qle in HT.
      change (inject_Z 5000000) with 5000000 in HT. lra. }
    destruct (leb (inject_Z T) 10000000);
      [|destruct (leb (inject_Z T) 20000000);
        [|destruct (leb (inject_Z T) 50000000)]].
    all: match goal with
         | |- context [Binary64.lit ?r] =>
             destruct (Hmul r) as (p & Hp & Hbp & Ep); [discriminate..|]
         end;
      exists p; split; [exact Hp|]; split; [exact Hbp|];
      split; [exact Ep | intros HT; destruct (Hnot HT)].
  - exists (Binary64.Int 0). split; [reflexivity|]. split; [reflexivity|].
    split; [|reflexivity]. cbn. symmetry. apply rnd_zero.
    rewrite rnd_0. ring.
Qed.

Lemma calculate_cess_and_surcharge_rounded R T j :
  Binary64.bounded j R -> (0 <= j < 1023)%Z ->
  exists surcharge cess,
    Binary64.calculate_cess_and_surcharge R (Binary64.Int T)
    = Return (surcharge, cess)
    /\ Binary64.bounded j surcharge /\ Binary64.bounded (j + 1) cess
    /\ Binary64.val surcharge
       == rnd (Binary64.val R * rnd (surcharge_rate (inject_Z T)))
    /\ Binary64.val cess
       == rnd (rnd (Binary64.val R + Binary64.val surcharge) * rnd 0.04)
    /\ ((T <= 5000000)%Z -> surcharge = Binary64.Int 0).
Proof.
  intros Hb Hj. unfold Binary64.calculate_cess_and_surcharge.
  destruct (surcharge_rounded R T j Hb ltac:(lia))
    as (surcharge & Hs & Hbs & Es & Hzero).
  rewrite Hs. cbn [mbind py_bind].
  destruct (add_bounded j R surcharge Hb Hbs Hj) as (base & Hadd & Hbb & Eb).
  rewrite Hadd. cbn [mbind py_bind].
  destruct (bounded_val _ _ Hbb) as [Brep Ble].
  destruct (mul_lit (j + 1) base 0.04 (bounded_finite _ _ Hbb)
              (representable_nonneg _ Brep) Ble ltac:(lia))
    as (p & Hp & Ep & Hbp);
    [destruct base; [exact I | exact Brep] | discriminate..|].
  rewrite Hp. cbn [mbind py_bind].
  eexists. eexists. split; [reflexivity|].
  split; [exact Hbs|]. split; [exact Hbp|]. split; [exact Es|].
  split; [|exact Hzero]. cbn [Binary64.val Binary64.exact].
  rewrite Ep, (rnd_representable _ Brep), Eb. reflexivity.
Qed.

(** ** The rebate on Python's numbers *)

Lemma leb_comp a b b' : b == b' -> leb a b = leb a b'.
Proof.
  intros Hb. pose proof (leb_le a b) as H1. pose proof (leb_le a b') as H2.
  destruct (leb a b), (leb a b'); try reflexivity.
  - symmetry. apply H2. rewrite <- Hb. apply H1. reflexivity.
  - apply H1. rewrite Hb. apply H2. reflexivity.
Qed.

Lemma calculate_rebate_87a_bounded fy_ay cfg gross T j :
  get_tax_slabs fy_ay = Some cfg -> Binary64.bounded j gross ->
  exists rebate,
    Binary64.calculate_rebate_87a gross (Binary64.Int T) fy_ay = Return rebate
    /\ Binary64.finite rebate
    /\ representable (Binary64.val rebate)
    /\ Binary64.val rebate <= Binary64.val gross
    /\ Binary64.val rebate
       == (if leb (inject_Z T) (rebate_limit cfg)
           then Qmin (Binary64.val gross) (rebate_max cfg) else 0).
Proof.
  intros H Hb.
  destruct (tables_agree _ _ H)
    as (cfg64 & H64 & _ & (limit & Hlimit & El) & (cap & Hcap & Hc & Ec) & _).
  destruct (bounded_val j gross Hb) as [Grep _].
  pose proof (representable_nonneg _ Grep) as G0.
  pose proof (bounded_finite _ _ Hb) as Gf.
  unfold Binary64.calculate_rebate_87a. rewrite H64.
  cbn [Binary64.getitem mbind py_bind]. rewrite Hlimit, Hcap.
  rewrite (le_leb (Binary64.Int T) (Binary64.Int limit) I I).
  cbn [Binary64.val Binary64.exact].
  rewrite <- (leb_comp (inject_Z T) _ _ El).
  destruct (leb (inject_Z T) (rebate_limit cfg)).
  - unfold Binary64.min.
    pose proof (lt_finite (Binary64.Int cap) gross I Gf) as Hlt.
    cbn [Binary64.val Binary64.exact] in Hlt.
    destruct (Binary64.lt (Binary64.Int cap) gross).
    + assert (inject_Z cap < Binary64.val gross) by (apply Hlt; reflexivity).
      exists (Binary64.Int cap). split; [reflexivity|]. split; [exact I|].
      cbn [Binary64.val Binary64.exact].
      split; [apply representable_Z, Hc|]. split; [lra|].
      rewrite Q.min_r by lra. symmetry. exact Ec.
    + assert (~ inject_Z cap < Binary64.val gross)
        by (intros Hx; apply Hlt in Hx; discriminate).
      exists gross. split; [reflexivity|]. split; [exact Gf|].
      split; [exact Grep|]. split; [lra|].
      rewrite Q.min_l by lra. reflexivity.
  - exists (Binary64.Int 0). split; [reflexivity|]. split; [exact I|].
    cbn [Binary64.val Binary64.exact].
    split; [apply representable_0|]. split; [exact G0 | reflexivity].
Qed.

(** ** The total on Python's numbers *)

Lemma get_rupees details key :
  Binary64.form_input details ->
  exists z, Binary64.get details key (Binary64.Int 0) = Binary64.Int z
            /\ (0 <= z < 2 ^ 1000)%Z.
Proof.
  intros Hform. unfold Binary64.get.
  destruct (details !! key) as [v|] eqn:E; cbn.
  - exact (Hform _ _ E).
  - exists 0%Z. split; [reflexivity|]. split; [lia | reflexivity].
Qed.

(** The taxable income is a whole amount: the form stores whole amounts
    and the derivation adds, subtracts and floors them. *)
Lemma taxable_income_whole details fy_ay cfg employment_type :
  get_tax_slabs fy_ay = Some cfg -> Binary64.form_input details ->
  exists T,
    (if String.eqb employment_type "Salaried" then
       salary ← Binary64.add
                  (Binary64.get details "basic_salary" (Binary64.Int 0))
                  (Binary64.get details "hra" (Binary64.Int 0));
       gross_salary ← Binary64.add salary
                        (Binary64.get details "bonus" (Binary64.Int 0));
       let config := Binary64.get_tax_slabs fy_ay in
       deduction ← Binary64.getitem config Binary64.standard_deduction;
       net ← Binary64.sub gross_salary deduction;
       Return (Binary64.max (Binary64.Int 0) net)
     else if String.eqb employment_type "Rental" then
       rent ← Binary64.sub
                (Binary64.get details "rent_received" (Binary64.Int 0))
                (Binary64.get details "municipal_tax" (Binary64.Int 0));
       rental_income ← Binary64.sub rent
                         (Binary64.get details "interest_paid"
                            (Binary64.Int 0));
       Return (Binary64.max (Binary64.Int 0) rental_income)
     else if existsb (String.eqb employment_type) ["Freelancer"; "Business"]
     then Return (Binary64.get details "net_profit" (Binary64.Int 0))
     else if String.eqb employment_type "Investor" then
       Binary64.add (Binary64.get details "dividends" (Binary64.Int 0))
                    (Binary64.get details "interest_income" (Binary64.Int 0))
     else Return (Binary64.Int 0)) = Return (Binary64.Int T)
    /\ (0 <= T < 2 ^ 1002)%Z.
Proof.
  intros H Hform.
  destruct (tables_agree _ _ H)
    as (cfg64 & H64 & _ & _ & _ & (ded & Hded & Hd & _) & _).
  assert (Hpow : (2 ^ 1002 = 4 * 2 ^ 1000)%Z) by reflexivity.
  destruct (String.eqb employment_type "Salaried").
  { destruct (get_rupees details "basic_salary" Hform) as (a & -> & Ha).
    destruct (get_rupees details "hra" Hform) as (b & -> & Hb).
    destruct (get_rupees details "bonus" Hform) as (c & -> & Hc).
    rewrite H64. cbn [Binary64.add Binary64.getitem mbind py_bind].
    rewrite Hded. cbn [Binary64.sub mbind py_bind]. rewrite max_zero_int.
    eexists. split; [reflexivity|]. lia. }
  destruct (String.eqb employment_type "Rental").
  { destruct (get_rupees details "rent_received" Hform) as (a & -> & Ha).
    destruct (get_rupees details "municipal_tax" Hform) as (b & -> & Hb).
    destruct (get_rupees details "interest_paid" Hform) as (c & -> & Hc).
    cbn [Binary64.sub mbind py_bind]. rewrite max_zero_int.
    eexists. split; [reflexivity|]. lia. }
  destruct (existsb _ _).
  { destruct (get_rupees details "net_profit" Hform) as (a & -> & Ha).
    eexists. split; [reflexivity|]. lia. }
  destruct (String.eqb employment_type "Investor").
  { destruct (get_rupees details "dividends" Hform) as (a & -> & Ha).
    destruct (get_rupees details "interest_income" Hform) as (b & -> & Hb).
    eexists. split; [reflexivity|]. lia. }
  exists 0%Z. split; [reflexivity|]. lia.
Qed.

(** The whole computation on a profile of the form: every call returns,
    and each field is the rounded result of the step that computes it. *)
Lemma compute_total_tax_liability_rounded details fy_ay cfg employment_type :
  get_tax_slabs fy_ay = Some cfg -> Binary64.form_input details ->
  exists r T stcg ltcg,
    Binary64.compute_total_tax_liability details fy_ay employment_type
    = Return r
    /\ Binary64.r_taxable_income r = Binary64.Int T
    /\ (0 <= T < 2 ^ 1002)%Z
    /\ Binary64.get details "stcg" (Binary64.Int 0) = Binary64.Int stcg
    /\ Binary64.get details "ltcg" (Binary64.Int 0) = Binary64.Int ltcg
    /\ (0 <= stcg < 2 ^ 1000)%Z /\ (0 <= ltcg < 2 ^ 1000)%Z
    /\ Binary64.calculate_income_tax (Binary64.Int T) fy_ay
       = Return (Binary64.r_gross_tax r, Binary64.r_tax_breakdown r)
    /\ Binary64.calculate_rebate_87a (Binary64.r_gross_tax r)
         (Binary64.Int T) fy_ay = Return (Binary64.r_rebate_87a r)
    /\ Binary64.calculate_cess_and_surcharge (Binary64.r_tax_after_rebate r)
         (Binary64.Int T)
       = Return (Binary64.r_surcharge r, Binary64.r_cess r)
    /\ Binary64.calculate_capital_gains_tax (Binary64.Int stcg)
         (Binary64.Int ltcg)
       = Return (Binary64.r_stcg_tax r, Binary64.r_ltcg_tax r)
    /\ Binary64.bounded 1008 (Binary64.r_gross_tax r)
    /\ Binary64.bounded 1009 (Binary64.r_tax_after_rebate r)
    /\ Binary64.bounded 1009 (Binary64.r_surcharge r)
    /\ Binary64.bounded 1009 (Binary64.r_cess r)
    /\ Binary64.bounded 1009 (Binary64.r_stcg_tax r)
    /\ Binary64.bounded 1009 (Binary64.r_ltcg_tax r)
    /\ Binary64.bounded 1013 (Binary64.r_total_tax r)
    /\ Binary64.val (Binary64.r_tax_after_rebate r)
       == rnd (Binary64.val (Binary64.r_gross_tax r)
               - Binary64.val (Binary64.r_rebate_87a r))
    /\ Binary64.val (Binary64.r_total_tax r)
       == rnd (rnd (rnd (rnd (Binary64.val (Binary64.r_tax_after_rebate r)
                              + Binary64.val (Binary64.r_surcharge r))
                         + Binary64.val (Binary64.r_cess r))
                    + Binary64.val (Binary64.r_stcg_tax r))
               + Binary64.val (Binary64.r_ltcg_tax r))
    /\ Binary64.r_advance_tax_required r
       = gtb (Binary64.val (Binary64.r_total_tax r))
             (advance_tax_threshold cfg).
Proof.
  intros H Hform.
  destruct (taxable_income_whole details _ _ employment_type H Hform)
    as (T & Hti & HT).
  destruct (get_rupees details "stcg" Hform) as (stcg & Hstcg & Hs).
  destruct (get_rupees details "ltcg" Hform) as (ltcg & Hltcg & Hl).
  destruct (calculate_income_tax_rounded _ _ T 1002 H ltac:(lia)
              (below_pow2 T 1002 ltac:(lia) ltac:(lia)) ltac:(lia))
    as (gross & bd & Hgross & Hbg & _).
  change (1002 + 6)%Z with 1008%Z in Hbg.
  destruct (calculate_rebate_87a_bounded _ _ gross T 1008 H Hbg)
    as (rebate & Hrebate & Hrf & Hrrep & Hrle & _).
  destruct (sub_bounded 1008 gross rebate Hbg Hrf Hrrep Hrle ltac:(lia))
    as (tar & Htar & Hbt & Et).
  destruct (calculate_cess_and_surcharge_rounded tar T 1008 Hbt ltac:(lia))
    as (sur & cess & Hsc & Hbs & Hbc & _).
  change (1008 + 1)%Z with 1009%Z in Hbc.
  destruct (calculate_capital_gains_tax_rounded stcg ltcg 1000
              ltac:(lia) ltac:(lia)
              (below_pow2 stcg 1000 ltac:(lia) ltac:(lia))
              (below_pow2 ltcg 1000 ltac:(lia) ltac:(lia)) ltac:(lia))
    as (st & lt & Hcg & Hbst & Hblt & _).
  pose proof (bounded_weaken 1008 1009 tar ltac:(lia) Hbt) as Hbt9.
  pose proof (bounded_weaken 1008 1009 sur ltac:(lia) Hbs) as Hbs9.
  pose proof (bounded_weaken 1000 1009 st ltac:(lia) Hbst) as Hbst9.
  pose proof (bounded_weaken 1000 1009 lt ltac:(lia) Hblt) as Hblt9.
  destruct (add_bounded 1009 tar sur Hbt9 Hbs9 ltac:(lia))
    as (sum1 & Hsum1 & Hb1 & E1).
  destruct (add_bounded 1010 sum1 cess Hb1
              (bounded_weaken 1009 1010 cess ltac:(lia) Hbc) ltac:(lia))
    as (sum2 & Hsum2 & Hb2 & E2).
  destruct (add_bounded 1011 sum2 st Hb2
              (bounded_weaken 1009 1011 st ltac:(lia) Hbst9) ltac:(lia))
    as (sum3 & Hsum3 & Hb3 & E3).
  destruct (add_bounded 1012 sum3 lt Hb3
              (bounded_weaken 1009 1012 lt ltac:(lia) Hblt9) ltac:(lia))
    as (total & Htotal & Hb4 & E4).
  change (1009 + 1)%Z with 1010%Z in *. change (1010 + 1)%Z with 1011%Z in *.
  change (1011 + 1)%Z with 1012%Z in *. change (1012 + 1)%Z with 1013%Z in *.
  destruct (tables_agree _ _ H)
    as (cfg64 & H64 & _ & _ & _ & _ & (threshold & Hthr & Ethr)).
  eexists. exists T, stcg, ltcg. split.
  { unfold Binary64.compute_total_tax_liability.
    match goal with
    | |- mbind _ ?m = _ =>
        replace m with (Return (Binary64.Int T))
          by (symmetry; exact Hti)
    end.
    cbn [mbind py_bind]. rewrite Hgross. cbn [mbind py_bind].
    rewrite Hrebate. cbn [mbind py_bind]. rewrite Htar. cbn [mbind py_bind].
    rewrite Hsc. cbn [mbind py_bind]. rewrite Hstcg, Hltcg, Hcg.
    cbn [mbind py_bind]. rewrite Hsum1. cbn [mbind py_bind].
    rewrite Hsum2. cbn [mbind py_bind]. rewrite Hsum3. cbn [mbind py_bind].
    rewrite Htotal. cbn [mbind py_bind]. rewrite H64.
    cbn [Binary64.getitem mbind py_bind]. reflexivity. }
  cbn [Binary64.r_taxable_income Binary64.r_gross_tax Binary64.r_rebate_87a
       Binary64.r_tax_after_rebate Binary64.r_surcharge Binary64.r_cess
       Binary64.r_stcg_tax Binary64.r_ltcg_tax Binary64.r_total_tax
       Binary64.r_advance_tax_required Binary64.r_tax_breakdown].
  repeat (split; [first [reflexivity | assumption | lia]|]).
  split.
  { rewrite E4, E3, E2, E1. reflexivity. }
  rewrite Hthr.
  rewrite (gt_gtb total (Binary64.Int threshold)
             (bounded_finite _ _ Hb4) I).
  cbn [Binary64.val Binary64.exact]. unfold gtb. f_equal.
  apply (leb_comp _ _ _ (Qeq_sym _ _ Ethr)).
Qed.

(** * The claims where rounding shows *)

(** ** C2: the loop computes the sum over all slabs *)

(** C2, as the code has it.  In a supported year, for every whole taxable
    income [T] from 0 to [2^1000], [calculate_income_tax] returns a finite
    tax that is the sum over all slabs of
    [max(0, min(T, upper) - lower) * rate] evaluated in binary64 from left
    to right (every rate, amount, product and partial sum rounded to
    nearest); that value is within [10 * 2^-52] of the exact sum,
    relatively; and when [T] is the upper bound [u] of a slab the tax is
    exactly the sum of the full contributions of that slab and of the slabs
    before it, every later slab adding 0. *)
Theorem income_tax_is_rounded_reference_sum fy_ay cfg :
  get_tax_slabs fy_ay = Some cfg ->
  (forall T, (0 <= T < 2 ^ 1000)%Z ->
      exists tax bd,
        Binary64.calculate_income_tax (Binary64.Int T) fy_ay
        = Return (tax, bd)
        /\ Binary64.finite tax
        /\ Binary64.val tax == rounded_reference (inject_Z T) (slabs cfg)
        /\ near 10 (Binary64.val tax)
                (reference_tax (inject_Z T) (slabs cfg)))
  /\ (forall pre lower u rate post,
        slabs cfg = pre ++ (lower, Fin u, rate) :: post ->
        exists uz tax bd,
          u == inject_Z uz
          /\ Binary64.calculate_income_tax (Binary64.Int uz) fy_ay
             = Return (tax, bd)
          /\ Binary64.val tax == full_tax (pre ++ [(lower, Fin u, rate)])
          /\ Forall (fun s => contribution u s == 0) post).
Proof.
  intros H. split.
  - intros T [HT0 HT].
    destruct (calculate_income_tax_rounded _ _ T 1000 H HT0
                (below_pow2 T 1000 ltac:(lia) HT) ltac:(lia))
      as (tax & bd & Hcall & Hb & E).
    destruct (rounded_tax_supported _ _ H) as (Href & Hnear & _).
    exists tax, bd. split; [exact Hcall|].
    split; [exact (bounded_finite _ _ Hb)|]. split.
    + rewrite E. apply Href.
    + eapply near_comp; [symmetry; exact E | reflexivity | apply Hnear].
  - intros pre lower u rate post Hsplit.
    pose proof (slabs_progressive _ _ H) as Hp. rewrite Hsplit in Hp.
    pose proof (contribution_after_upper _ _ _ _ _ _ _ Hp) as Hafter.
    clear Hp. exists (Qnum u).
    by_year H; cbn [slabs] in Hsplit; split_table Hsplit;
      try discriminate Hsplit;
      injection Hsplit as <- <- <- <-;
      (eexists; eexists; split; [reflexivity|]);
      (split; [vm_compute; reflexivity|]);
      (split; [vm_compute; reflexivity | exact Hafter]).
Qed.

(** At 7 lakh and 3 rupees in 2025-26 the call returns, and at 7 lakh the
    tax is exactly 15000. *)
Lemma income_tax_is_rounded_reference_sum_witness :
  exists cfg, get_tax_slabs "FY 2025-26 / AY 2026-27" = Some cfg
  /\ (exists tax bd,
        Binary64.calculate_income_tax (Binary64.Int 700003)
          "FY 2025-26 / AY 2026-27" = Return (tax, bd)
        /\ Binary64.finite tax
        /\ Binary64.val tax == rounded_reference 700003 (slabs cfg)
        /\ near 10 (Binary64.val tax) (reference_tax 700003 (slabs cfg)))
  /\ exists uz tax bd,
       700000 == inject_Z uz
       /\ Binary64.calculate_income_tax (Binary64.Int uz)
            "FY 2025-26 / AY 2026-27" = Return (tax, bd)
       /\ Binary64.val tax
          == full_tax [ (0, Fin 400000, 0); (400000, Fin 700000, 0.05) ]
       /\ Forall (fun s => contribution 700000 s == 0)
            [ (700000, Fin 1000000, 0.10); (1000000, Fin 1200000, 0.15);
              (1200000, Fin 1500000, 0.20); (1500000, Inf, 0.30) ].
Proof.
  eexists. split; [reflexivity|]. split.
  - refine (proj1 (income_tax_is_rounded_reference_sum
                     "FY 2025-26 / AY 2026-27" _ eq_refl) 700003%Z _).
    split; [lia | reflexivity].
  - refine (proj2 (income_tax_is_rounded_reference_sum
                     "FY 2025-26 / AY 2026-27" _ eq_refl)
                  [ (0, Fin 400000, 0) ] 400000 700000 0.05 _ eq_refl).
Defined.

(** C2 as stated fails: at a taxable income of 400003 in 2025-26 the exact
    sum over the slabs is 3/20, and the call returns the float next above
    the float nearest to it. *)
Lemma income_tax_is_not_the_exact_sum :
  exists cfg tax bd,
    get_tax_slabs "FY 2025-26 / AY 2026-27" = Some cfg
    /\ Binary64.calculate_income_tax (Binary64.Int 400003)
         "FY 2025-26 / AY 2026-27" = Return (tax, bd)
    /\ reference_tax 400003 (slabs cfg) == 0.15
    /\ Binary64.val tax == 5404319552844596 # 36028797018963968
    /\ ~ Binary64.val tax == reference_tax 400003 (slabs cfg)
    /\ rnd (reference_tax 400003 (slabs cfg)) < Binary64.val tax.
Proof.
  eexists. eexists. eexists. split; [reflexivity|].
  split; [vm_compute; reflexivity|].
  split; [vm_compute; reflexivity|]. split; [vm_compute; reflexivity|].
  split; [vm_compute; discriminate | vm_compute; reflexivity].
Qed.

(** ** C4: surcharge and cess *)

Lemma surcharge_rate_bands T :
  (T <= 5000000 -> surcharge_rate T = 0)
  /\ (5000000 < T -> T <= 10000000 -> surcharge_rate T = 0.10)
  /\ (10000000 < T -> T <= 20000000 -> surcharge_rate T = 0.15)
  /\ (20000000 < T -> T <= 50000000 -> surcharge_rate T = 0.25)
  /\ (50000000 < T -> surcharge_rate T = 0.37).
Proof.
  unfold surcharge_rate. case_tests; repeat split; intros;
    try reflexivity; lra.
Qed.

(** The rounded product of a float and a rate follows the exact product. *)
Lemma rounded_share_near x rate :
  0 <= x -> x == 0 \/ pow2 (-1000) <= x ->
  rate == 0 /\ rnd rate == 0 \/ pow2 (-10) <= rate -> 0 <= rate -> rate <= 1 ->
  near 2 (rnd (x * rnd rate)) (rate * x).
Proof.
  intros Hx Hxz Hrz Hr0 Hr1.
  assert (Hrate : rate == 0 \/ pow2 (-10) <= rate /\ rate <= 1)
    by (destruct Hrz as [[Hz _] | Hlo]; [left | right; split]; assumption).
  destruct (rounded_rate rate Hrate) as (R0 & R1 & Rn & Rz).
  apply (near_rnd 1 (x * rnd rate) (rate * x)).
  - apply Qmult_le_0_compat; assumption.
  - lia.
  - eapply near_comp; [reflexivity | | apply (near_scale 1 x); [exact Hx|]].
    + apply Qmult_comm.
    + exact Rn.
  - destruct Hxz as [Hz | Hlo]; [left; rewrite Hz; ring|].
    destruct Rz as [Hz | Hlo']; [left; rewrite Hz; ring | right].
    assert (P : pow2 (-1022) <= pow2 (-1000) * pow2 (-10))
      by (rewrite <- pow2_plus; apply pow2_le; lia).
    pose proof (pow2_pos (-1000)). pose proof (pow2_pos (-10)).
    assert (0 <= (x - pow2 (-1000)) * rnd rate)
      by (apply Qmult_le_0_compat; lra).
    assert (0 <= pow2 (-1000) * (rnd rate - pow2 (-10)))
      by (apply Qmult_le_0_compat; lra).
    lra.
Qed.

(** C4, as the code has it.  For a tax after rebate [R] that is the [int] 0
    or a float from 0 to [2^1000], and a whole taxable income [T], the call
    returns a finite surcharge and cess.  The surcharge is the [int] 0 up to
    50 lakh and otherwise the binary64 product of [R] and the float nearest
    to 0.10, 0.15, 0.25 or 0.37, by the band of [T]; the cess is the
    binary64 product of the binary64 sum of [R] and the surcharge and the
    float nearest to 0.04.  For [R] that is 0 or at least [2^-1000] the
    surcharge is within [2 * 2^-52], relatively, of the band's percentage of
    [R], and the cess within [4 * 2^-52] of 4% of [R] plus the surcharge.
    With [R] held constant the surcharge does not decrease when the taxable
    income grows. *)
Theorem surcharge_is_rounded_step_function_cess_compounds :
  (forall R T,
      Binary64.bounded 1000 R ->
      exists surcharge cess,
        Binary64.calculate_cess_and_surcharge R (Binary64.Int T)
        = Return (surcharge, cess)
        /\ Binary64.finite surcharge /\ Binary64.finite cess
        /\ ((T <= 5000000)%Z -> surcharge = Binary64.Int 0)
        /\ ((5000000 < T <= 10000000)%Z ->
            Binary64.val surcharge == rnd (Binary64.val R * rnd 0.10))
        /\ ((10000000 < T <= 20000000)%Z ->
            Binary64.val surcharge == rnd (Binary64.val R * rnd 0.15))
        /\ ((20000000 < T <= 50000000)%Z ->
            Binary64.val surcharge == rnd (Binary64.val R * rnd 0.25))
        /\ ((50000000 < T)%Z ->
            Binary64.val surcharge == rnd (Binary64.val R * rnd 0.37))
        /\ Binary64.val cess
           == rnd (rnd (Binary64.val R + Binary64.val surcharge) * rnd 0.04)
        /\ (Binary64.val R == 0 \/ pow2 (-1000) <= Binary64.val R ->
            near 2 (Binary64.val surcharge)
                 (surcharge_rate (inject_Z T) * Binary64.val R)
            /\ near 4 (Binary64.val cess)
                    (0.04 * (Binary64.val R + Binary64.val surcharge))))
  /\ (forall R T1 T2 surcharge1 cess1 surcharge2 cess2,
        Binary64.bounded 1000 R -> (T1 <= T2)%Z ->
        Binary64.calculate_cess_and_surcharge R (Binary64.Int T1)
        = Return (surcharge1, cess1) ->
        Binary64.calculate_cess_and_surcharge R (Binary64.Int T2)
        = Return (surcharge2, cess2) ->
        Binary64.val surcharge1 <= Binary64.val surcharge2).
Proof.
  split.
  - intros R T Hb.
    destruct (calculate_cess_and_surcharge_rounded R T 1000 Hb ltac:(lia))
      as (sur & cess & Hcall & Hbs & Hbc & Es & Ec & Hzero).
    destruct (bounded_val _ _ Hb) as [Rrep _].
    destruct (bounded_val _ _ Hbs) as [Srep _].
    pose proof (representable_nonneg _ Rrep) as R0.
    pose proof (representable_nonneg _ Srep) as S0.
    destruct (surcharge_rate_bands (inject_Z T))
      as (_ & B10 & B15 & B25 & B37).
    assert (Hband : forall lo, (lo < T)%Z -> inject_Z lo < inject_Z T)
      by (intros lo Hlo; rewrite <- Zlt_Qlt; exact Hlo).
    assert (Hband' : forall hi, (T <= hi)%Z -> inject_Z T <= inject_Z hi)
      by (intros hi Hhi; rewrite <- Zle_Qle; exact Hhi).
    exists sur, cess. split; [exact Hcall|].
    split; [exact (bounded_finite _ _ Hbs)|].
    split; [exact (bounded_finite _ _ Hbc)|]. split; [exact Hzero|].
    split; [intros [H1 H2]; rewrite Es, B10;
            [reflexivity | exact (Hband _ H1) | exact (Hband' _ H2)]|].
    split; [intros [H1 H2]; rewrite Es, B15;
            [reflexivity | exact (Hband _ H1) | exact (Hband' _ H2)]|].
    split; [intros [H1 H2]; rewrite Es, B25;
            [reflexivity | exact (Hband _ H1) | exact (Hband' _ H2)]|].
    split; [intros H1; rewrite Es, B37; [reflexivity | exact (Hband _ H1)]|].
    split; [exact Ec|]. intros Hnormal.
    destruct (surcharge_rate_values (inject_Z T)) as (Hrz & Hr0 & Hr1).
    split.
    + eapply near_comp; [symmetry; exact Es | reflexivity|].
      apply rounded_share_near; assumption.
    + eapply near_comp; [symmetry; exact Ec | reflexivity|].
      set (base := Binary64.val R + Binary64.val sur) in *.
      assert (Hbase0 : 0 <= base) by (unfold base; lra).
      destruct (sum_error _ _ Rrep Srep) as [E1 E2]. fold base in E1, E2.
      assert (Hn1 : near 1 (rnd base) base)
        by (apply (near_round 0 base); [exact Hbase0 | lia | apply near_exact
                                        | exact E1 | exact E2]).
      assert (H004 : 0 <= rnd 0.04 /\ rnd 0.04 <= 1 /\ near 1 (rnd 0.04) 0.04
                     /\ (rnd 0.04 == 0 \/ pow2 (-10) <= rnd 0.04))
        by (apply rounded_rate; right; split; discriminate).
      destruct H004 as (C0 & C1 & Cn & Cz).
      apply (near_rnd 3 (rnd base * rnd 0.04)).
      * apply Qmult_le_0_compat; [discriminate | exact Hbase0].
      * lia.
      * eapply near_comp; [reflexivity | apply Qmult_comm|].
        apply (near_mul 1 1); [exact Hbase0 | discriminate | lia | lia
                               | exact Hn1 | exact Cn].
      * destruct Cz as [Cz | Cz]; [exfalso; revert Cz; vm_compute;
                                   discriminate|].
        destruct (Qeq_dec base 0) as [Hz | Hnz].
        { left. rewrite (rnd_zero base Hz). ring. }
        right.
        assert (Hlow : pow2 (-1000) <= base).
        { destruct Hnormal as [Hz | Hlo]; [|unfold base; lra].
          assert (Hs0 : Binary64.val sur == 0).
          { rewrite Es. apply rnd_zero. rewrite Hz. ring. }
          exfalso. apply Hnz. unfold base. lra. }
        pose proof (rnd_ge_pow2 base (-1000) ltac:(lia) Hlow) as Hrlow.
        assert (P : pow2 (-1022) <= pow2 (-1000) * pow2 (-10))
          by (rewrite <- pow2_plus; apply pow2_le; lia).
        pose proof (pow2_pos (-1000)). pose proof (pow2_pos (-10)).
        assert (0 <= (rnd base - pow2 (-1000)) * rnd 0.04)
          by (apply Qmult_le_0_compat; lra).
        assert (0 <= pow2 (-1000) * (rnd 0.04 - pow2 (-10)))
          by (apply Qmult_le_0_compat; lra).
        lra.
  - intros R T1 T2 s1 c1 s2 c2 Hb HT H1 H2.
    destruct (calculate_cess_and_surcharge_rounded R T1 1000 Hb ltac:(lia))
      as (s1' & c1' & Hcall1 & _ & _ & Es1 & _).
    destruct (calculate_cess_and_surcharge_rounded R T2 1000 Hb ltac:(lia))
      as (s2' & c2' & Hcall2 & _ & _ & Es2 & _).
    rewrite H1 in Hcall1. injection Hcall1 as <- <-.
    rewrite H2 in Hcall2. injection Hcall2 as <- <-.
    rewrite Es1, Es2.
    destruct (bounded_val _ _ Hb) as [Rrep _].
    pose proof (representable_nonneg _ Rrep) as R0.
    destruct (surcharge_rate_values (inject_Z T1)) as (_ & Hr0 & _).
    assert (Hrate : rnd (surcharge_rate (inject_Z T1))
                    <= rnd (surcharge_rate (inject_Z T2))).
    { apply rnd_mono; [exact Hr0|]. apply surcharge_rate_mono.
      rewrite <- Zle_Qle. exact HT. }
    pose proof (rnd_nonneg _ Hr0) as Hrr0.
    apply rnd_mono; [apply Qmult_le_0_compat; assumption|].
    assert (0 <= Binary64.val R * (rnd (surcharge_rate (inject_Z T2))
                                   - rnd (surcharge_rate (inject_Z T1))))
      by (apply Qmult_le_0_compat; lra).
    lra.
Qed.

(** A tax after rebate of 3000000.5 at 50 lakh and at 50 lakh and one
    rupee. *)
Lemma surcharge_is_rounded_step_function_cess_compounds_witness :
  exists surcharge1 cess1 surcharge2 cess2,
    Binary64.calculate_cess_and_surcharge
      (Binary64.Flt (Binary64.Finite 3000000.5)) (Binary64.Int 5000000)
    = Return (surcharge1, cess1)
    /\ Binary64.calculate_cess_and_surcharge
         (Binary64.Flt (Binary64.Finite 3000000.5)) (Binary64.Int 5000001)
       = Return (surcharge2, cess2)
    /\ surcharge1 = Binary64.Int 0
    /\ Binary64.val surcharge2 == rnd (3000000.5 * rnd 0.10)
    /\ near 2 (Binary64.val surcharge2)
            (surcharge_rate (inject_Z 5000001) * 3000000.5)
    /\ Binary64.val surcharge1 <= Binary64.val surcharge2.
Proof.
  destruct surcharge_is_rounded_step_function_cess_compounds
    as [Hstep Hmono].
  assert (Hb : Binary64.bounded 1000
                 (Binary64.Flt (Binary64.Finite 3000000.5))).
  { split.
    - exists 6000001%Z, (-1)%Z. split; [split; [lia | reflexivity]|].
      split; [lia | reflexivity].
    - apply Qle_trans with (pow2 22); [discriminate | apply pow2_le; lia]. }
  destruct (Hstep _ 5000000%Z Hb)
    as (s1 & c1 & H1 & _ & _ & Hz & _).
  destruct (Hstep _ 5000001%Z Hb)
    as (s2 & c2 & H2 & _ & _ & _ & H10 & _ & _ & _ & _ & Hn).
  exists s1, c1, s2, c2. split; [exact H1|]. split; [exact H2|].
  split; [apply Hz; lia|]. split; [apply H10; lia|].
  split; [apply Hn; right;
          apply Qle_trans with (pow2 0); [apply pow2_le; lia | discriminate]|].
  apply (Hmono _ 5000000%Z 5000001%Z s1 c1 s2 c2 Hb); [lia | exact H1
                                                       | exact H2].
Defined.

(** C4 as stated fails: on a tax after rebate of 7 at an income of 50 lakh
    and one rupee the surcharge is the float above the one nearest to 10%
    of 7, and the cess is not 4% of the two; and for the investor with
    dividends of 5000001, a profile of the form, the surcharge in the
    result is not 10% of the tax after rebate in the result. *)
Lemma surcharge_is_not_the_exact_percentage :
  (exists surcharge cess,
      Binary64.calculate_cess_and_surcharge (Binary64.Flt (Binary64.Finite 7))
        (Binary64.Int 5000001) = Return (surcharge, cess)
      /\ ~ Binary64.val surcharge == 0.10 * 7
      /\ rnd (0.10 * 7) < Binary64.val surcharge
      /\ ~ Binary64.val cess == 0.04 * (7 + Binary64.val surcharge))
  /\ exists r,
       Binary64.compute_total_tax_liability
         {[ "dividends"%string := Binary64.Int 5000001 ]}
         "FY 2025-26 / AY 2026-27" "Investor" = Return r
       /\ ~ Binary64.val (Binary64.r_surcharge r)
            == 0.10 * Binary64.val (Binary64.r_tax_after_rebate r)
       /\ ~ Binary64.val (Binary64.r_cess r)
            == 0.04 * (Binary64.val (Binary64.r_tax_after_rebate r)
                       + Binary64.val (Binary64.r_surcharge r)).
Proof.
  split.
  - eexists. eexists. split; [vm_compute; reflexivity|].
    split; [vm_compute; discriminate|]. split; [vm_compute; reflexivity|].
    vm_compute; discriminate.
  - eexists. split; [vm_compute; reflexivity|].
    split; vm_compute; discriminate.
Qed.

(** ** C5: capital gains *)

(** C5, as the code has it.  For whole gains from 0 to [2^1000] the call
    returns two finite floats: the short-term tax is the binary64 product
    of STCG and the float nearest to 0.15, the long-term tax the binary64
    product of [max(0, LTCG - 100000)] and the float nearest to 0.10; each
    is within [4 * 2^-52], relatively, of 15% of STCG and of 10% of
    [max(0, LTCG - 100000)]; LTCG up to 1 lakh is taxed exactly 0 and LTCG
    of 150000 exactly 5000.  In the total computation both are the result
    of this call on the two capital-gains fields alone, whatever the year,
    the employment type and the other income. *)
Theorem capital_gains_tax_rounded_flat_rates :
  (forall stcg ltcg,
      (0 <= stcg < 2 ^ 1000)%Z -> (0 <= ltcg < 2 ^ 1000)%Z ->
      exists stcg_tax ltcg_tax,
        Binary64.calculate_capital_gains_tax (Binary64.Int stcg)
          (Binary64.Int ltcg) = Return (stcg_tax, ltcg_tax)
        /\ Binary64.finite stcg_tax /\ Binary64.finite ltcg_tax
        /\ Binary64.val stcg_tax == rnd (rnd (inject_Z stcg) * rnd 0.15)
        /\ Binary64.val ltcg_tax
           == rnd (rnd (Qmax 0 (inject_Z ltcg - 100000)) * rnd 0.10)
        /\ near 4 (Binary64.val stcg_tax) (0.15 * inject_Z stcg)
        /\ near 4 (Binary64.val ltcg_tax)
                (0.10 * Qmax 0 (inject_Z ltcg - 100000))
        /\ ((ltcg <= 100000)%Z -> Binary64.val ltcg_tax == 0)
        /\ (ltcg = 150000%Z -> Binary64.val ltcg_tax == 5000))
  /\ (forall details fy_ay cfg employment_type,
        get_tax_slabs fy_ay = Some cfg -> Binary64.form_input details ->
        exists r,
          Binary64.compute_total_tax_liability details fy_ay employment_type
          = Return r
          /\ Binary64.calculate_capital_gains_tax
               (Binary64.get details "stcg" (Binary64.Int 0))
               (Binary64.get details "ltcg" (Binary64.Int 0))
             = Return (Binary64.r_stcg_tax r, Binary64.r_ltcg_tax r)).
Proof.
  split.
  - intros stcg ltcg [Hs0 Hs] [Hl0 Hl].
    destruct (calculate_capital_gains_tax_rounded stcg ltcg 1000 Hs0 Hl0
                (below_pow2 stcg 1000 ltac:(lia) Hs)
                (below_pow2 ltcg 1000 ltac:(lia) Hl) ltac:(lia))
      as (st & lt & Hcall & Hbs & Hbl & Es & El).
    exists st, lt. split; [exact Hcall|].
    split; [exact (bounded_finite _ _ Hbs)|].
    split; [exact (bounded_finite _ _ Hbl)|].
    split; [exact Es|]. split; [exact El|].
    assert (Hgain : inject_Z (Z.max 0 (ltcg - 100000))
                    == Qmax 0 (inject_Z ltcg - 100000)).
    { rewrite inject_Z_max_0. unfold Zminus.
      rewrite inject_Z_plus, inject_Z_opp. reflexivity. }
    split; [|split; [|split]].
    + eapply near_comp; [symmetry; exact Es | reflexivity|].
      apply rounded_product_near; [exact Hs0 | discriminate..].
    + apply (near_comp 4
               (rnd (rnd (inject_Z (Z.max 0 (ltcg - 100000))) * rnd 0.10))
               _ (0.10 * inject_Z (Z.max 0 (ltcg - 100000)))).
      * rewrite El, Hgain. reflexivity.
      * rewrite Hgain. reflexivity.
      * apply rounded_product_near; [lia | discriminate..].
    + intros Hle. rewrite El.
      assert (Hz : Qmax 0 (inject_Z ltcg - 100000) == 0).
      { rewrite <- Hgain. rewrite Z.max_l by lia. reflexivity. }
      apply rnd_zero. rewrite (rnd_zero _ Hz). ring.
    + intros ->. rewrite El. vm_compute. reflexivity.
  - intros details fy_ay cfg employment_type H Hform.
    destruct (compute_total_tax_liability_rounded details _ _
                employment_type H Hform)
      as (r & T & stcg & ltcg & Hr & _ & _ & Hstcg & Hltcg & _ & _ & _ & _
          & _ & Hcg & _).
    exists r. split; [exact Hr|]. rewrite Hstcg, Hltcg. exact Hcg.
Qed.

Lemma capital_gains_tax_rounded_flat_rates_witness :
  (exists stcg_tax ltcg_tax,
      Binary64.calculate_capital_gains_tax (Binary64.Int 40003)
        (Binary64.Int 100000) = Return (stcg_tax, ltcg_tax)
      /\ near 4 (Binary64.val stcg_tax) (0.15 * inject_Z 40003)
      /\ Binary64.val ltcg_tax == 0)
  /\ exists cfg r,
       get_tax_slabs "FY 2025-26 / AY 2026-27" = Some cfg
       /\ Binary64.compute_total_tax_liability
            {[ "ltcg"%string := Binary64.Int 200000 ]}
            "FY 2025-26 / AY 2026-27" "Investor" = Return r
       /\ Binary64.calculate_capital_gains_tax
            (Binary64.get {[ "ltcg"%string := Binary64.Int 200000 ]}
               "stcg" (Binary64.Int 0))
            (Binary64.get {[ "ltcg"%string := Binary64.Int 200000 ]}
               "ltcg" (Binary64.Int 0))
          = Return (Binary64.r_stcg_tax r, Binary64.r_ltcg_tax r).
Proof.
  destruct capital_gains_tax_rounded_flat_rates as [Hcall Hind]. split.
  - destruct (Hcall 40003%Z 100000%Z)
      as (st & lt & H & _ & _ & _ & _ & Hn & _ & Hfree & _);
      [split; [lia | reflexivity] | split; [lia | reflexivity]|].
    exists st, lt. split; [exact H|]. split; [exact Hn|].
    apply Hfree. lia.
  - eexists.
    destruct (Hind {[ "ltcg"%string := Binary64.Int 200000 ]}
                "FY 2025-26 / AY 2026-27" _ "Investor" eq_refl)
      as (r & Hr & Hcg).
    + intros key v Hv.
      destruct (decide (key = "ltcg"%string)) as [-> | Hne].
      * rewrite lookup_singleton_eq in Hv. injection Hv as <-.
        exists 200000%Z. split; [reflexivity|]. split; [lia | reflexivity].
      * rewrite lookup_singleton_ne in Hv by congruence. discriminate.
    + exists r. split; [reflexivity|]. split; [exact Hr | exact Hcg].
Defined.

(** C5 as stated fails: on gains of 3 and 199994 the short-term tax is the
    float below the one nearest to 15% of 3, and the long-term tax the
    float above the one nearest to 10% of 99994. *)
Lemma capital_gains_tax_is_not_the_exact_product :
  exists stcg_tax ltcg_tax,
    Binary64.calculate_capital_gains_tax (Binary64.Int 3)
      (Binary64.Int 199994) = Return (stcg_tax, ltcg_tax)
    /\ ~ Binary64.val stcg_tax == 0.15 * 3
    /\ Binary64.val stcg_tax < rnd (0.15 * 3)
    /\ ~ Binary64.val ltcg_tax == 0.10 * Qmax 0 (199994 - 100000)
    /\ rnd (0.10 * Qmax 0 (199994 - 100000)) < Binary64.val ltcg_tax.
Proof.
  eexists. eexists. split; [vm_compute; reflexivity|].
  split; [vm_compute; discriminate|]. split; [vm_compute; reflexivity|].
  split; [vm_compute; discriminate | vm_compute; reflexivity].
Qed.

(** ** C7: the total and the advance-tax flag *)

(** One more term of a rounded sum. *)
Lemma near_add_rounded k a b x :
  representable a -> representable b -> 0 <= x -> (0 <= k <= 2 ^ 40)%Z ->
  near k a x -> near (k + 1) (rnd (a + b)) (x + b).
Proof.
  intros Ha Hb Hx Hk Hn. pose proof (representable_nonneg _ Hb) as Hb0.
  apply near_rnd_sum; [lra | lia | exact Ha | exact Hb|].
  apply near_add; [exact Hn|].
  apply (near_weaken 0); [exact Hb0 | lia | apply near_exact].
Qed.

(** C7, as the code has it.  In a supported year, for every profile of
    whole amounts from 0 to [2^1000] and every employment type, the call
    returns a result with finite, non-negative taxes.  The tax after rebate
    is the binary64 difference of the gross slab tax and the rebate;
    surcharge and cess are those of [calculate_cess_and_surcharge] on the
    tax after rebate, the capital-gains taxes those of
    [calculate_capital_gains_tax] on the two gains.  The total is the sum
    tax after rebate + surcharge + cess + STCG tax + LTCG tax taken from
    left to right in binary64, every partial sum rounded, hence within
    [4 * 2^-52], relatively, of the exact sum of the five fields; and the
    advance-tax flag is set exactly when this rounded total is above the
    year's threshold. *)
Theorem total_is_rounded_sum_and_advance_tax details fy_ay cfg
    employment_type :
  get_tax_slabs fy_ay = Some cfg -> Binary64.form_input details ->
  exists r,
    Binary64.compute_total_tax_liability details fy_ay employment_type
    = Return r
    /\ Forall (fun field => Binary64.finite (field r)
                            /\ 0 <= Binary64.val (field r))
         [ Binary64.r_gross_tax; Binary64.r_rebate_87a;
           Binary64.r_tax_after_rebate; Binary64.r_surcharge;
           Binary64.r_cess; Binary64.r_stcg_tax; Binary64.r_ltcg_tax;
           Binary64.r_total_tax ]
    /\ Binary64.val (Binary64.r_total_tax r)
       == rnd (rnd (rnd (rnd (Binary64.val (Binary64.r_tax_after_rebate r)
                              + Binary64.val (Binary64.r_surcharge r))
                         + Binary64.val (Binary64.r_cess r))
                    + Binary64.val (Binary64.r_stcg_tax r))
               + Binary64.val (Binary64.r_ltcg_tax r))
    /\ near 4 (Binary64.val (Binary64.r_total_tax r))
            (Binary64.val (Binary64.r_tax_after_rebate r)
             + Binary64.val (Binary64.r_surcharge r)
             + Binary64.val (Binary64.r_cess r)
             + Binary64.val (Binary64.r_stcg_tax r)
             + Binary64.val (Binary64.r_ltcg_tax r))
    /\ Binary64.val (Binary64.r_tax_after_rebate r)
       == rnd (Binary64.val (Binary64.r_gross_tax r)
               - Binary64.val (Binary64.r_rebate_87a r))
    /\ Binary64.calculate_income_tax (Binary64.r_taxable_income r) fy_ay
       = Return (Binary64.r_gross_tax r, Binary64.r_tax_breakdown r)
    /\ Binary64.calculate_rebate_87a (Binary64.r_gross_tax r)
         (Binary64.r_taxable_income r) fy_ay
       = Return (Binary64.r_rebate_87a r)
    /\ Binary64.calculate_cess_and_surcharge (Binary64.r_tax_after_rebate r)
         (Binary64.r_taxable_income r)
       = Return (Binary64.r_surcharge r, Binary64.r_cess r)
    /\ Binary64.calculate_capital_gains_tax
         (Binary64.get details "stcg" (Binary64.Int 0))
         (Binary64.get details "ltcg" (Binary64.Int 0))
       = Return (Binary64.r_stcg_tax r, Binary64.r_ltcg_tax r)
    /\ (Binary64.r_advance_tax_required r = true
        <-> advance_tax_threshold cfg < Binary64.val (Binary64.r_total_tax r)).
Proof.
  intros H Hform.
  destruct (compute_total_tax_liability_rounded details _ _ employment_type
              H Hform)
    as (r & T & stcg & ltcg & Hr & HT & _ & Hstcg & Hltcg & _ & _ & Hgross
        & Hrebate & Hsc & Hcg & Bg & Bt & Bs & Bc & Bst & Blt & Btot & Et
        & Etot & Hadv).
  destruct (calculate_rebate_87a_bounded _ _ _ T 1008 H Bg)
    as (rebate & Hrebate' & Rf & Rrep & _).
  rewrite Hrebate in Hrebate'. injection Hrebate' as <-.
  assert (Hfield : forall j n, Binary64.bounded j n ->
            Binary64.finite n /\ 0 <= Binary64.val n).
  { intros j n Hb. split; [exact (bounded_finite _ _ Hb)|].
    apply representable_nonneg, (bounded_val _ _ Hb). }
  destruct (bounded_val _ _ Bt) as [Trep _].
  destruct (bounded_val _ _ Bs) as [Srep _].
  destruct (bounded_val _ _ Bc) as [Crep _].
  destruct (bounded_val _ _ Bst) as [STrep _].
  destruct (bounded_val _ _ Blt) as [LTrep _].
  pose proof (representable_nonneg _ Trep) as T0.
  pose proof (representable_nonneg _ Srep) as S0.
  pose proof (representable_nonneg _ Crep) as C0.
  pose proof (representable_nonneg _ STrep) as ST0.
  exists r. split; [exact Hr|]. split.
  { repeat constructor; try exact Rf;
      try apply representable_nonneg, Rrep;
      try (eapply bounded_finite; eassumption);
      eapply Hfield; eassumption. }
  split; [exact Etot|]. split.
  { eapply near_comp; [symmetry; exact Etot | reflexivity|].
    set (tar := Binary64.val (Binary64.r_tax_after_rebate r)) in *.
    set (sur := Binary64.val (Binary64.r_surcharge r)) in *.
    set (cess := Binary64.val (Binary64.r_cess r)) in *.
    set (st := Binary64.val (Binary64.r_stcg_tax r)) in *.
    set (lt := Binary64.val (Binary64.r_ltcg_tax r)) in *.
    assert (N1 : near 1 (rnd (tar + sur)) (tar + sur))
      by (apply (near_add_rounded 0); [exact Trep | exact Srep | exact T0
                                       | lia | apply near_exact]).
    assert (R1 : representable (rnd (tar + sur)))
      by (apply rnd_is_representable; lra).
    assert (N2 : near 2 (rnd (rnd (tar + sur) + cess)) (tar + sur + cess))
      by (apply (near_add_rounded 1); [exact R1 | exact Crep | lra | lia
                                       | exact N1]).
    assert (R2 : representable (rnd (rnd (tar + sur) + cess))).
    { apply rnd_is_representable.
      pose proof (representable_nonneg _ R1). lra. }
    assert (N3 : near 3 (rnd (rnd (rnd (tar + sur) + cess) + st))
                      (tar + sur + cess + st))
      by (apply (near_add_rounded 2); [exact R2 | exact STrep | lra | lia
                                       | exact N2]).
    assert (R3 : representable (rnd (rnd (rnd (tar + sur) + cess) + st))).
    { apply rnd_is_representable.
      pose proof (representable_nonneg _ R2). lra. }
    apply (near_add_rounded 3); [exact R3 | exact LTrep | lra | lia
                                 | exact N3]. }
  split; [exact Et|]. rewrite HT.
  split; [exact Hgross|]. split; [exact Hrebate|]. split; [exact Hsc|].
  split; [rewrite Hstcg, Hltcg; exact Hcg|].
  rewrite Hadv. apply gtb_lt.
Qed.

(** An investor with 20 lakh and 3 rupees of dividends and 2 lakh of
    long-term gains in 2025-26 must pay advance tax. *)
Lemma total_is_rounded_sum_and_advance_tax_witness :
  exists r,
    Binary64.compute_total_tax_liability
      {[ "dividends"%string := Binary64.Int 2000003;
         "ltcg"%string := Binary64.Int 200000 ]}
      "FY 2025-26 / AY 2026-27" "Investor" = Return r
    /\ near 4 (Binary64.val (Binary64.r_total_tax r))
            (Binary64.val (Binary64.r_tax_after_rebate r)
             + Binary64.val (Binary64.r_surcharge r)
             + Binary64.val (Binary64.r_cess r)
             + Binary64.val (Binary64.r_stcg_tax r)
             + Binary64.val (Binary64.r_ltcg_tax r))
    /\ Binary64.r_advance_tax_required r = true.
Proof.
  eassert (Hcfg : get_tax_slabs "FY 2025-26 / AY 2026-27" = Some _)
    by reflexivity.
  destruct (total_is_rounded_sum_and_advance_tax
              {[ "dividends"%string := Binary64.Int 2000003;
                 "ltcg"%string := Binary64.Int 200000 ]}
              "FY 2025-26 / AY 2026-27" _ "Investor" Hcfg)
    as (r & Hr & _ & _ & Hn & _ & _ & _ & _ & _ & Hadv).
  - intros key v Hv.
    destruct (decide (key = "dividends"%string)) as [-> | Hne1].
    + rewrite lookup_insert_eq in Hv. injection Hv as <-.
      exists 2000003%Z. split; [reflexivity|]. split; [lia | reflexivity].
    + rewrite lookup_insert_ne in Hv by congruence.
      destruct (decide (key = "ltcg"%string)) as [-> | Hne2].
      * rewrite lookup_singleton_eq in Hv. injection Hv as <-.
        exists 200000%Z. split; [reflexivity|]. split; [lia | reflexivity].
      * rewrite lookup_singleton_ne in Hv by congruence. discriminate.
  - exists r. split; [exact Hr|]. split; [exact Hn|].
    vm_compute in Hr. injection Hr as <-. reflexivity.
Defined.

(** C7 as stated fails: for the investor with short-term gains of 4 and
    long-term gains of 199994 in 2025-26, a profile of the form, the total
    in the result is not the sum of the five fields of the result; and
    15% of 4 plus 10% of 99994 is exactly the threshold 10000, not above
    it, yet the flag is set. *)
Lemma total_is_not_the_exact_sum :
  exists cfg r,
    get_tax_slabs "FY 2025-26 / AY 2026-27" = Some cfg
    /\ Binary64.compute_total_tax_liability
         {[ "stcg"%string := Binary64.Int 4;
            "ltcg"%string := Binary64.Int 199994 ]}
         "FY 2025-26 / AY 2026-27" "Investor" = Return r
    /\ ~ Binary64.val (Binary64.r_total_tax r)
         == Binary64.val (Binary64.r_tax_after_rebate r)
            + Binary64.val (Binary64.r_surcharge r)
            + Binary64.val (Binary64.r_cess r)
            + Binary64.val (Binary64.r_stcg_tax r)
            + Binary64.val (Binary64.r_ltcg_tax r)
    /\ 0.15 * 4 + 0.10 * (199994 - 100000) == advance_tax_threshold cfg
    /\ Binary64.r_advance_tax_required r = true.
Proof.
  eexists. eexists. split; [reflexivity|].
  split; [vm_compute; reflexivity|]. split; [vm_compute; discriminate|].
  split; [vm_compute; reflexivity | reflexivity].
Qed.

(** ** C8: monotonicity, continuity and progressivity of the slab tax *)




(** * Incomes beyond the range of binary64 *)

Lemma to_float_overflow z :
  (2 ^ 1024 <= z)%Z ->
  Binary64.to_float (Binary64.Int z) = Raise "OverflowError".
Proof.
  intros Hz. unfold Binary64.to_float, Binary64.round. cbv zeta.
  assert (Hbig : pow2 1024 <= rnd (inject_Z z)).
  { apply rnd_ge_pow2; [lia|]. rewrite (pow2_Z 1024) by lia.
    rewrite <- Zle_Qle. exact Hz. }
  apply Qle_bool_iff in Hbig. rewrite Hbig. reflexivity.
Qed.

(** A slab that lies wholly below the income is taxed in full. *)
Lemma slab_loop_full_slab T i lower upper rate64 rate rest tax bd :
  (0 <= lower < upper)%Z -> (upper < T)%Z -> (upper <= 2 ^ 53)%Z ->
  rate64 = Binary64.Int 0 /\ rate == 0
  \/ rate64 = Binary64.lit rate /\ pow2 (-10) <= rate /\ rate <= 1 ->
  Binary64.bounded i tax -> (53 <= i < 1023)%Z ->
  exists tax' bd',
    Binary64.slab_loop (Binary64.Int T)
      ((Binary64.Int lower, Binary64.Int upper, rate64) :: rest) tax bd
    = Binary64.slab_loop (Binary64.Int T) rest tax' bd'
    /\ Binary64.bounded (i + 1) tax'.
Proof.
  intros Hl Hu Hu53 Hr Hb Hi. cbn [Binary64.slab_loop].
  assert (Hle : Binary64.le (Binary64.Int T) (Binary64.Int lower) = false).
  { rewrite (le_leb (Binary64.Int T) (Binary64.Int lower) I I).
    apply leb_gt. cbn [Binary64.val Binary64.exact].
    rewrite <- Zlt_Qlt. lia. }
  assert (Hmin : Binary64.min (Binary64.Int T) (Binary64.Int upper)
                 = Binary64.Int upper).
  { unfold Binary64.min.
    assert (Hlt : Binary64.lt (Binary64.Int upper) (Binary64.Int T) = true).
    { apply (lt_finite (Binary64.Int upper) (Binary64.Int T) I I).
      cbn [Binary64.val Binary64.exact].
      rewrite <- Zlt_Qlt. exact Hu. }
    rewrite Hlt. reflexivity. }
  rewrite Hle, Hmin. cbn [Binary64.sub mbind py_bind].
  destruct (slab_tax_rounded i (upper - lower) rate64 rate ltac:(lia))
    as (slab_tax & Hmul & Hbs & _); [|lia | exact Hr|].
  { apply Qle_trans with (pow2 53); [|apply pow2_le; lia].
    rewrite (pow2_Z 53) by lia. rewrite <- Zle_Qle. lia. }
  rewrite Hmul. cbn [mbind py_bind].
  destruct (add_bounded i tax slab_tax Hb Hbs ltac:(lia))
    as (tax' & Hadd & Hb' & _).
  rewrite Hadd. cbn [mbind py_bind].
  eexists. eexists. split; [reflexivity | exact Hb'].
Qed.

(** The open slab of an income beyond the range raises. *)
Lemma slab_loop_open_slab_overflow T lower rate tax bd :
  (0 <= lower)%Z -> (2 ^ 1024 + lower <= T)%Z -> 0 <= rate -> rate <= 1 ->
  Binary64.slab_loop (Binary64.Int T)
    [(Binary64.Int lower, Binary64.Flt Binary64.PInf, Binary64.lit rate)]
    tax bd
  = Raise "OverflowError".
Proof.
  intros Hl HT Hr0 Hr1. cbn [Binary64.slab_loop].
  assert (Hle : Binary64.le (Binary64.Int T) (Binary64.Int lower) = false).
  { rewrite (le_leb (Binary64.Int T) (Binary64.Int lower) I I).
    apply leb_gt. cbn [Binary64.val Binary64.exact]. rewrite <- Zlt_Qlt.
    assert (0 < 2 ^ 1024)%Z by reflexivity. lia. }
  rewrite Hle. change (Binary64.min (Binary64.Int T)
                         (Binary64.Flt Binary64.PInf))
    with (Binary64.Int T).
  cbn [Binary64.sub mbind py_bind].
  rewrite (lit_finite rate Hr0 Hr1). unfold Binary64.mul.
  rewrite (to_float_overflow (T - lower)) by lia. reflexivity.
Qed.

(** Takes the loop past a slab that lies below the income. *)
Ltac full_slab T :=
  match goal with
  | Hb : Binary64.bounded ?i ?t
    |- Binary64.slab_loop _
         ((Binary64.Int ?l, Binary64.Int ?u, Binary64.Int 0) :: ?rest) ?t ?bd
       = _ =>
      let H := fresh in
      destruct (slab_loop_full_slab T i l u (Binary64.Int 0) 0 rest t bd)
        as (? & ? & H & ?);
      [lia | lia | lia | left; split; reflexivity | exact Hb | lia|];
      rewrite H; clear H Hb
  | Hb : Binary64.bounded ?i ?t
    |- Binary64.slab_loop _
         ((Binary64.Int ?l, Binary64.Int ?u, Binary64.lit ?r) :: ?rest) ?t ?bd
       = _ =>
      let H := fresh in
      destruct (slab_loop_full_slab T i l u (Binary64.lit r) r rest t bd)
        as (? & ? & H & ?);
      [lia | lia | lia
      | right; split; [reflexivity|]; split; vm_compute; discriminate
      | exact Hb | lia|];
      rewrite H; clear H Hb
  end.

(** X15.  In a supported year a whole taxable income of [2^1024 + 1500000]
    or more, which no float can hold, makes [calculate_income_tax] raise
    [OverflowError] when the amount in the open slab meets the rate 0.30:
    the call returns no tax. *)
Theorem income_beyond_float_range_raises_OverflowError fy_ay cfg T :
  get_tax_slabs fy_ay = Some cfg ->
  (2 ^ 1024 + 1500000 <= T)%Z ->
  Binary64.calculate_income_tax (Binary64.Int T) fy_ay
  = Raise "OverflowError"
  /\ forall tax bd,
       Binary64.calculate_income_tax (Binary64.Int T) fy_ay
       <> Return (tax, bd).
Proof.
  intros H HT.
  assert (Hpos : (0 < 2 ^ 1024)%Z) by reflexivity.
  assert (Hraise : Binary64.calculate_income_tax (Binary64.Int T) fy_ay
                   = Raise "OverflowError").
  { unfold Binary64.calculate_income_tax.
    by_year H; cbn [Binary64.getitem Binary64.get_tax_slabs String.eqb
                    Ascii.eqb Bool.eqb Binary64.slabs mbind py_bind].
    all: assert (Hb : Binary64.bounded 53 (Binary64.Int 0)) by reflexivity.
    all: repeat full_slab T.
    all: apply slab_loop_open_slab_overflow; [lia | lia | discriminate..]. }
  split; [exact Hraise|]. intros tax bd. rewrite Hraise. discriminate.
Qed.

Lemma income_beyond_float_range_raises_OverflowError_witness :
  Binary64.calculate_income_tax (Binary64.Int (10 ^ 400))
    "FY 2025-26 / AY 2026-27" = Raise "OverflowError".
Proof.
  eassert (Hcfg : get_tax_slabs "FY 2025-26 / AY 2026-27" = Some _)
    by reflexivity.
  apply (income_beyond_float_range_raises_OverflowError _ _ (10 ^ 400) Hcfg).
  vm_compute. discriminate.
Defined.
